(** * yt-relay: response cache, TTL resolution, playlist allow-list and
      configuration validation

    A shallow embedding of the Go sources

      - [config]      (type declarations, [Conf.Valid], [Load]),
      - [whitelist]   ([YouTubeAPI] and its self-refreshing playlist check),
      - [middleware]  (the [Cache] gin middleware),
      - [route]       (TTL resolution, [saveOKCache], [saveErrCache],
                       [saveCache], the [/search] handler and its routing),
      - [cli]         (the end of [Start]),

    followed by the properties that the specification states about them.

    Conventions.  Go [map[string]T] is [gmap string T]; a lookup
    [v, ok := m[k]] is [m !! k].  Go [int] and [time.Duration] are 64-bit
    and are carried as [Z] with the wrap-around written out where the
    code multiplies.  A Go [error] is carried by its message.  Calls to
    collaborators outside the sources (the clock, the CMS, Redis, JSON,
    the key deriver, the relay service) are explicit inputs, section
    variables or class members. *)

From Stdlib Require Import ZArith Lia Ascii String.
From stdpp Require Import base numbers option list strings pretty gmap fin_maps.

Local Open Scope string_scope.
Local Open Scope Z_scope.

(** A Go [error], identified with the text of [err.Error()]. *)
Definition error := string.

(** [errors.Wrap(err, msg)]: the message is prefixed to the cause. *)
Definition errors_Wrap (err : error) (msg : string) : error :=
  msg +:+ ": " +:+ err.

(* ------------------------------------------------------------------ *)
(** ** Package [time] (the part the sources use) *)

Module time.

(** [time.Duration] is an [int64] count of nanoseconds. *)
Definition Duration := Z.

(** An instant on the clock, in nanoseconds; the zero [time.Time] is [0]. *)
Definition Time := Z.

Definition minDuration : Duration := - 2 ^ 63.
Definition maxDuration : Duration := 2 ^ 63 - 1.

(** Two's-complement reduction of an integer to [int64]. *)
Definition wrap64 (z : Z) : Z := (z + 2 ^ 63) mod 2 ^ 64 - 2 ^ 63.

Definition Nanosecond : Duration := 1.
Definition Second : Duration := 1000000000.
Definition Minute : Duration := 60 * Second.

(** [d * e] on [Duration]: an [int64] product. *)
Definition mul (d e : Duration) : Duration := wrap64 (d * e).

(** [t.Sub(u)]: the difference, saturated to the range of [Duration]. *)
Definition Sub (t u : Time) : Duration :=
  Z.max minDuration (Z.min maxDuration (t - u)).

(** [time.Since(u)] when the clock reads [now]. *)
Definition Since (now u : Time) : Duration := Sub now u.

End time.

(* ------------------------------------------------------------------ *)
(** ** Package [strconv] *)

Module strconv.

(** The double quote, for messages that quote their argument. *)
Definition dq : string := String (Ascii.ascii_of_nat 34) EmptyString.

Definition digit (a : Ascii.ascii) : option Z :=
  let n := Z.of_nat (Ascii.nat_of_ascii a) in
  if (48 <=? n) && (n <=? 57) then Some (n - 48) else None.

(** The value of a run of decimal digits; [None] when another byte occurs. *)
Fixpoint digits (s : string) (acc : Z) : option Z :=
  match s with
  | EmptyString => Some acc
  | String a rest =>
      match digit a with
      | Some d => digits rest (10 * acc + d)
      | None => None
      end
  end.

Definition syntaxError (s : string) : error :=
  "strconv.Atoi: parsing " +:+ dq +:+ s +:+ dq +:+ ": invalid syntax".

Definition rangeError (s : string) : error :=
  "strconv.Atoi: parsing " +:+ dq +:+ s +:+ dq +:+ ": value out of range".

(** [strconv.Atoi] for a 64-bit [int]: an optional sign, then at least one
    decimal digit and nothing else; values outside [int64] are an error. *)
Definition Atoi (s : string) : error + Z :=
  let '(neg, body) :=
    match s with
    | String "+"%char rest => (false, rest)
    | String "-"%char rest => (true, rest)
    | _ => (false, s)
    end in
  match body with
  | EmptyString => inl (syntaxError s)
  | _ =>
      match digits body 0 with
      | None => inl (syntaxError s)
      | Some n =>
          let v := if neg then - n else n in
          if (v <? time.minDuration) || (time.maxDuration <? v)
          then inl (rangeError s)
          else inr v
      end
  end.

End strconv.

(* ------------------------------------------------------------------ *)
(** ** Package [strings] (the part the sources use) *)

Module gostrings.

(** [strings.Split(s, sep)] for a separator of one byte: [n] separators
    give [n + 1] pieces, and the empty string gives one empty piece. *)
Fixpoint Split (sep : ascii) (s : string) : list string :=
  match s with
  | EmptyString => [EmptyString]
  | String a rest =>
      if Ascii.eqb a sep then EmptyString :: Split sep rest
      else
        match Split sep rest with
        | piece :: pieces => String a piece :: pieces
        | [] => [String a EmptyString]
        end
  end.

(** The text before and after the first [sep], when there is one. *)
Fixpoint cut (sep : ascii) (s : string) : option (string * string) :=
  match s with
  | EmptyString => None
  | String a rest =>
      if Ascii.eqb a sep then Some (EmptyString, rest)
      else
        match cut sep rest with
        | Some (before, after) => Some (String a before, after)
        | None => None
        end
  end.

(** [strings.SplitN(s, sep, 2)] for a separator of one byte. *)
Definition SplitN2 (sep : ascii) (s : string) : list string :=
  match cut sep s with
  | Some (before, after) => [before; after]
  | None => [s]
  end.

(** The white space of ASCII: tab, line feed, vertical tab, form feed,
    carriage return, space. *)
Definition asciiSpace (a : ascii) : bool :=
  let n := nat_of_ascii a in
  ((9 <=? n) && (n <=? 13) || (n =? 32))%nat.

(** The other runes of [unicode.IsSpace], by their UTF-8 encodings:
    U+0085 and U+00A0 on two bytes; U+1680, U+2000 to U+200A, U+2028,
    U+2029, U+202F, U+205F and U+3000 on three. *)
Definition space2 (a b : ascii) : bool :=
  let '(a, b) := (nat_of_ascii a, nat_of_ascii b) in
  ((a =? 194) && ((b =? 133) || (b =? 160)))%nat.

Definition space3 (a b c : ascii) : bool :=
  let '(a, b, c) := (nat_of_ascii a, nat_of_ascii b, nat_of_ascii c) in
  ((a =? 225) && (b =? 154) && (c =? 128)
   || (a =? 226) && (b =? 128)
      && ((128 <=? c) && (c <=? 138) || (c =? 168) || (c =? 169) || (c =? 175))
   || (a =? 226) && (b =? 129) && (c =? 159)
   || (a =? 227) && (b =? 128) && (c =? 128))%nat.

(** [strings.TrimLeftFunc(s, unicode.IsSpace)]: the leading white-space
    runes are dropped; a byte that starts no white-space rune stops. *)
Fixpoint TrimLeft (s : string) : string :=
  match s with
  | EmptyString => EmptyString
  | String a rest =>
      if asciiSpace a then TrimLeft rest
      else
        match rest with
        | String b rest2 =>
            if space2 a b then TrimLeft rest2
            else
              match rest2 with
              | String c rest3 => if space3 a b c then TrimLeft rest3 else s
              | EmptyString => s
              end
        | EmptyString => s
        end
  end.

(** The same from the end, on the reversed text: the bytes of a rune
    come last byte first. *)
Fixpoint trimReversed (s : string) : string :=
  match s with
  | EmptyString => EmptyString
  | String a rest =>
      if asciiSpace a then trimReversed rest
      else
        match rest with
        | String b rest2 =>
            if space2 b a then trimReversed rest2
            else
              match rest2 with
              | String c rest3 => if space3 c b a then trimReversed rest3 else s
              | EmptyString => s
              end
        | EmptyString => s
        end
  end.

(** [strings.TrimRightFunc(s, unicode.IsSpace)]. *)
Definition TrimRight (s : string) : string :=
  String.rev (trimReversed (String.rev s)).

(** [strings.TrimSpace]. *)
Definition TrimSpace (s : string) : string := TrimRight (TrimLeft s).

(** [strings.HasPrefix(s, prefix)]. *)
Definition HasPrefix (s prefix : string) : bool := String.prefix prefix s.

End gostrings.

(* ------------------------------------------------------------------ *)
(** ** Package [config] *)

Module config.

(** [Whitelists]: the key is the identifier, the value tells whether the
    entry is effective. *)
Module Whitelists.
Record t := mk {
  ChannelIDs  : gmap string bool;
  PlaylistIDs : gmap string bool
}.
End Whitelists.

Module Cache.
Record t := mk {
  IsEnabled    : bool;
  DisabledAPIs : gmap string bool;
  TTL          : Z;
  ErrorTTL     : Z;
  OverwriteTTL : gmap string Z
}.
End Cache.

Definition RedisType := string.

Definition Cluster  : RedisType := "cluster".
Definition Single   : RedisType := "single".
Definition Sentinel : RedisType := "sentinel".
Definition Replica  : RedisType := "replica".

Module RedisAddress.
Record t := mk {
  Addr : string;
  Port : Z
}.
End RedisAddress.

Module RedisCluster.
Record t := mk {
  Addrs    : list RedisAddress.t;
  Password : string
}.
End RedisCluster.

Module RedisSingleInstance.
Record t := mk {
  Instance : RedisAddress.t;
  Password : string
}.
End RedisSingleInstance.

Module RedisSentinel.
Record t := mk {
  Addrs    : list RedisAddress.t;
  Password : string
}.
End RedisSentinel.

Module RedisReplicaInstances.
Record t := mk {
  MasterAddrs : list RedisAddress.t;
  SlaveAddrs  : list RedisAddress.t;
  Password    : string
}.
End RedisReplicaInstances.

(** [RedisService]; a nil pointer is [None]. *)
Module RedisService.
Record t := mk {
  Type_          : RedisType;
  Cluster        : option RedisCluster.t;
  SingleInstance : option RedisSingleInstance.t;
  Sentinel       : option RedisSentinel.t;
  Replica        : option RedisReplicaInstances.t
}.
End RedisService.

Module Conf.
Record t := mk {
  AppName    : string;
  Address    : string;
  ApiKey     : string;
  Cache      : Cache.t;
  CmsURL     : string;
  Port       : Z;
  Redis      : option RedisService.t;
  Whitelists : Whitelists.t
}.
End Conf.

(** One byte of the class [[a-zA-Z0-9.-]]. *)
Definition appNameByte (a : Ascii.ascii) : bool :=
  let n := Ascii.nat_of_ascii a in
  ((97 <=? n) && (n <=? 122) || (65 <=? n) && (n <=? 90)
   || (48 <=? n) && (n <=? 57) || (n =? 46) || (n =? 45))%nat.

Fixpoint allAppNameBytes (s : string) : bool :=
  match s with
  | EmptyString => true
  | String a rest => appNameByte a && allAppNameBytes rest
  end.

(** [regexp.MatchString("^[a-zA-Z0-9.-]+$", s)]: the whole text is a
    non-empty run of bytes of the class. *)
Definition matchAppName (s : string) : bool :=
  match s with
  | EmptyString => false
  | _ => allAppNameBytes s
  end.

(** [for _, addr := range addrs { if len(addr.Addr) == 0 { return false } }]:
    [true] when the loop would return. *)
Definition someAddrEmpty (addrs : list RedisAddress.t) : bool :=
  existsb (fun addr => (String.length (RedisAddress.Addr addr) =? 0)%nat) addrs.

(** [for api, ttl := range m { if ttl <= 0 { return false } }]:
    [true] when the loop would return. *)
Definition someTTLNotPositive (m : gmap string Z) : bool :=
  existsb (fun '(api, ttl) => ttl <=? 0) (map_to_list m).

(** [if cond { return false }; rest] *)
Notation "'reject_if' cond ';;' rest" := (if cond then false else rest)
  (at level 10, cond at level 9, rest at level 200, only parsing).

(** [(c *Conf) Valid()].  The log lines are left out. *)
Definition Valid (c : Conf.t) : bool :=
  reject_if (negb (matchAppName (Conf.AppName c))) ;;
  reject_if (String.eqb (Conf.ApiKey c) "") ;;
  reject_if ((size (Whitelists.ChannelIDs (Conf.Whitelists c)) =? 0)%nat) ;;
  reject_if (String.eqb (Conf.CmsURL c) "") ;;
  reject_if (Cache.IsEnabled (Conf.Cache c) && (Cache.TTL (Conf.Cache c) <=? 0)) ;;
  reject_if (Cache.IsEnabled (Conf.Cache c) && (Cache.ErrorTTL (Conf.Cache c) <=? 0)) ;;
  reject_if (Cache.IsEnabled (Conf.Cache c)
            && someTTLNotPositive (Cache.OverwriteTTL (Conf.Cache c))) ;;
  match Conf.Redis c with
  | None => true
  | Some redis =>
      if String.eqb (RedisService.Type_ redis) Cluster then
        match RedisService.Cluster redis with
        | None => false
        | Some cluster =>
            reject_if ((length (RedisCluster.Addrs cluster) =? 0)%nat) ;;
            reject_if (someAddrEmpty (RedisCluster.Addrs cluster)) ;;
            true
        end
      else if String.eqb (RedisService.Type_ redis) Single then
        match RedisService.SingleInstance redis with
        | None => false
        | Some single =>
            reject_if (String.eqb
              (RedisAddress.Addr (RedisSingleInstance.Instance single)) "") ;;
            true
        end
      else if String.eqb (RedisService.Type_ redis) Sentinel then
        match RedisService.Sentinel redis with
        | None => false
        | Some sentinel =>
            reject_if ((length (RedisSentinel.Addrs sentinel) =? 0)%nat) ;;
            reject_if (someAddrEmpty (RedisSentinel.Addrs sentinel)) ;;
            true
        end
      else if String.eqb (RedisService.Type_ redis) Replica then
        match RedisService.Replica redis with
        | None => false
        | Some replica =>
            reject_if ((length (RedisReplicaInstances.MasterAddrs replica) =? 0)%nat) ;;
            reject_if (someAddrEmpty (RedisReplicaInstances.MasterAddrs replica)) ;;
            reject_if ((length (RedisReplicaInstances.SlaveAddrs replica) =? 0)%nat) ;;
            reject_if (someAddrEmpty (RedisReplicaInstances.SlaveAddrs replica)) ;;
            true
        end
      else false
  end.

(** [Load].  What viper reads and decodes, and [loadComplexEnvVars] (which
    depends on the process environment), are taken as given: every
    statement about [Load] below holds whatever they return. *)
Section Load.

Variable viper_ReadInConfig : string -> option error.
Variable viper_Unmarshal : string -> error + Conf.t.
Variable loadComplexEnvVars : Conf.t -> Conf.t * option error.

Definition Load (configFile : string) : error + Conf.t :=
  match (if String.eqb configFile "" then None
         else viper_ReadInConfig configFile) with
  | Some err => inl ("could not read configuration file: " +:+ err)
  | None =>
      match viper_Unmarshal configFile with
      | inl err => inl ("failed to unmarshal configuration: " +:+ err)
      | inr cfg =>
          let '(cfg, err) :=
            if String.eqb configFile "" then loadComplexEnvVars cfg
            else (cfg, None) in
          match err with
          | Some err => inl err
          | None =>
              if negb (Valid cfg) then inl "invalid configuration"
              else inr cfg
          end
      end
  end.

End Load.

(** [%q] of a string, written as the text between double quotes (the
    escapes that Go adds for quotes, backslashes and bytes that do not
    print are left out). *)
Definition quoted (s : string) : string := strconv.dq +:+ s +:+ strconv.dq.

(** The loop of [parseAddresses] on the pieces that are left, [addrs]
    being the addresses collected so far. *)
Fixpoint parseAddressEntries (entries : list string) (addrs : list RedisAddress.t)
    : list RedisAddress.t * option error :=
  match entries with
  | [] => (addrs, None)
  | entry :: rest =>
      let entry := gostrings.TrimSpace entry in
      if String.eqb entry "" then parseAddressEntries rest addrs
      else
        match gostrings.SplitN2 ":" entry with
        | [host; port] =>
            match strconv.Atoi port with
            | inl err =>
                ([], Some ("invalid port in address " +:+ quoted entry +:+ ": " +:+ err))
            | inr port =>
                parseAddressEntries rest
                  (addrs ++ [{| RedisAddress.Addr := host; RedisAddress.Port := port |}])%list
            end
        | _ =>
            ([], Some ("invalid address format " +:+ quoted entry
                       +:+ ", expected host:port"))
        end
  end.

(** [parseAddresses], a Go pair [(addrs, err)]. *)
Definition parseAddresses (s : string) : list RedisAddress.t * option error :=
  parseAddressEntries (gostrings.Split "," s) [].

Fixpoint parseCSVMapEntries (entries : list string) (m : gmap string Z)
    : gmap string Z * option error :=
  match entries with
  | [] => (m, None)
  | entry :: rest =>
      let entry := gostrings.TrimSpace entry in
      if String.eqb entry "" then parseCSVMapEntries rest m
      else
        match gostrings.SplitN2 ":" entry with
        | [key; val] =>
            match strconv.Atoi (gostrings.TrimSpace val) with
            | inl err =>
                (∅, Some ("invalid integer value in " +:+ quoted entry +:+ ": " +:+ err))
            | inr val =>
                parseCSVMapEntries rest (<[gostrings.TrimSpace key := val]> m)
            end
        | _ =>
            (∅, Some ("invalid format " +:+ quoted entry +:+ ", expected key:value"))
        end
  end.

(** [parseCSVMap], a Go pair [(m, err)]. *)
Definition parseCSVMap (s : string) : gmap string Z * option error :=
  parseCSVMapEntries (gostrings.Split "," s) ∅.

Fixpoint parseCSVBoolMapEntries (entries : list string) (m : gmap string bool)
    : gmap string bool :=
  match entries with
  | [] => m
  | entry :: rest =>
      let entry := gostrings.TrimSpace entry in
      if String.eqb entry "" then parseCSVBoolMapEntries rest m
      else parseCSVBoolMapEntries rest (<[entry := true]> m)
  end.

Definition parseCSVBoolMap (s : string) : gmap string bool :=
  parseCSVBoolMapEntries (gostrings.Split "," s) ∅.

(** Assignments to the fields of a [Conf]. *)
Definition setChannelIDs (cfg : Conf.t) (ids : gmap string bool) : Conf.t :=
  {| Conf.AppName := Conf.AppName cfg; Conf.Address := Conf.Address cfg;
     Conf.ApiKey := Conf.ApiKey cfg; Conf.Cache := Conf.Cache cfg;
     Conf.CmsURL := Conf.CmsURL cfg; Conf.Port := Conf.Port cfg;
     Conf.Redis := Conf.Redis cfg;
     Conf.Whitelists :=
       {| Whitelists.ChannelIDs := ids;
          Whitelists.PlaylistIDs := Whitelists.PlaylistIDs (Conf.Whitelists cfg) |} |}.

Definition setPlaylistIDs (cfg : Conf.t) (ids : gmap string bool) : Conf.t :=
  {| Conf.AppName := Conf.AppName cfg; Conf.Address := Conf.Address cfg;
     Conf.ApiKey := Conf.ApiKey cfg; Conf.Cache := Conf.Cache cfg;
     Conf.CmsURL := Conf.CmsURL cfg; Conf.Port := Conf.Port cfg;
     Conf.Redis := Conf.Redis cfg;
     Conf.Whitelists :=
       {| Whitelists.ChannelIDs := Whitelists.ChannelIDs (Conf.Whitelists cfg);
          Whitelists.PlaylistIDs := ids |} |}.

Definition setCache (cfg : Conf.t) (cache : Cache.t) : Conf.t :=
  {| Conf.AppName := Conf.AppName cfg; Conf.Address := Conf.Address cfg;
     Conf.ApiKey := Conf.ApiKey cfg; Conf.Cache := cache;
     Conf.CmsURL := Conf.CmsURL cfg; Conf.Port := Conf.Port cfg;
     Conf.Redis := Conf.Redis cfg; Conf.Whitelists := Conf.Whitelists cfg |}.

Definition setRedis (cfg : Conf.t) (redis : option RedisService.t) : Conf.t :=
  {| Conf.AppName := Conf.AppName cfg; Conf.Address := Conf.Address cfg;
     Conf.ApiKey := Conf.ApiKey cfg; Conf.Cache := Conf.Cache cfg;
     Conf.CmsURL := Conf.CmsURL cfg; Conf.Port := Conf.Port cfg;
     Conf.Redis := redis; Conf.Whitelists := Conf.Whitelists cfg |}.

Definition setDisabledAPIs (cache : Cache.t) (m : gmap string bool) : Cache.t :=
  {| Cache.IsEnabled := Cache.IsEnabled cache; Cache.DisabledAPIs := m;
     Cache.TTL := Cache.TTL cache; Cache.ErrorTTL := Cache.ErrorTTL cache;
     Cache.OverwriteTTL := Cache.OverwriteTTL cache |}.

Definition setOverwriteTTL (cache : Cache.t) (m : gmap string Z) : Cache.t :=
  {| Cache.IsEnabled := Cache.IsEnabled cache;
     Cache.DisabledAPIs := Cache.DisabledAPIs cache;
     Cache.TTL := Cache.TTL cache; Cache.ErrorTTL := Cache.ErrorTTL cache;
     Cache.OverwriteTTL := m |}.

(** [&RedisService{Type: RedisType(redisType)}] *)
Definition redisOfType (redisType : string) : RedisService.t :=
  {| RedisService.Type_ := redisType; RedisService.Cluster := None;
     RedisService.SingleInstance := None; RedisService.Sentinel := None;
     RedisService.Replica := None |}.

(** The [switch] of [loadComplexEnvVars] on the Redis type. *)
Definition redisFromEnv (getenv : string -> string) (redisType : string)
    : RedisService.t * option error :=
  let password := getenv "REDIS_PASSWORD" in
  let redis := redisOfType redisType in
  if String.eqb redisType Single then
    let '(addrs, err) := parseAddresses (getenv "REDIS_ADDRESSES") in
    match err with
    | Some err => (redis, Some ("failed to parse REDIS_ADDRESSES: " +:+ err))
    | None =>
        match addrs with
        | [] => (redis, Some "REDIS_ADDRESSES is required for single redis type")
        | first :: _ =>
            ({| RedisService.Type_ := redisType; RedisService.Cluster := None;
                RedisService.SingleInstance :=
                  Some {| RedisSingleInstance.Instance := first;
                          RedisSingleInstance.Password := password |};
                RedisService.Sentinel := None; RedisService.Replica := None |},
             None)
        end
    end
  else if String.eqb redisType Cluster then
    let '(addrs, err) := parseAddresses (getenv "REDIS_ADDRESSES") in
    match err with
    | Some err => (redis, Some ("failed to parse REDIS_ADDRESSES: " +:+ err))
    | None =>
        ({| RedisService.Type_ := redisType;
            RedisService.Cluster :=
              Some {| RedisCluster.Addrs := addrs; RedisCluster.Password := password |};
            RedisService.SingleInstance := None;
            RedisService.Sentinel := None; RedisService.Replica := None |},
         None)
    end
  else if String.eqb redisType Sentinel then
    let '(addrs, err) := parseAddresses (getenv "REDIS_ADDRESSES") in
    match err with
    | Some err => (redis, Some ("failed to parse REDIS_ADDRESSES: " +:+ err))
    | None =>
        ({| RedisService.Type_ := redisType; RedisService.Cluster := None;
            RedisService.SingleInstance := None;
            RedisService.Sentinel :=
              Some {| RedisSentinel.Addrs := addrs; RedisSentinel.Password := password |};
            RedisService.Replica := None |},
         None)
    end
  else if String.eqb redisType Replica then
    let '(writers, err) := parseAddresses (getenv "REDIS_ADDRESSES") in
    match err with
    | Some err => (redis, Some ("failed to parse REDIS_ADDRESSES: " +:+ err))
    | None =>
        let '(readers, err) := parseAddresses (getenv "REDIS_READER_ADDRESSES") in
        match err with
        | Some err =>
            (redis, Some ("failed to parse REDIS_READER_ADDRESSES: " +:+ err))
        | None =>
            ({| RedisService.Type_ := redisType; RedisService.Cluster := None;
                RedisService.SingleInstance := None; RedisService.Sentinel := None;
                RedisService.Replica :=
                  Some {| RedisReplicaInstances.MasterAddrs := writers;
                          RedisReplicaInstances.SlaveAddrs := readers;
                          RedisReplicaInstances.Password := password |} |},
             None)
        end
    end
  else (redis, None).

(** [loadComplexEnvVars]: [getenv] is [os.Getenv]; the result is the
    configuration as the function leaves it and the error it returns. *)
Definition loadComplexEnvVars (getenv : string -> string) (cfg : Conf.t)
    : Conf.t * option error :=
  (* Whitelists *)
  let cfg :=
    let s := getenv "WHITELIST_CHANNEL_IDS" in
    if String.eqb s "" then cfg else setChannelIDs cfg (parseCSVBoolMap s) in
  (* Cache extras *)
  let cfg :=
    let s := getenv "CACHE_DISABLED_APIS" in
    if String.eqb s "" then cfg
    else setCache cfg (setDisabledAPIs (Conf.Cache cfg) (parseCSVBoolMap s)) in
  let s := getenv "CACHE_OVERWRITE_TTL" in
  let '(cfg, err) :=
    if String.eqb s "" then (cfg, None)
    else
      let '(m, err) := parseCSVMap s in
      match err with
      | Some err => (cfg, Some ("failed to parse CACHE_OVERWRITE_TTL: " +:+ err))
      | None => (setCache cfg (setOverwriteTTL (Conf.Cache cfg) m), None)
      end in
  match err with
  | Some err => (cfg, Some err)
  | None =>
      (* Redis *)
      let redisType := getenv "REDIS_TYPE" in
      if String.eqb redisType "" then (cfg, None)
      else
        let '(redis, err) := redisFromEnv getenv redisType in
        (setRedis cfg (Some redis), err)
  end.

End config.

(* ------------------------------------------------------------------ *)
(** ** Package [whitelist] *)

Module whitelist.
Import time.

Definition refreshCooldown : Duration := time.mul 1 Minute.

(** [YouTubeAPI].  The [sync.RWMutex] has no field here: it is accounted
    for by running each critical section of the source as one atomic
    step (see [Step] and [run] below). *)
Record YouTubeAPI := mkYouTubeAPI {
  Whitelist : config.Whitelists.t;
  CmsURL    : string;
  lastFetch : Time
}.

(** [effective, present := m[k]] followed by [present && effective]. *)
Definition presentAndEffective (m : gmap string bool) (k : string) : bool :=
  match m !! k with
  | Some effective => effective
  | None => false
  end.

Definition ValidateChannelID (api : YouTubeAPI) (channelID : string) : bool :=
  presentAndEffective (config.Whitelists.ChannelIDs (Whitelist api)) channelID.

(** What one execution of [refreshAndValidatePlaylist] can observe of the
    outside world: the clock read by [time.Since], the outcome of
    [cms.FetchPlaylistIDs], and the clock read by the [time.Now()] that
    follows the fetch. *)
Record Env := mkEnv {
  tSince : Time;
  fetch  : error + gmap string bool;
  tNow   : Time
}.

(** A call that leaves the process: [cms.FetchPlaylistIDs(url)], issued
    after the clock read [started] and back before it read [finished]. *)
Inductive Event :=
| FetchPlaylistIDs (url : string) (started finished : Time).

(** [api.Whitelist.PlaylistIDs = ids] *)
Definition setPlaylistIDs (api : YouTubeAPI) (ids : gmap string bool) : YouTubeAPI :=
  {| Whitelist :=
       {| config.Whitelists.ChannelIDs := config.Whitelists.ChannelIDs (Whitelist api);
          config.Whitelists.PlaylistIDs := ids |};
     CmsURL := CmsURL api;
     lastFetch := lastFetch api |}.

(** [api.lastFetch = t] *)
Definition setLastFetch (api : YouTubeAPI) (t : Time) : YouTubeAPI :=
  {| Whitelist := Whitelist api; CmsURL := CmsURL api; lastFetch := t |}.

(** [refreshAndValidatePlaylist], the body between [Lock] and [Unlock].
    The result is the returned boolean, the receiver after the call and
    the external calls made. *)
Definition refreshAndValidatePlaylist (env : Env) (api : YouTubeAPI)
    (playlistID : string) : bool * YouTubeAPI * list Event :=
  if presentAndEffective (config.Whitelists.PlaylistIDs (Whitelist api)) playlistID then
    (true, api, [])
  else if Since (tSince env) (lastFetch api) <? refreshCooldown then
    (false, api, [])
  else
    let call := FetchPlaylistIDs (CmsURL api) (tSince env) (tNow env) in
    match fetch env with
    | inl err =>
        (false, setLastFetch api (tNow env), [call])
    | inr newIDs =>
        let api := setPlaylistIDs api newIDs in
        let api := setLastFetch api (tNow env) in
        (presentAndEffective (config.Whitelists.PlaylistIDs (Whitelist api)) playlistID,
         api, [call])
    end.

(** [ValidatePlaylistIDs] when no other goroutine runs between its read
    under the shared lock and the escalation. *)
Definition ValidatePlaylistIDs (env : Env) (api : YouTubeAPI)
    (playlistID : string) : bool * YouTubeAPI * list Event :=
  if presentAndEffective (config.Whitelists.PlaylistIDs (Whitelist api)) playlistID then
    (true, api, [])
  else
    refreshAndValidatePlaylist env api playlistID.

(** The two critical sections of the package, as the atomic steps of any
    number of goroutines: the read of [ValidatePlaylistIDs] under
    [RLock], and [refreshAndValidatePlaylist] under [Lock]. *)
Inductive Step :=
| ReadLocked (playlistID : string)
| WriteLocked (env : Env) (playlistID : string).

(** A schedule is the order in which the lock admitted the steps. *)
Fixpoint run (api : YouTubeAPI) (schedule : list Step) : YouTubeAPI * list Event :=
  match schedule with
  | [] => (api, [])
  | ReadLocked _ :: rest => run api rest
  | WriteLocked env playlistID :: rest =>
      let '(_, api, calls) := refreshAndValidatePlaylist env api playlistID in
      let '(api, later) := run api rest in
      (api, (calls ++ later)%list)
  end.

(** The clock never runs backwards along a schedule that starts when it
    reads [t]. *)
Fixpoint clockMonotone (t : Time) (schedule : list Step) : Prop :=
  match schedule with
  | [] => True
  | ReadLocked _ :: rest => clockMonotone t rest
  | WriteLocked env _ :: rest =>
      t <= tSince env /\ tSince env <= tNow env /\ clockMonotone (tNow env) rest
  end.

(** The clock reading before the call, and the address called. *)
Definition startedAt (e : Event) : Time :=
  match e with FetchPlaylistIDs _ started _ => started end.

Definition calledURL (e : Event) : string :=
  match e with FetchPlaylistIDs url _ _ => url end.

(** The call occupies some instant of the window [[a, b]]. *)
Definition within (a b : Time) (e : Event) : bool :=
  match e with
  | FetchPlaylistIDs _ started finished => (started <=? b) && (a <=? finished)
  end.

(** Successive fetches: each starts at least one cooldown after the
    instant [l], and after the fetch before it came back. *)
Fixpoint spaced (l : Time) (calls : list Event) : Prop :=
  match calls with
  | [] => True
  | FetchPlaylistIDs _ started finished :: rest =>
      l + refreshCooldown <= started /\ started <= finished /\ spaced finished rest
  end.

End whitelist.

(* ------------------------------------------------------------------ *)
(** ** Package [net/http] (the part the sources use) *)

Module http.

Definition StatusOK : Z := 200.
Definition StatusBadRequest : Z := 400.
Definition StatusInternalServerError : Z := 500.

Module URL.
Record t := mk {
  Path       : string;
  ForceQuery : bool;
  RawQuery   : string
}.

(** [(u *URL) String()] for the URL of a served request, which has no
    scheme, host or fragment: the path, then [?] and the query when the
    query is not empty or the request line ended in a bare [?].  The
    routed paths are plain ASCII and need no escaping. *)
Definition String_ (u : t) : string :=
  if ForceQuery u || negb (String.eqb (RawQuery u) "")
  then Path u +:+ "?" +:+ RawQuery u
  else Path u.
End URL.

Definition isLower (a : ascii) : bool :=
  ((97 <=? nat_of_ascii a) && (nat_of_ascii a <=? 122))%nat.
Definition isUpper (a : ascii) : bool :=
  ((65 <=? nat_of_ascii a) && (nat_of_ascii a <=? 90))%nat.
Definition isDigit (a : ascii) : bool :=
  ((48 <=? nat_of_ascii a) && (nat_of_ascii a <=? 57))%nat.

(** The bytes allowed in a header field name. *)
Definition validHeaderFieldByte (a : ascii) : bool :=
  isLower a || isUpper a || isDigit a
  || existsb (Ascii.eqb a) (list_ascii_of_string "!#$%&'*+-.^_`|~").

Fixpoint allValid (s : string) : bool :=
  match s with
  | EmptyString => true
  | String a rest => validHeaderFieldByte a && allValid rest
  end.

Fixpoint canonical (upper : bool) (s : string) : string :=
  match s with
  | EmptyString => EmptyString
  | String a rest =>
      let c :=
        if upper && isLower a then ascii_of_nat (nat_of_ascii a - 32)
        else if negb upper && isUpper a then ascii_of_nat (nat_of_ascii a + 32)
        else a in
      String c (canonical (Ascii.eqb c "-") rest)
  end.

(** [http.CanonicalHeaderKey]: the first letter and every letter after a
    hyphen in upper case, the others in lower case; a key with a byte that
    a field name cannot hold is returned as it is. *)
Definition CanonicalHeaderKey (s : string) : string :=
  if allValid s then canonical true s else s.

Module Request.
Record t := mk {
  URL        : URL.t;
  RequestURI : string;
  Header     : gmap string (list string)
}.
End Request.

End http.

(* ------------------------------------------------------------------ *)
(** ** Package [cms] *)

Module cms.

(** One byte of the class [[A-Za-z0-9_-]]. *)
Definition idByte (a : ascii) : bool :=
  let n := nat_of_ascii a in
  ((65 <=? n) && (n <=? 90) || (97 <=? n) && (n <=? 122)
   || (48 <=? n) && (n <=? 57) || (n =? 95) || (n =? 45))%nat.

(** The longest run of bytes of the class that [s] starts with. *)
Fixpoint takeID (s : string) : string :=
  match s with
  | String a rest => if idByte a then String a (takeID rest) else EmptyString
  | EmptyString => EmptyString
  end.

(** [[?&]]. *)
Definition isMark (a : ascii) : bool :=
  Ascii.eqb a "?" || Ascii.eqb a "&".

(** [playlistIDRegex.FindStringSubmatch(s)] for the expression
    [[?&]list=([A-Za-z0-9_-]+)]: the capture of the leftmost match, the
    repetition being greedy; [None] when nothing matches. *)
Fixpoint findPlaylistID (s : string) : option string :=
  match s with
  | EmptyString => None
  | String a rest =>
      if isMark a && String.prefix "list=" rest then
        match takeID (String.substring 5 (String.length rest - 5) rest) with
        | EmptyString => findPlaylistID rest
        | id => Some id
        end
      else findPlaylistID rest
  end.

(** [extractPlaylistID]; a nil pointer is [None]. *)
Definition extractPlaylistID (field : option string) : string :=
  match field with
  | None => ""
  | Some field =>
      let s := gostrings.TrimSpace field in
      if String.eqb s "" then ""
      else
        match findPlaylistID s with
        | None => ""
        | Some id => id
        end
  end.

Record showFields := mkShowFields {
  PlayList01      : option string;
  PlayList02      : option string;
  TrailerPlaylist : option string
}.

(** [showsResponse]: the shows of [data] and the messages of [errors]. *)
Record showsResponse := mkShowsResponse {
  Shows  : list showFields;
  Errors : list string
}.

(** What the network gives to one call of [FetchPlaylistIDs]: the outcome
    of [http.Post] and, for a response, its status code and what the
    JSON decoder makes of its body. *)
Record Response := mkResponse {
  StatusCode : Z;
  Decoded    : error + showsResponse
}.

(** [[]*string{show.PlayList01, show.PlayList02, show.TrailerPlaylist}] *)
Definition fields (show : showFields) : list (option string) :=
  [PlayList01 show; PlayList02 show; TrailerPlaylist show].

(** The body of the inner loop. *)
Definition addField (playlistIDs : gmap string bool) (field : option string)
    : gmap string bool :=
  let id := extractPlaylistID field in
  if String.eqb id "" then playlistIDs else <[id := true]> playlistIDs.

(** The inner loop: the three fields of one show. *)
Definition addShow (playlistIDs : gmap string bool) (show : showFields)
    : gmap string bool :=
  fold_left addField (fields show) playlistIDs.

(** The outer loop. *)
Definition collect (shows : list showFields) : gmap string bool :=
  fold_left addShow shows ∅.

(** [FetchPlaylistIDs].  [reqBody] is the outcome of marshalling the
    GraphQL request, [post] the outcome of [http.Post]. *)
Definition FetchPlaylistIDs (reqBody : error + string) (post : error + Response)
    : error + gmap string bool :=
  match reqBody with
  | inl err => inl ("failed to marshal GraphQL request: " +:+ err)
  | inr _ =>
      match post with
      | inl err => inl ("failed to fetch shows from CMS: " +:+ err)
      | inr resp =>
          if negb (StatusCode resp =? http.StatusOK) then
            inl ("CMS returned status " +:+ pretty (StatusCode resp))
          else
            match Decoded resp with
            | inl err => inl ("failed to decode CMS response: " +:+ err)
            | inr result =>
                match Errors result with
                | message :: _ => inl ("CMS GraphQL error: " +:+ message)
                | [] => inr (collect (Shows result))
                end
            end
      end
  end.

End cms.

(* ------------------------------------------------------------------ *)
(** ** Values handed to the JSON encoder *)

(** The values that the handlers pass as [resp interface{}]: an
    [api.ErrorResp{Error: ...}], or whatever the relay service returned,
    which the relay leaves opaque and which is named here by its payload. *)
Inductive Resp :=
| ErrorResp (Error : string)
| Relayed (payload : string).

(** [ytrelay.Options], the fields the handlers read. *)
Module ytrelay.
Record Options := mkOptions {
  Part       : string;
  ChannelID  : string;
  PlaylistID : string;
  IDs        : string
}.
End ytrelay.

(* ------------------------------------------------------------------ *)
(** ** Package [log] (logrus) *)

Module log.

Inductive Level := ErrorLevel | InfoLevel.

Record Entry := mkEntry {
  level   : Level;
  message : string
}.

End log.

(* ------------------------------------------------------------------ *)
(** ** Package [cache]: the interface the sources program against *)

Module cache.

(** [cache.HTTP], the value stored under a key. *)
Record HTTP := mkHTTP {
  StatusCode : Z;
  Response   : string
}.

(** The error with which a Redis client reports an absent key. *)
Definition redis_Nil : error := "redis: nil".

(** [cache.Rediser], the two commands the sources issue.  [Get] is
    [Get(ctx, key).Result()], [SetNX] is [SetNX(ctx, key, value, ttl).Err()]
    together with the store that results. *)
Class Rediser (R : Type) := {
  Get   : R -> string -> error + string;
  SetNX : R -> string -> string -> time.Duration -> R * option error
}.

(** [cache.GetCacheKey(namespace, uri)], a Go pair [(key, err)]. *)
Definition KeyDeriver := string -> string -> string * option error.

End cache.

(* ------------------------------------------------------------------ *)
(** ** Package [encoding/json], at the types the sources use *)

Module json.

Class Codec := {
  Marshal       : Resp -> error + string;
  MarshalHTTP   : cache.HTTP -> error + string;
  UnmarshalHTTP : string -> error + cache.HTTP
}.

End json.

(* ------------------------------------------------------------------ *)
(** ** Package [gin]: what a handler does to the context *)

Module gin.

(** The object given to the JSON renderer: a value, or [json.RawMessage]. *)
Inductive Body :=
| JSON (obj : Resp)
| RawMessage (raw : string).

Record Response := mkResponse {
  Status  : Z;
  Payload : Body
}.

(** How a middleware leaves: [c.Next()] runs the handlers that follow,
    [c.AbortWithStatusJSON] answers and prevents them from running. *)
Inductive Flow :=
| Next
| AbortWithStatusJSON (r : Response).

End gin.

(* ------------------------------------------------------------------ *)
(** ** The state that a request can change: the store and the log *)

Record World (R : Type) := mkWorld {
  redis : R;
  logs  : list log.Entry
}.
Arguments mkWorld {R} _ _.
Arguments redis {R} _.
Arguments logs {R} _.

Definition M (R A : Type) : Type := World R -> A * World R.

Definition ret {R A} (a : A) : M R A := fun w => (a, w).

Definition bind {R A B} (m : M R A) (k : A -> M R B) : M R B :=
  fun w => let '(a, w) := m w in k a w.

Notation "'let*' x ':=' m 'in' k" := (bind m (fun x => k))
  (at level 10, x name, m at level 100, k at level 200).
Notation "'do' m 'then' k" := (bind m (fun _ => k))
  (at level 10, m at level 100, k at level 200).

(** The world after one more log line. *)
Definition logged {R} (w : World R) (l : log.Level) (msg : string) : World R :=
  {| redis := redis w; logs := (logs w ++ [log.mkEntry l msg])%list |}.

Definition emit {R} (l : log.Level) (msg : string) : M R unit :=
  fun w => (tt, logged w l msg).

Definition log_Error {R} (msg : string) : M R unit := emit log.ErrorLevel msg.
Definition log_Info {R} (msg : string) : M R unit := emit log.InfoLevel msg.

Definition redis_Get {R} `{!cache.Rediser R} (key : string) : M R (error + string) :=
  fun w => (cache.Get (redis w) key, w).

Definition redis_SetNX {R} `{!cache.Rediser R} (key value : string)
    (ttl : time.Duration) : M R (option error) :=
  fun w =>
    let '(r, err) := cache.SetNX (redis w) key value ttl in
    (err, {| redis := r; logs := logs w |}).

(** The computation returns [a] in every world. *)
Definition answers {R A} (m : M R A) (a : A) : Prop :=
  forall w, fst (m w) = a.

(** The computation leaves the store as it finds it. *)
Definition readsOnly {R A} (m : M R A) : Prop :=
  forall w, redis (snd (m w)) = redis w.

(** The computation has nothing to do with the store: in every world it
    returns [a] and adds the lines [lines] to the log, and that is all. *)
Definition logsOnly {R A} (m : M R A) (a : A) (lines : list log.Entry) : Prop :=
  forall w, m w = (a, {| redis := redis w; logs := (logs w ++ lines)%list |}).

(** A Go [map[string]bool] read at a key: [false] when the key is absent. *)
Definition lookupBool (m : gmap string bool) (k : string) : bool :=
  default false (m !! k).

(* ------------------------------------------------------------------ *)
(** ** Package [youtube] (the part the sources read) and panics *)

Module youtube.

(** [Video]: of [item.Snippet] the code reads [ChannelId]; [None] is a
    nil [Snippet], which the API leaves out unless the part [snippet] is
    asked for. *)
Record Video := mkVideo {
  Snippet_ChannelId : option string
}.

(** [VideoListResponse]: the items, and the rest named by its payload. *)
Record VideoListResponse := mkVideoListResponse {
  Items   : list Video;
  payload : string
}.

End youtube.

(** A call returns, or panics (here: on a nil pointer). *)
Inductive Outcome (A : Type) :=
| Returned (a : A)
| Panicked.
Arguments Returned {A} _.
Arguments Panicked {A}.

(* ------------------------------------------------------------------ *)
(** ** Package [middleware] *)

Module middleware.
Section Cache.

Context {R : Type} `{!cache.Rediser R} `{!json.Codec}.
Variable GetCacheKey : cache.KeyDeriver.

(** The handler that [Cache(namespace, cacheConf, cacheProvider)] returns,
    run on a request; [cacheProvider] is the store of the world. *)
Definition Cache (namespace : string) (cacheConf : config.Cache.t)
    (request : http.Request.t) : M R gin.Flow :=
  let url := http.Request.URL request in
  (* check blacklist *)
  if lookupBool (config.Cache.DisabledAPIs cacheConf) (http.URL.Path url) then
    do log_Info ("cache is disabled for " +:+ http.URL.Path url) then
    ret gin.Next
  else
    (* read cache *)
    let uri := http.URL.String_ (http.Request.URL request) in
    let '(key, err) := GetCacheKey namespace uri in
    match err with
    | Some err =>
        let err := errors_Wrap err "Fail to create cache key in cache middleware" in
        do log_Error err then
        ret (gin.AbortWithStatusJSON
               {| gin.Status := http.StatusInternalServerError;
                  gin.Payload := gin.JSON (ErrorResp err) |})
    | None =>
        let* got := redis_Get key in
        match got with
        | inl err =>
            let err := errors_Wrap err
              ("Fail to get cache value for " +:+ key +:+ " in cache middleware") in
            do log_Info err then
            ret gin.Next
        | inr result =>
            match json.UnmarshalHTTP result with
            | inl err =>
                let err := errors_Wrap err "Fail to unmarshal cache in cache middleware" in
                do log_Error err then
                ret gin.Next
            | inr cacheResp =>
                do log_Info ("respond with cache for " +:+ uri) then
                ret (gin.AbortWithStatusJSON
                       {| gin.Status := cache.StatusCode cacheResp;
                          gin.Payload := gin.RawMessage (cache.Response cacheResp) |})
            end
        end
    end.

End Cache.
End middleware.

(* ------------------------------------------------------------------ *)
(** ** Package [route] *)

Module route.
Section Route.

Context {R : Type} `{!cache.Rediser R} `{!json.Codec}.
Variable GetCacheKey : cache.KeyDeriver.

Definition ErrorEmptyPart : string := "part cannot be empty".
Definition ErrorEmptyID : string := "id cannot be empty".

Definition TTLHeader : string := "Cache-Set-TTL".

(** [getHeaderTTL]; the named results start at their zero values. *)
Definition getHeaderTTL (request : http.Request.t)
    : M R (time.Duration * bool * option error) :=
  match http.Request.Header request !! http.CanonicalHeaderKey TTLHeader with
  | None => ret (0, false, None)
  | Some values =>
      match values with
      | [] =>
          ret (0, true,
               Some ("header(" +:+ TTLHeader +:+ ") has empty value"))
      | headerTTL :: _ =>
          match strconv.Atoi headerTTL with
          | inl err =>
              ret (0, true,
                   Some (errors_Wrap err
                     ("converting " +:+ headerTTL +:+ "(" +:+ TTLHeader
                      +:+ ") to int encountered error")))
          | inr intTTL =>
              if intTTL <=? 0 then
                ret (0, true,
                     Some ("the value(" +:+ pretty intTTL +:+ ") of "
                           +:+ TTLHeader +:+ " is not positive"))
              else
                do log_Info ("client requests to set cache ttl to "
                             +:+ pretty intTTL +:+ " via " +:+ TTLHeader) then
                ret (time.mul intTTL time.Second, true, None)
          end
      end
  end.

Definition getResponseCacheTTL (cacheConf : config.Cache.t)
    (request : http.Request.t) : M R (time.Duration * bool) :=
  let ttl :=
    match config.Cache.OverwriteTTL cacheConf !! http.Request.RequestURI request with
    | Some seconds => time.mul seconds time.Second
    | None => time.mul (config.Cache.TTL cacheConf) time.Second
    end in
  let* header := getHeaderTTL request in
  let '(headerTTL, isPresenting, err) := header in
  let* ttl :=
    match err with
    | Some err => do log_Error err then ret ttl
    | None => if isPresenting then ret headerTTL else ret ttl
    end in
  ret (ttl, lookupBool (config.Cache.DisabledAPIs cacheConf)
                       (http.Request.RequestURI request)).

(** [saveCache].  When [GetCacheKey] fails the error is logged and the
    function goes on with the key it was given.  The last log line prints
    [int(ttl.Seconds())], the whole seconds of [ttl]. *)
Definition saveCache (cacheConf : config.Cache.t) (appName : string)
    (request : http.Request.t) (respCode : Z) (resp : Resp)
    (ttl : time.Duration) : M R unit :=
  let uri := http.URL.String_ (http.Request.URL request) in
  match json.Marshal resp with
  | inl err =>
      log_Error ("Cannot marshal resp for " +:+ uri +:+ ": " +:+ err)
  | inr s =>
      match json.MarshalHTTP {| cache.StatusCode := respCode; cache.Response := s |} with
      | inl err =>
          log_Error ("Cannot marshal http resp cache for " +:+ uri +:+ ": " +:+ err)
      | inr s =>
          let '(key, err) := GetCacheKey appName uri in
          do (match err with
              | Some err =>
                  log_Error ("GetCacheKey for " +:+ uri +:+ " encounter error:" +:+ err)
              | None => ret tt
              end) then
          let* err := redis_SetNX key s ttl in
          match err with
          | Some err =>
              log_Error ("setting cache encountered error for " +:+ uri
                         +:+ ": " +:+ err +:+ " ")
          | None =>
              log_Info ("cache for " +:+ uri +:+ " is set for ttl("
                        +:+ pretty (Z.quot ttl time.Second) +:+ ")")
          end
      end
  end.

Definition saveOKCache (isEnabled : bool) (cacheConf : config.Cache.t)
    (appName : string) (request : http.Request.t) (resp : Resp) : M R unit :=
  if config.Cache.IsEnabled cacheConf then
    let* r := getResponseCacheTTL cacheConf request in
    let '(ttl, isCacheDisabledForAPI) := r in
    if negb isCacheDisabledForAPI then
      saveCache cacheConf appName request http.StatusOK resp ttl
    else
      log_Info ("cache is disabled for "
                +:+ http.URL.String_ (http.Request.URL request))
  else ret tt.

Definition saveErrCache (isEnabled : bool) (cacheConf : config.Cache.t)
    (appName : string) (request : http.Request.t) (httpResponseCode : Z)
    (resp : Resp) : M R unit :=
  if config.Cache.IsEnabled cacheConf then
    let* r := getResponseCacheTTL cacheConf request in
    let '(_, isCacheDisabledForAPI) := r in
    if negb isCacheDisabledForAPI then
      let ttl := time.mul (config.Cache.ErrorTTL cacheConf) time.Second in
      saveCache cacheConf appName request http.StatusOK resp ttl
    else
      log_Info ("cache is disabled for "
                +:+ http.URL.String_ (http.Request.URL request))
  else ret tt.

(** What the [/search] handler obtains from its collaborators:
    [parseQueries(c)], a Go pair, and [relayService.Search(queries)]. *)
Variable parseQueries : http.Request.t -> ytrelay.Options * option error.
Variable relayService_Search : ytrelay.Options -> error + string.

(** The handler registered by [ytRouter.GET("/search", ...)]. *)
Definition search (appName : string) (whitelist : whitelist.YouTubeAPI)
    (cacheConf : config.Cache.t) (request : http.Request.t) : M R gin.Response :=
  let isEnabled := config.Cache.IsEnabled cacheConf in
  let '(queries, err) := parseQueries request in
  match err with
  | Some err =>
      do log_Error err then
      let resp := ErrorResp err in
      do saveErrCache isEnabled cacheConf appName request http.StatusBadRequest resp then
      ret {| gin.Status := http.StatusBadRequest; gin.Payload := gin.JSON resp |}
  | None =>
      (* Check the mandatory parameters *)
      if String.eqb (ytrelay.Part queries) "" then
        do log_Error ErrorEmptyPart then
        let resp := ErrorResp ErrorEmptyPart in
        do saveErrCache isEnabled cacheConf appName request http.StatusBadRequest resp then
        ret {| gin.Status := http.StatusBadRequest; gin.Payload := gin.JSON resp |}
      (* Check whitelist *)
      else if negb (whitelist.ValidateChannelID whitelist (ytrelay.ChannelID queries)) then
        let err := "channelId(" +:+ ytrelay.ChannelID queries +:+ ") is invalid" in
        do log_Error err then
        let resp := ErrorResp err in
        do saveErrCache isEnabled cacheConf appName request http.StatusBadRequest resp then
        ret {| gin.Status := http.StatusBadRequest; gin.Payload := gin.JSON resp |}
      else
        match relayService_Search queries with
        | inl err =>
            do log_Error err then
            let resp := ErrorResp err in
            do saveErrCache isEnabled cacheConf appName request
                 http.StatusInternalServerError resp then
            ret {| gin.Status := http.StatusInternalServerError;
                   gin.Payload := gin.JSON (ErrorResp err) |}
        | inr payload =>
            let resp := Relayed payload in
            do saveOKCache isEnabled cacheConf appName request resp then
            ret {| gin.Status := http.StatusOK; gin.Payload := gin.JSON resp |}
        end
  end.

(** A request routed to [/youtube/v3/search] by [Set]: the group runs the
    cache middleware first when the cache is enabled, and the handler
    unless the middleware aborted. *)
Definition ytRouter_search (appName : string) (whitelist : whitelist.YouTubeAPI)
    (cacheConf : config.Cache.t) (request : http.Request.t) : M R gin.Response :=
  if config.Cache.IsEnabled cacheConf then
    let* flow := middleware.Cache GetCacheKey appName cacheConf request in
    match flow with
    | gin.AbortWithStatusJSON r => ret r
    | gin.Next => search appName whitelist cacheConf request
    end
  else
    search appName whitelist cacheConf request.

(** [validateYouTubeVideoListResponse]: the first item whose channel the
    allow-list rejects gives the error; reading the channel of an item
    without a snippet panics. *)
Fixpoint validateYouTubeVideoListResponse (whitelist : whitelist.YouTubeAPI)
    (items : list youtube.Video) : Outcome (option error) :=
  match items with
  | [] => Returned None
  | item :: rest =>
      match youtube.Snippet_ChannelId item with
      | None => Panicked
      | Some channelId =>
          if negb (whitelist.ValidateChannelID whitelist channelId) then
            Returned (Some ("channelId(" +:+ channelId +:+ ") is invalid"))
          else validateYouTubeVideoListResponse whitelist rest
      end
  end.

(** What the [/videos] handler obtains from the relay service, and
    whether the service is a [*relay.YouTubeServiceV3]. *)
Variable relayService_ListByVideoIDs :
  ytrelay.Options -> error + youtube.VideoListResponse.
Variable isYouTube : bool.

(** The handler registered by [ytRouter.GET("/videos", ...)]. *)
Definition videos (appName : string) (whitelist : whitelist.YouTubeAPI)
    (cacheConf : config.Cache.t) (request : http.Request.t)
    : M R (Outcome gin.Response) :=
  let isEnabled := config.Cache.IsEnabled cacheConf in
  let '(queries, err) := parseQueries request in
  match err with
  | Some err =>
      do log_Error err then
      ret (Returned {| gin.Status := http.StatusBadRequest;
                       gin.Payload := gin.JSON (ErrorResp err) |})
  | None =>
      (* Check the mandatory parameters *)
      if String.eqb (ytrelay.Part queries) "" then
        do log_Error ErrorEmptyPart then
        let resp := ErrorResp ErrorEmptyPart in
        do saveErrCache isEnabled cacheConf appName request http.StatusBadRequest resp then
        ret (Returned {| gin.Status := http.StatusBadRequest;
                         gin.Payload := gin.JSON resp |})
      else if String.eqb (ytrelay.IDs queries) "" then
        do log_Error ErrorEmptyID then
        let resp := ErrorResp ErrorEmptyID in
        do saveErrCache isEnabled cacheConf appName request http.StatusBadRequest resp then
        ret (Returned {| gin.Status := http.StatusBadRequest;
                         gin.Payload := gin.JSON resp |})
      else
        match relayService_ListByVideoIDs queries with
        | inl err =>
            do log_Error err then
            let resp := ErrorResp err in
            do saveErrCache isEnabled cacheConf appName request
                 http.StatusInternalServerError resp then
            ret (Returned {| gin.Status := http.StatusInternalServerError;
                             gin.Payload := gin.JSON resp |})
        | inr listed =>
            (* verify channel id for YouTube *)
            let checked :=
              if isYouTube
              then validateYouTubeVideoListResponse whitelist (youtube.Items listed)
              else Returned None in
            match checked with
            | Panicked => ret Panicked
            | Returned (Some err) =>
                let err := errors_Wrap err "some video's channel id is invalid" in
                do log_Error err then
                let resp := ErrorResp err in
                do saveErrCache isEnabled cacheConf appName request
                     http.StatusBadRequest resp then
                ret (Returned {| gin.Status := http.StatusBadRequest;
                                 gin.Payload := gin.JSON resp |})
            | Returned None =>
                let resp := Relayed (youtube.payload listed) in
                do saveOKCache isEnabled cacheConf appName request resp then
                ret (Returned {| gin.Status := http.StatusOK;
                                 gin.Payload := gin.JSON resp |})
            end
        end
  end.

Variable relayService_ListPlaylistVideos : ytrelay.Options -> error + string.

(** The handler registered by [ytRouter.GET("/playlistItems", ...)].  The
    allow-list is shared and [ValidatePlaylistIDs] may refresh it: the
    handler is given what that call can observe ([env]) and returns, with
    the answer, the allow-list it leaves and the external calls made. *)
Definition playlistItems (appName : string) (env : whitelist.Env)
    (whitelist : whitelist.YouTubeAPI) (cacheConf : config.Cache.t)
    (request : http.Request.t)
    : M R (gin.Response * whitelist.YouTubeAPI * list whitelist.Event) :=
  let isEnabled := config.Cache.IsEnabled cacheConf in
  let '(queries, err) := parseQueries request in
  match err with
  | Some err =>
      do log_Error err then
      let resp := ErrorResp err in
      do saveErrCache isEnabled cacheConf appName request http.StatusBadRequest resp then
      ret ({| gin.Status := http.StatusBadRequest; gin.Payload := gin.JSON resp |},
           whitelist, [])
  | None =>
      (* Check the mandatory parameters *)
      if String.eqb (ytrelay.Part queries) "" then
        do log_Error ErrorEmptyPart then
        let resp := ErrorResp ErrorEmptyPart in
        do saveErrCache isEnabled cacheConf appName request http.StatusBadRequest resp then
        ret ({| gin.Status := http.StatusBadRequest; gin.Payload := gin.JSON resp |},
             whitelist, [])
      else
        (* Check whitelist *)
        let '(valid, whitelist, calls) :=
          whitelist.ValidatePlaylistIDs env whitelist (ytrelay.PlaylistID queries) in
        if negb valid then
          let err := "playlistId(" +:+ ytrelay.PlaylistID queries +:+ ") is invalid" in
          do log_Error err then
          let resp := ErrorResp err in
          do saveErrCache isEnabled cacheConf appName request http.StatusBadRequest resp then
          ret ({| gin.Status := http.StatusBadRequest; gin.Payload := gin.JSON resp |},
               whitelist, calls)
        else
          match relayService_ListPlaylistVideos queries with
          | inl err =>
              do log_Error err then
              let resp := ErrorResp err in
              do saveErrCache isEnabled cacheConf appName request
                   http.StatusInternalServerError resp then
              ret ({| gin.Status := http.StatusInternalServerError;
                      gin.Payload := gin.JSON resp |}, whitelist, calls)
          | inr payload =>
              let resp := Relayed payload in
              do saveOKCache isEnabled cacheConf appName request resp then
              ret ({| gin.Status := http.StatusOK; gin.Payload := gin.JSON resp |},
                   whitelist, calls)
          end
  end.

End Route.
End route.


(* ------------------------------------------------------------------ *)
(** ** Package [cli]: the end of [Start] *)

Module cli.

(** [cli.Conf], the fields that [Start] reads and writes. *)
Record Conf := mkConf {
  ConfigFile : string;
  Address    : string;
  Port       : Z;
  CFG        : option config.Conf.t
}.

(** [Start] from the call of [config.Load] on, once the command has been
    found: [load] is [config.Load], [cmdMain] is [cmd.Main], which for the
    [serve] command builds the server and runs it. *)
Definition Start (load : string -> error + config.Conf.t)
    (cmdMain : list string -> Conf -> option error)
    (args : list string) (c : Conf) : option error :=
  match load (ConfigFile c) with
  | inl err => Some "failed to load config"
  | inr cfg =>
      let cfg :=
        {| config.Conf.AppName := config.Conf.AppName cfg;
           config.Conf.Address := Address c;
           config.Conf.ApiKey := config.Conf.ApiKey cfg;
           config.Conf.Cache := config.Conf.Cache cfg;
           config.Conf.CmsURL := config.Conf.CmsURL cfg;
           config.Conf.Port := Port c;
           config.Conf.Redis := config.Conf.Redis cfg;
           config.Conf.Whitelists := config.Conf.Whitelists cfg |} in
      let c :=
        {| ConfigFile := ConfigFile c; Address := Address c; Port := Port c;
           CFG := Some cfg |} in
      match cmdMain args c with
      | Some err => Some err
      | None => None
      end
  end.

End cli.

(* ------------------------------------------------------------------ *)
(** ** Package [server] *)

Module server.

(** [Server], without the gin engine. *)
Record Server (R : Type) := mkServer {
  APIWhitelist : whitelist.YouTubeAPI;
  Cache        : option R;
  conf         : config.Conf.t
}.
Arguments mkServer {R} _ _ _.
Arguments APIWhitelist {R} _.
Arguments Cache {R} _.
Arguments conf {R} _.

(** [New]; [cache_NewRedis] is [cache.NewRedis], which is not among the
    sources. *)
Definition New {R : Type} (cache_NewRedis : config.Conf.t -> error + R)
    (c : config.Conf.t) : error + Server R :=
  let redis : error + option R :=
    match config.Conf.Redis c with
    | Some _ =>
        match cache_NewRedis c with
        | inl err => inl err
        | inr redis => inr (Some redis)
        end
    | None => inr None
    end in
  match redis with
  | inl err => inl err
  | inr redis =>
      let cache : error + option R :=
        if config.Cache.IsEnabled (config.Conf.Cache c) then
          match redis with
          | None => inl "there is no cache provider"
          | Some redis => inr (Some redis)
          end
        else inr None in
      match cache with
      | inl err => inl err
      | inr cache =>
          inr {| APIWhitelist :=
                   {| whitelist.Whitelist := config.Conf.Whitelists c;
                      whitelist.CmsURL := config.Conf.CmsURL c;
                      whitelist.lastFetch := 0 |};
                 Cache := cache;
                 conf := c |}
      end
  end.

End server.

(* ------------------------------------------------------------------ *)
(** ** Package [serve] *)

Module serve.

(** [serveMain].  The collaborators are [cms.FetchPlaylistIDs] at the
    start, [cache.NewRedis], [relay.New] (of which only the error is
    used here) and [server.Run], which serves until it fails.  The result
    is the error returned and the server that was run, if one was. *)
Definition serveMain {R : Type}
    (cms_FetchPlaylistIDs : string -> error + gmap string bool)
    (cache_NewRedis : config.Conf.t -> error + R)
    (relay_New : string -> option error)
    (run : server.Server R -> option error)
    (args : list string) (c : cli.Conf)
    : option error * option (server.Server R) :=
  match cli.CFG c with
  | None => (Some "config file is nil", None)
  | Some cfg =>
      match cms_FetchPlaylistIDs (config.Conf.CmsURL cfg) with
      | inl err =>
          (Some ("failed to fetch playlist whitelist from CMS: " +:+ err), None)
      | inr playlistIDs =>
          if (size playlistIDs =? 0)%nat then
            (Some "no playlist IDs fetched from CMS", None)
          else
            let cfg := config.setPlaylistIDs cfg playlistIDs in
            match server.New cache_NewRedis cfg with
            | inl err => (None, None)
            | inr server =>
                match relay_New (config.Conf.ApiKey cfg) with
                | Some err => (Some err, None)
                | None => (run server, Some server)
                end
            end
      end
  end.

End serve.

(* ------------------------------------------------------------------ *)
(** ** Collaborators that are not part of the sources *)

(** Modelled from the spec: the Cache Store of section 4.2, which the
    sources reach through [cache.Rediser] and whose implementation (the
    Redis client built by [cache.NewRedis]) is not among them.  [Get]
    yields the entry, a miss or a transport error; [SetNX] writes only
    when no live entry exists and gives the entry the expiry [ttl]; an
    entry is live until the clock of the store reaches its expiry. *)
Module memstore.

Record Entry := mkEntry {
  value    : string;
  expireAt : time.Time
}.

Record t := mk {
  clock     : time.Time;
  reachable : bool;
  entries   : gmap string Entry
}.

Definition transportError : error := "dial tcp: connection refused".

Definition live (s : t) (key : string) : option Entry :=
  match entries s !! key with
  | Some e => if clock s <? expireAt e then Some e else None
  | None => None
  end.

Definition get (s : t) (key : string) : error + string :=
  if reachable s then
    match live s key with
    | Some e => inr (value e)
    | None => inl cache.redis_Nil
    end
  else inl transportError.

Definition setIfAbsent (s : t) (key val : string) (ttl : time.Duration)
    : t * option error :=
  if reachable s then
    match live s key with
    | Some _ => (s, None)
    | None =>
        ({| clock := clock s; reachable := reachable s;
            entries := <[key := {| value := val; expireAt := clock s + ttl |}]> (entries s) |},
         None)
    end
  else (s, Some transportError).

(** Time passes. *)
Definition advance (d : time.Duration) (s : t) : t :=
  {| clock := clock s + d; reachable := reachable s; entries := entries s |}.

(** The remaining life that the entry under [key] was written with. *)
Definition writtenTTL (s : t) (key : string) : option time.Duration :=
  match entries s !! key with
  | Some e => Some (expireAt e - clock s)
  | None => None
  end.

Definition empty (now : time.Time) : t :=
  {| clock := now; reachable := true; entries := ∅ |}.

End memstore.

#[global] Instance memstore_Rediser : cache.Rediser memstore.t :=
  {| cache.Get := memstore.get; cache.SetNX := memstore.setIfAbsent |}.

(** Modelled from the spec: the cache entry wire format of section 6, a
    JSON object with the members [statusCode] and [response], the latter
    being the JSON text of the original response; and the JSON text of an
    [api.ErrorResp], an object with the one member [error] (the [api]
    package is not among the sources).  Strings are written without
    escapes.  The decoder reads back what the encoder writes. *)
Module wire.

Definition dq : string := strconv.dq.

Definition member (name : string) : string := dq +:+ name +:+ dq +:+ ":".

Definition Marshal (resp : Resp) : error + string :=
  match resp with
  | ErrorResp e => inr ("{" +:+ member "error" +:+ dq +:+ e +:+ dq +:+ "}")
  | Relayed payload => inr payload
  end.

Definition MarshalHTTP (h : cache.HTTP) : error + string :=
  inr ("{" +:+ member "statusCode" +:+ pretty (cache.StatusCode h)
       +:+ "," +:+ member "response" +:+ cache.Response h +:+ "}").

Definition syntaxError : error := "invalid character looking for beginning of value".

Definition UnmarshalHTTP (s : string) : error + cache.HTTP :=
  let pre := "{" +:+ member "statusCode" in
  let mid := "," +:+ member "response" in
  if negb (String.prefix pre s) then inl syntaxError else
  let rest := String.substring (String.length pre)
                (String.length s - String.length pre) s in
  match String.index 0 mid rest with
  | None => inl syntaxError
  | Some i =>
      let number := String.substring 0 i rest in
      let from := (i + String.length mid)%nat in
      let tail := String.substring from (String.length rest - from) rest in
      let body := String.substring 0 (String.length tail - 1) tail in
      if negb (String.eqb tail (body +:+ "}")) then inl syntaxError else
      match strconv.Atoi number with
      | inl _ => inl syntaxError
      | inr code => inr {| cache.StatusCode := code; cache.Response := body |}
      end
  end.

End wire.

#[global] Instance wire_Codec : json.Codec :=
  {| json.Marshal := wire.Marshal;
     json.MarshalHTTP := wire.MarshalHTTP;
     json.UnmarshalHTTP := wire.UnmarshalHTTP |}.

(** Modelled from the spec: the Cache Key Deriver of section 4.1
    ([cache.GetCacheKey], not among the sources), a total and
    deterministic function of the namespace and the request URI that
    tells distinct pairs apart.  The digest is left out: the key is the
    pair written out. *)
Definition plainKey : cache.KeyDeriver :=
  fun namespace uri => (namespace +:+ ":" +:+ uri, None).

(** A key deriver that fails, for the one path of the middleware that
    handles its error. *)
Definition failingKey : cache.KeyDeriver :=
  fun namespace uri => ("", Some "hash: short write").

(* ------------------------------------------------------------------ *)
(** ** The TTL Resolver as the specification words it (section 4.3) *)

Module spec.

(** The caller-supplied override: the first value of the TTL header. *)
Inductive Override :=
| Absent
| Invalid
| Seconds (n : Z).

Definition override (request : http.Request.t) : Override :=
  match http.Request.Header request !! http.CanonicalHeaderKey "Cache-Set-TTL" with
  | None => Absent
  | Some [] => Invalid
  | Some (v :: _) =>
      match strconv.Atoi v with
      | inl _ => Invalid
      | inr n => if 0 <? n then Seconds n else Invalid
      end
  end.

(** Rules 3 and 4: the TTL configured for the exact path, else the
    default, in seconds. *)
Definition configured (cacheConf : config.Cache.t) (request : http.Request.t)
    (defaultTTL : Z) : Z :=
  match config.Cache.OverwriteTTL cacheConf
          !! http.URL.Path (http.Request.URL request) with
  | Some seconds => seconds
  | None => defaultTTL
  end.


(** Rule 1, by the path. *)
Definition disabled (cacheConf : config.Cache.t) (request : http.Request.t) : bool :=
  lookupBool (config.Cache.DisabledAPIs cacheConf)
             (http.URL.Path (http.Request.URL request)).

(** The key-value-store selection of a configuration is missing or
    inconsistent: the type is none of the four, or the block of the
    selected type is absent, or one of its address lists is empty or
    holds an empty address. *)
Definition BadAddrs (addrs : list config.RedisAddress.t) : Prop :=
  addrs = [] \/ exists a, In a addrs /\ config.RedisAddress.Addr a = "".

Definition Inconsistent (r : config.RedisService.t) : Prop :=
  let ty := config.RedisService.Type_ r in
  (ty <> config.Cluster /\ ty <> config.Single
   /\ ty <> config.Sentinel /\ ty <> config.Replica)
  \/ (ty = config.Cluster /\
      match config.RedisService.Cluster r with
      | None => True
      | Some c => BadAddrs (config.RedisCluster.Addrs c)
      end)
  \/ (ty = config.Single /\
      match config.RedisService.SingleInstance r with
      | None => True
      | Some s =>
          config.RedisAddress.Addr (config.RedisSingleInstance.Instance s) = ""
      end)
  \/ (ty = config.Sentinel /\
      match config.RedisService.Sentinel r with
      | None => True
      | Some s => BadAddrs (config.RedisSentinel.Addrs s)
      end)
  \/ (ty = config.Replica /\
      match config.RedisService.Replica r with
      | None => True
      | Some p =>
          BadAddrs (config.RedisReplicaInstances.MasterAddrs p)
          \/ BadAddrs (config.RedisReplicaInstances.SlaveAddrs p)
      end).


End spec.

(* ------------------------------------------------------------------ *)
(** ** The texts that the parsers of [config] are meant to read *)

Module format.

(** A byte that prints: ASCII, neither white space nor control. *)
Definition graphic (a : ascii) : bool :=
  ((33 <=? nat_of_ascii a) && (nat_of_ascii a <=? 126))%nat.

(** A byte of a host name or of a key: it prints and is neither of the
    two separators. *)
Definition wordByte (a : ascii) : bool :=
  graphic a && negb (Ascii.eqb a ",") && negb (Ascii.eqb a ":").

Definition word (s : string) : Prop :=
  Forall (fun a => wordByte a = true) (list_ascii_of_string s).

(** [host:port]. *)
Definition address (a : config.RedisAddress.t) : string :=
  config.RedisAddress.Addr a +:+ ":" +:+ pretty (config.RedisAddress.Port a).

(** A byte of white space or of a rune beyond ASCII: the bytes that
    trimming can remove. *)
Definition blank (a : ascii) : Prop :=
  gostrings.asciiSpace a = true \/ (128 <= nat_of_ascii a)%nat.

(** [key:value]. *)
Definition binding (kv : string * Z) : string :=
  fst kv +:+ ":" +:+ pretty (snd kv).

(** [strings.Join(pieces, sep)]. *)
Fixpoint join (sep : string) (pieces : list string) : string :=
  match pieces with
  | [] => ""
  | [piece] => piece
  | piece :: rest => piece +:+ sep +:+ join sep rest
  end.

(** The text holds no byte [sep]. *)
Definition free (sep : ascii) (s : string) : Prop :=
  Forall (fun a => a <> sep) (list_ascii_of_string s).

(** A decimal digit. *)
Definition digitByte (a : ascii) : Prop := strconv.digit a <> None.

End format.

(* ------------------------------------------------------------------ *)
(** ** Concrete inputs on which the statements below are instantiated *)

Module fixtures.
Import time.

(** An allow-list validator that has never fetched. *)
Definition api0 : whitelist.YouTubeAPI :=
  {| whitelist.Whitelist :=
       {| config.Whitelists.ChannelIDs := {[ "UCgood" := true; "UCoff" := false ]};
          config.Whitelists.PlaylistIDs := {[ "P0" := true ]} |};
     whitelist.CmsURL := "https://cms.example/api/graphql";
     whitelist.lastFetch := 0 |}.

(** The CMS is down at second 100 and the answer takes a second. *)
Definition envDown : whitelist.Env :=
  {| whitelist.tSince := 100 * Second;
     whitelist.fetch := inl "failed to fetch shows from CMS: EOF";
     whitelist.tNow := 101 * Second |}.

(** The CMS answers with two playlists at second 100. *)
Definition envUp : whitelist.Env :=
  {| whitelist.tSince := 100 * Second;
     whitelist.fetch := inr {[ "P1" := true; "P2" := true ]};
     whitelist.tNow := 101 * Second |}.

(** Ten seconds later. *)
Definition envLater : whitelist.Env :=
  {| whitelist.tSince := 110 * Second;
     whitelist.fetch := inr {[ "P1" := true; "P2" := true; "P3" := true ]};
     whitelist.tNow := 111 * Second |}.

(** Fifteen seconds later. *)
Definition envLast : whitelist.Env :=
  {| whitelist.tSince := 115 * Second;
     whitelist.fetch := inr {[ "P1" := true ]};
     whitelist.tNow := 116 * Second |}.

(** Three goroutines that miss within sixteen seconds. *)
Definition burst : list whitelist.Step :=
  [ whitelist.ReadLocked "P1"; whitelist.ReadLocked "P3";
    whitelist.WriteLocked envDown "P1";
    whitelist.WriteLocked envLater "P3";
    whitelist.ReadLocked "P1";
    whitelist.WriteLocked envLast "P1" ].

(** A configuration that selects a cluster and gives it no address. *)
Definition clusterNoAddrs : config.RedisService.t :=
  {| config.RedisService.Type_ := config.Cluster;
     config.RedisService.Cluster :=
       Some {| config.RedisCluster.Addrs := []; config.RedisCluster.Password := "" |};
     config.RedisService.SingleInstance := None;
     config.RedisService.Sentinel := None;
     config.RedisService.Replica := None |}.

Definition cacheOn : config.Cache.t :=
  {| config.Cache.IsEnabled := true;
     config.Cache.DisabledAPIs := ∅;
     config.Cache.TTL := 600;
     config.Cache.ErrorTTL := 10;
     config.Cache.OverwriteTTL := ∅ |}.

Definition confWith (r : config.RedisService.t) : config.Conf.t :=
  {| config.Conf.AppName := "yt-relay";
     config.Conf.Address := "0.0.0.0";
     config.Conf.ApiKey := "key";
     config.Conf.Cache := cacheOn;
     config.Conf.CmsURL := "https://cms.example/api/graphql";
     config.Conf.Port := 8080;
     config.Conf.Redis := Some r;
     config.Conf.Whitelists := whitelist.Whitelist api0 |}.

(** A single instance with its address. *)
Definition singleOK : config.RedisService.t :=
  {| config.RedisService.Type_ := config.Single;
     config.RedisService.Cluster := None;
     config.RedisService.SingleInstance :=
       Some {| config.RedisSingleInstance.Instance :=
                 {| config.RedisAddress.Addr := "10.0.0.1";
                    config.RedisAddress.Port := 6379 |};
               config.RedisSingleInstance.Password := "" |};
     config.RedisService.Sentinel := None;
     config.RedisService.Replica := None |}.

(** The command line of [serve -config conf.yaml]. *)
Definition cliConf : cli.Conf :=
  {| cli.ConfigFile := "conf.yaml"; cli.Address := "0.0.0.0"; cli.Port := 8080;
     cli.CFG := None |}.

(** [GET /youtube/v3/search?part=snippet&channelId=bad]: the channel is
    not on the allow-list of [api0]. *)
Definition reqBadChannel : http.Request.t :=
  {| http.Request.URL :=
       {| http.URL.Path := "/youtube/v3/search";
          http.URL.ForceQuery := false;
          http.URL.RawQuery := "part=snippet&channelId=bad" |};
     http.Request.RequestURI := "/youtube/v3/search?part=snippet&channelId=bad";
     http.Request.Header := ∅ |}.


(** [GET /youtube/v3/search?part=snippet&channelId=UCgood]. *)
Definition reqGoodChannel : http.Request.t :=
  {| http.Request.URL :=
       {| http.URL.Path := "/youtube/v3/search";
          http.URL.ForceQuery := false;
          http.URL.RawQuery := "part=snippet&channelId=UCgood" |};
     http.Request.RequestURI := "/youtube/v3/search?part=snippet&channelId=UCgood";
     http.Request.Header := ∅ |}.

(** The query binding of the three requests above. *)
Definition parseQueries (request : http.Request.t) : ytrelay.Options * option error :=
  ({| ytrelay.Part := "snippet";
      ytrelay.ChannelID :=
        if String.eqb (http.URL.RawQuery (http.Request.URL request))
                      "part=snippet&channelId=UCgood"
        then "UCgood" else "bad";
      ytrelay.PlaylistID := "";
      ytrelay.IDs := "" |}, None).

(** The upstream answers with an empty object. *)
Definition relayOK (queries : ytrelay.Options) : error + string := inr "{}".

(** The cache is enabled and [/youtube/v3/search] is a disabled path. *)
Definition cacheSearchDisabled : config.Cache.t :=
  {| config.Cache.IsEnabled := true;
     config.Cache.DisabledAPIs := {[ "/youtube/v3/search" := true ]};
     config.Cache.TTL := 600;
     config.Cache.ErrorTTL := 10;
     config.Cache.OverwriteTTL := ∅ |}.

(** An empty store that answers, at second 1000, and an empty log. *)
Definition world0 : World memstore.t :=
  {| redis := memstore.empty (1000 * Second); logs := [] |}.

(** The store cannot be reached. *)
Definition worldDown : World memstore.t :=
  {| redis := {| memstore.clock := 1000 * Second; memstore.reachable := false;
                 memstore.entries := ∅ |};
     logs := [] |}.

(** One second passes and the log is read afresh. *)
Definition later (w : World memstore.t) : World memstore.t :=
  {| redis := memstore.advance Second (redis w); logs := [] |}.

(** The JSON text of [api.ErrorResp{Error: "channelId(bad) is invalid"}]. *)
Definition badChannelBody : string :=
  "{" +:+ wire.member "error" +:+ wire.dq +:+ "channelId(bad) is invalid"
  +:+ wire.dq +:+ "}".

(** The keys of the requests above in the namespace [yt-relay]. *)
Definition keyBadChannel : string :=
  "yt-relay:/youtube/v3/search?part=snippet&channelId=bad".
Definition keyGoodChannel : string :=
  "yt-relay:/youtube/v3/search?part=snippet&channelId=UCgood".

(** What the store holds under a key, decoded. *)
Definition stored (w : World memstore.t) (key : string) : option cache.HTTP :=
  match memstore.entries (redis w) !! key with
  | Some e =>
      match wire.UnmarshalHTTP (memstore.value e) with
      | inr h => Some h
      | inl _ => None
      end
  | None => None
  end.

(** The cache is enabled and [/youtube/v3/search] has a TTL of its own. *)
Definition cacheSearch30 : config.Cache.t :=
  {| config.Cache.IsEnabled := true;
     config.Cache.DisabledAPIs := ∅;
     config.Cache.TTL := 600;
     config.Cache.ErrorTTL := 10;
     config.Cache.OverwriteTTL := {[ "/youtube/v3/search" := 30 ]} |}.

(** [GET /youtube/v3/search], without a query string, and the same
    request carrying [Cache-Set-TTL: 5]. *)
Definition reqBare : http.Request.t :=
  {| http.Request.URL :=
       {| http.URL.Path := "/youtube/v3/search";
          http.URL.ForceQuery := false;
          http.URL.RawQuery := "" |};
     http.Request.RequestURI := "/youtube/v3/search";
     http.Request.Header := ∅ |}.

Definition reqBareTTL5 : http.Request.t :=
  {| http.Request.URL := http.Request.URL reqBare;
     http.Request.RequestURI := http.Request.RequestURI reqBare;
     http.Request.Header := {[ "Cache-Set-Ttl" := ["5"] ]} |}.

(** The same request asking for more seconds than a [Duration] holds. *)
Definition reqBareHuge : http.Request.t :=
  {| http.Request.URL := http.Request.URL reqBare;
     http.Request.RequestURI := http.Request.RequestURI reqBare;
     http.Request.Header := {[ "Cache-Set-Ttl" := ["9223372037"] ]} |}.

(** Two nodes of a cluster and two TTLs of the environment. *)
Definition twoNodes : list config.RedisAddress.t :=
  [ {| config.RedisAddress.Addr := "10.0.0.1"; config.RedisAddress.Port := 6379 |};
    {| config.RedisAddress.Addr := "redis-2.internal";
       config.RedisAddress.Port := 6380 |} ].

Definition twoTTLs : list (string * Z) :=
  [ ("/youtube/v3/search", 30); ("/youtube/v3/videos", 3600) ].

(** An environment that sets [REDIS_TYPE] and nothing else. *)
Definition getenvCluster (name : string) : string :=
  if String.eqb name "REDIS_TYPE" then "cluster" else "".

(** Two shows as the CMS lists them, and its answer. *)
Definition twoShows : list cms.showFields :=
  [ {| cms.PlayList01 := Some "https://www.youtube.com/playlist?list=PL123";
       cms.PlayList02 := None;
       cms.TrailerPlaylist := Some " " |};
    {| cms.PlayList01 := Some "https://www.youtube.com/watch?v=abc&list=PL_a-1&index=2";
       cms.PlayList02 := Some "PLbare";
       cms.TrailerPlaylist := None |} ].

Definition cmsAnswer : error + cms.Response :=
  inr {| cms.StatusCode := 200;
         cms.Decoded := inr {| cms.Shows := twoShows; cms.Errors := [] |} |}.

(** The CMS gives that answer at second 100. *)
Definition envCms : whitelist.Env :=
  {| whitelist.tSince := 100 * Second;
     whitelist.fetch := cms.FetchPlaylistIDs (inr "{}") cmsAnswer;
     whitelist.tNow := 101 * Second |}.

(** Ten seconds after the start. *)
Definition envEarly : whitelist.Env :=
  {| whitelist.tSince := 10 * Second;
     whitelist.fetch := inr {[ "P1" := true ]};
     whitelist.tNow := 11 * Second |}.

(** [cache.NewRedis] gives an empty store. *)
Definition newRedis (c : config.Conf.t) : error + memstore.t :=
  inr (memstore.empty 0).

(** The seed fetch returns one playlist. *)
Definition seedFetch (url : string) : error + gmap string bool :=
  inr {[ "P1" := true ]}.

(** The command line once [Start] has loaded the configuration. *)
Definition cliLoaded : cli.Conf :=
  {| cli.ConfigFile := "conf.yaml"; cli.Address := "0.0.0.0"; cli.Port := 8080;
     cli.CFG := Some (confWith singleOK) |}.

(** The query binding of [/videos?part=snippet&id=v1] and of
    [/playlistItems?part=snippet&playlistId=P9]. *)
Definition parseVideoQueries (request : http.Request.t)
    : ytrelay.Options * option error :=
  ({| ytrelay.Part := "snippet"; ytrelay.ChannelID := "";
      ytrelay.PlaylistID := "P9"; ytrelay.IDs := "v1" |}, None).

(** The upstream lists one video of the channel [UCgood]. *)
Definition listOK (queries : ytrelay.Options) : error + youtube.VideoListResponse :=
  inr {| youtube.Items := [ {| youtube.Snippet_ChannelId := Some "UCgood" |} ];
         youtube.payload := "{}" |}.

Definition cacheOff : config.Cache.t :=
  {| config.Cache.IsEnabled := false;
     config.Cache.DisabledAPIs := ∅;
     config.Cache.TTL := 0;
     config.Cache.ErrorTTL := 0;
     config.Cache.OverwriteTTL := ∅ |}.

(** The entry of an answer [{}] with status 200. *)
Definition entryOK : string :=
  "{" +:+ wire.member "statusCode" +:+ "200" +:+ ","
  +:+ wire.member "response" +:+ "{}" +:+ "}".

(** A store that holds [value] under [key] for ten minutes. *)
Definition worldWith (key value : string) : World memstore.t :=
  {| redis := fst (memstore.setIfAbsent (memstore.empty (1000 * Second))
                     key value (600 * Second));
     logs := [] |}.

End fixtures.

(** Proof step: go past the early returns of [Valid] that are not taken. *)
Ltac pass_guards :=
  repeat match goal with
         | |- (if ?b then false else _) = false =>
             destruct b; [reflexivity|]
         end.

(** Proof step: settle the comparisons of byte values that the bounds at
    hand decide. *)
Ltac decide_bytes :=
  repeat match goal with
         | |- context [(?x =? ?y)%nat] =>
             replace (x =? y)%nat with false by (symmetry; apply Nat.eqb_neq; lia)
         | |- context [(?x <=? ?y)%nat] =>
             first [ replace (x <=? y)%nat with false
                       by (symmetry; apply Nat.leb_gt; lia)
                   | replace (x <=? y)%nat with true
                       by (symmetry; apply Nat.leb_le; lia) ]
         end.

(* ================================================================== *)
(** * Properties *)

(* ------------------------------------------------------------------ *)
(** ** The allow-list validator *)

Section Durations.
Import time.

(** A count of seconds that fits in a [Duration] is converted exactly;
    this covers every count from [1] to [9223372036]. *)
Lemma mul_Second_exact (n : Z) :
  minDuration <= n * Second <= maxDuration -> time.mul n Second = n * Second.
Proof.
  unfold time.mul, wrap64, minDuration, maxDuration. intros Hfit.
  rewrite Z.mod_small; lia.
Qed.

Lemma mul_Second_of_seconds (n : Z) :
  0 < n <= 9223372036 -> time.mul n Second = n * Second.
Proof.
  intros Hn. apply mul_Second_exact.
  unfold minDuration, maxDuration, Second. lia.
Qed.

End Durations.

Section AllowList.
Import time whitelist.

Lemma refreshCooldown_value : refreshCooldown = 60 * Second.
Proof. reflexivity. Qed.

(** The saturation of [Sub] is far from the cooldown, so the test of the
    source compares the true elapsed time. *)
Lemma refreshCooldown_pos : 0 < refreshCooldown.
Proof. reflexivity. Qed.

Lemma Since_below_cooldown (now u : Time) :
  (Since now u <? refreshCooldown) = true <-> now - u < refreshCooldown.
Proof.
  rewrite Z.ltb_lt, refreshCooldown_value.
  unfold Since, Sub, minDuration, maxDuration, Second. lia.
Qed.

Lemma Since_not_below_cooldown (now u : Time) :
  (Since now u <? refreshCooldown) = false <-> refreshCooldown <= now - u.
Proof.
  rewrite Z.ltb_ge, refreshCooldown_value.
  unfold Since, Sub, minDuration, maxDuration, Second. lia.
Qed.

Lemma presentAndEffective_true (m : gmap string bool) (k : string) :
  presentAndEffective m k = true <-> m !! k = Some true.
Proof.
  unfold presentAndEffective.
  destruct (m !! k) as [[]|]; split; congruence.
Qed.

Lemma presentAndEffective_false (m : gmap string bool) (k : string) :
  presentAndEffective m k = false <-> m !! k <> Some true.
Proof.
  rewrite <- presentAndEffective_true.
  destruct (presentAndEffective m k); split; congruence.
Qed.

(** Within the cooldown a miss is answered without a fetch. *)
Lemma refresh_within_cooldown (env : Env) (api : YouTubeAPI) (id : string) :
  config.Whitelists.PlaylistIDs (Whitelist api) !! id <> Some true ->
  tSince env - lastFetch api < refreshCooldown ->
  refreshAndValidatePlaylist env api id = (false, api, []).
Proof.
  intros Hmiss Hcool. unfold refreshAndValidatePlaylist.
  apply presentAndEffective_false in Hmiss. rewrite Hmiss.
  apply Since_below_cooldown in Hcool. now rewrite Hcool.
Qed.

Lemma run_spaced (schedule : list Step) :
  forall (api : YouTubeAPI) (t0 : Time),
    clockMonotone t0 schedule ->
    spaced (lastFetch api) (snd (run api schedule)).
Proof.
  induction schedule as [|[id|env id] rest IH]; intros api t0 Hclock; simpl.
  - exact I.
  - eapply IH; eassumption.
  - destruct Hclock as (_ & Hle & Hrest).
    unfold refreshAndValidatePlaylist.
    destruct (presentAndEffective _ id).
    { specialize (IH api _ Hrest). destruct (run api rest); exact IH. }
    destruct (Since (tSince env) (lastFetch api) <? refreshCooldown) eqn:Hcool.
    { specialize (IH api _ Hrest). destruct (run api rest); exact IH. }
    apply Since_not_below_cooldown in Hcool.
    destruct (fetch env) as [err|newIDs].
    + specialize (IH (setLastFetch api (tNow env)) _ Hrest).
      destruct (run (setLastFetch api (tNow env)) rest); simpl in *.
      repeat split; [lia | lia | exact IH].
    + specialize (IH (setLastFetch (setPlaylistIDs api newIDs) (tNow env)) _ Hrest).
      destruct (run (setLastFetch (setPlaylistIDs api newIDs) (tNow env)) rest);
        simpl in *.
      repeat split; [lia | lia | exact IH].
Qed.

Lemma spaced_outside (calls : list Event) :
  forall (l a b : Time),
    spaced l calls -> b - a < refreshCooldown -> a <= l ->
    filter (within a b) calls = [].
Proof.
  induction calls as [|[url s f] rest IH]; intros l a b Hsp Hwin Hal; simpl.
  - reflexivity.
  - destruct Hsp as (Hs & Hsf & Hrest).
    rewrite filter_cons. unfold within at 1.
    destruct (decide _) as [Hin|_].
    + apply Is_true_true, andb_true_iff in Hin. destruct Hin as [H1 _].
      apply Z.leb_le in H1. lia.
    + pose proof refreshCooldown_pos.
      apply (IH f); [assumption | assumption | lia].
Qed.

Lemma spaced_window (calls : list Event) :
  forall (l a b : Time),
    spaced l calls -> b - a < refreshCooldown ->
    (length (filter (within a b) calls) <= 1)%nat.
Proof.
  induction calls as [|[url s f] rest IH]; intros l a b Hsp Hwin; simpl.
  - lia.
  - destruct Hsp as (Hs & Hsf & Hrest).
    rewrite filter_cons. unfold within at 1.
    destruct (decide _) as [Hin|_].
    + apply Is_true_true, andb_true_iff in Hin. destruct Hin as [_ H2].
      apply Z.leb_le in H2.
      rewrite (spaced_outside rest f a b); [simpl; lia | assumption | assumption | assumption].
    + apply (IH f); assumption.
Qed.

(** C5.  Cooldown invariant.  Along any schedule of the two critical
    sections with a clock that does not run backwards, every window
    shorter than the cooldown holds at most one call of the external
    fetch, however many lookups miss; and in a state where less than the
    cooldown has elapsed since the last fetch attempt, a lookup that
    misses returns false, makes no external call and changes nothing. *)
Theorem cooldown_bounds_refresh_calls
    (api : YouTubeAPI) (schedule : list Step) (t0 a b : Time) :
  clockMonotone t0 schedule ->
  b - a < refreshCooldown ->
  (length (filter (within a b) (snd (run api schedule))) <= 1)%nat
  /\ forall (env : Env) (id : string),
       let api' := fst (run api schedule) in
       config.Whitelists.PlaylistIDs (Whitelist api') !! id <> Some true ->
       tSince env - lastFetch api' < refreshCooldown ->
       ValidatePlaylistIDs env api' id = (false, api', [])
       /\ refreshAndValidatePlaylist env api' id = (false, api', []).
Proof.
  intros Hclock Hwin. split.
  - eapply spaced_window; [|exact Hwin].
    eapply run_spaced; exact Hclock.
  - intros env id api' Hmiss Hcool.
    pose proof (refresh_within_cooldown env api' id Hmiss Hcool) as Hr.
    split; [|exact Hr].
    unfold ValidatePlaylistIDs.
    apply presentAndEffective_false in Hmiss. now rewrite Hmiss.
Qed.

Lemma cooldown_bounds_refresh_calls_witness :
  clockMonotone (100 * Second) fixtures.burst
  /\ 130 * Second - 100 * Second < refreshCooldown
  /\ snd (run fixtures.api0 fixtures.burst)
     = [FetchPlaylistIDs "https://cms.example/api/graphql" (100 * Second) (101 * Second)]
  /\ (length (filter (within (100 * Second)%Z (130 * Second)%Z)
                (snd (run fixtures.api0 fixtures.burst))) <= 1)%nat.
Proof.
  assert (Hclock : clockMonotone (100 * Second) fixtures.burst)
    by (unfold fixtures.burst, fixtures.envDown, fixtures.envLater, fixtures.envLast;
        simpl; unfold Second; lia).
  assert (Hwin : 130 * Second - 100 * Second < refreshCooldown)
    by reflexivity.
  split; [exact Hclock|]. split; [exact Hwin|]. split; [reflexivity|].
  exact (proj1 (cooldown_bounds_refresh_calls fixtures.api0 fixtures.burst
                  (100 * Second) (100 * Second) (130 * Second) Hclock Hwin)).
Defined.

(** C6.  A failed refresh.  When a lookup misses, the cooldown has
    elapsed and the external fetch fails, the caller gets the boolean
    false and nothing else, the playlist set and the channel set are what
    they were, and the last-fetch timestamp is the clock reading taken
    after the failed attempt. *)
Theorem failed_refresh_is_absorbed
    (env : Env) (api : YouTubeAPI) (id : string) (err : error) :
  config.Whitelists.PlaylistIDs (Whitelist api) !! id <> Some true ->
  refreshCooldown <= tSince env - lastFetch api ->
  fetch env = inl err ->
  exists api',
    ValidatePlaylistIDs env api id
      = (false, api', [FetchPlaylistIDs (CmsURL api) (tSince env) (tNow env)])
    /\ refreshAndValidatePlaylist env api id = ValidatePlaylistIDs env api id
    /\ Whitelist api' = Whitelist api
    /\ CmsURL api' = CmsURL api
    /\ lastFetch api' = tNow env.
Proof.
  intros Hmiss Hcool Hfetch.
  exists (setLastFetch api (tNow env)).
  apply presentAndEffective_false in Hmiss.
  apply Since_not_below_cooldown in Hcool.
  unfold ValidatePlaylistIDs, refreshAndValidatePlaylist.
  rewrite Hmiss, Hcool, Hfetch. repeat split.
Qed.

Lemma failed_refresh_is_absorbed_witness :
  ValidatePlaylistIDs fixtures.envDown fixtures.api0 "P1"
    = (false, setLastFetch fixtures.api0 (101 * Second),
       [FetchPlaylistIDs "https://cms.example/api/graphql" (100 * Second) (101 * Second)])
  /\ exists api',
       ValidatePlaylistIDs fixtures.envDown fixtures.api0 "P1"
         = (false, api',
            [FetchPlaylistIDs (CmsURL fixtures.api0) (tSince fixtures.envDown)
               (tNow fixtures.envDown)])
       /\ refreshAndValidatePlaylist fixtures.envDown fixtures.api0 "P1"
          = ValidatePlaylistIDs fixtures.envDown fixtures.api0 "P1"
       /\ Whitelist api' = Whitelist fixtures.api0
       /\ CmsURL api' = CmsURL fixtures.api0
       /\ lastFetch api' = tNow fixtures.envDown.
Proof.
  split; [reflexivity|].
  apply (failed_refresh_is_absorbed fixtures.envDown fixtures.api0 "P1"
           "failed to fetch shows from CMS: EOF").
  - vm_compute. discriminate.
  - vm_compute. discriminate.
  - reflexivity.
Defined.

(** C7.  A successful refresh.  When a lookup misses, the cooldown has
    elapsed and the external fetch succeeds, the playlist set becomes the
    fetched set itself, the last-fetch timestamp is the clock reading
    taken after the fetch, and the pending id is answered from the fetched
    set: true exactly when the fetched set maps it to true, false when it
    is absent.  A later lookup inside the cooldown is answered from the
    fetched set as well, without another call. *)
Theorem successful_refresh_replaces_playlists
    (env : Env) (api : YouTubeAPI) (id : string) (newIDs : gmap string bool) :
  config.Whitelists.PlaylistIDs (Whitelist api) !! id <> Some true ->
  refreshCooldown <= tSince env - lastFetch api ->
  fetch env = inr newIDs ->
  exists (b : bool) (api' : YouTubeAPI),
    ValidatePlaylistIDs env api id
      = (b, api', [FetchPlaylistIDs (CmsURL api) (tSince env) (tNow env)])
    /\ refreshAndValidatePlaylist env api id = ValidatePlaylistIDs env api id
    /\ config.Whitelists.PlaylistIDs (Whitelist api') = newIDs
    /\ config.Whitelists.ChannelIDs (Whitelist api')
       = config.Whitelists.ChannelIDs (Whitelist api)
    /\ lastFetch api' = tNow env
    /\ (b = true <-> newIDs !! id = Some true)
    /\ (newIDs !! id = None -> b = false)
    /\ forall (env' : Env) (id' : string),
         tSince env' - tNow env < refreshCooldown ->
         exists b',
           ValidatePlaylistIDs env' api' id' = (b', api', [])
           /\ (b' = true <-> newIDs !! id' = Some true).
Proof.
  intros Hmiss Hcool Hfetch.
  exists (presentAndEffective newIDs id),
         (setLastFetch (setPlaylistIDs api newIDs) (tNow env)).
  apply presentAndEffective_false in Hmiss.
  apply Since_not_below_cooldown in Hcool.
  unfold ValidatePlaylistIDs, refreshAndValidatePlaylist.
  rewrite Hmiss, Hcool, Hfetch. simpl.
  repeat split.
  - apply presentAndEffective_true.
  - apply presentAndEffective_true.
  - intros Habs. unfold presentAndEffective. now rewrite Habs.
  - intros env' id' Hin.
    exists (presentAndEffective newIDs id').
    split; [|apply presentAndEffective_true].
    destruct (presentAndEffective newIDs id') eqn:Hid; [reflexivity|].
    apply Since_below_cooldown in Hin. now rewrite Hin.
Qed.

Lemma successful_refresh_replaces_playlists_witness :
  fst (fst (ValidatePlaylistIDs fixtures.envUp fixtures.api0 "P1")) = true
  /\ fst (fst (ValidatePlaylistIDs fixtures.envUp fixtures.api0 "P3")) = false
  /\ exists (b : bool) (api' : YouTubeAPI),
       ValidatePlaylistIDs fixtures.envUp fixtures.api0 "P3"
         = (b, api',
            [FetchPlaylistIDs (CmsURL fixtures.api0) (tSince fixtures.envUp)
               (tNow fixtures.envUp)])
       /\ refreshAndValidatePlaylist fixtures.envUp fixtures.api0 "P3"
          = ValidatePlaylistIDs fixtures.envUp fixtures.api0 "P3"
       /\ config.Whitelists.PlaylistIDs (Whitelist api')
          = {[ "P1" := true; "P2" := true ]}
       /\ config.Whitelists.ChannelIDs (Whitelist api')
          = config.Whitelists.ChannelIDs (Whitelist fixtures.api0)
       /\ lastFetch api' = tNow fixtures.envUp
       /\ (b = true <->
           ({[ "P1" := true; "P2" := true ]} : gmap string bool) !! "P3" = Some true)
       /\ (({[ "P1" := true; "P2" := true ]} : gmap string bool) !! "P3" = None ->
           b = false)
       /\ forall (env' : Env) (id' : string),
            tSince env' - tNow fixtures.envUp < refreshCooldown ->
            exists b',
              ValidatePlaylistIDs env' api' id' = (b', api', [])
              /\ (b' = true <->
                  ({[ "P1" := true; "P2" := true ]} : gmap string bool) !! id'
                  = Some true).
Proof.
  split; [reflexivity|]. split; [reflexivity|].
  apply (successful_refresh_replaces_playlists fixtures.envUp fixtures.api0 "P3"
           {[ "P1" := true; "P2" := true ]}).
  - vm_compute. discriminate.
  - vm_compute. discriminate.
  - reflexivity.
Defined.

(** C8.  Effective semantics.  The channel check answers true exactly for
    the ids that the channel set maps to true, and the playlist check
    answers true exactly for the ids that the playlist set it leaves
    behind maps to true.  An id mapped to false is treated as an id that
    is absent: the channel check answers false for both, and the playlist
    check gives the same answer, makes the same external calls and leaves
    the same timestamp for both. *)
Theorem ineffective_entry_is_rejected
    (api : YouTubeAPI) (env : Env) (id : string) (m : gmap string bool) :
  (ValidateChannelID api id = true
   <-> config.Whitelists.ChannelIDs (Whitelist api) !! id = Some true)
  /\ (forall (playlists : gmap string bool) (url : string) (t : Time),
        ValidateChannelID
          (mkYouTubeAPI (config.Whitelists.mk (<[id := false]> m) playlists) url t) id
          = false
        /\ ValidateChannelID
             (mkYouTubeAPI (config.Whitelists.mk (delete id m) playlists) url t) id
           = false)
  /\ (let '(b, api', _) := ValidatePlaylistIDs env api id in
      b = true <-> config.Whitelists.PlaylistIDs (Whitelist api') !! id = Some true)
  /\ (let '(b1, api1, calls1) :=
        ValidatePlaylistIDs env (setPlaylistIDs api (<[id := false]> m)) id in
      let '(b2, api2, calls2) :=
        ValidatePlaylistIDs env (setPlaylistIDs api (delete id m)) id in
      b1 = b2 /\ calls1 = calls2 /\ lastFetch api1 = lastFetch api2).
Proof.
  split; [apply presentAndEffective_true|].
  split.
  { intros playlists url t. unfold ValidateChannelID, presentAndEffective. simpl.
    now rewrite lookup_insert_eq, lookup_delete_eq. }
  split.
  - unfold ValidatePlaylistIDs, refreshAndValidatePlaylist.
    destruct (presentAndEffective _ id) eqn:Hid.
    { apply presentAndEffective_true in Hid. now rewrite Hid. }
    destruct (Since _ _ <? refreshCooldown).
    { apply presentAndEffective_false in Hid. split; [discriminate|contradiction]. }
    destruct (fetch env) as [err|newIDs]; simpl.
    + apply presentAndEffective_false in Hid. split; [discriminate|contradiction].
    + apply presentAndEffective_true.
  - unfold ValidatePlaylistIDs, refreshAndValidatePlaylist. simpl.
    unfold presentAndEffective at 1 2 4 5.
    rewrite lookup_insert_eq, lookup_delete_eq.
    destruct (Since _ _ <? refreshCooldown); [repeat split|].
    destruct (fetch env) as [err|newIDs]; simpl; repeat split.
Qed.

End AllowList.

(* ------------------------------------------------------------------ *)
(** ** Configuration *)

Section Configuration.
Import config.

Lemma someAddrEmpty_In (addrs : list RedisAddress.t) (a : RedisAddress.t) :
  In a addrs -> RedisAddress.Addr a = "" -> someAddrEmpty addrs = true.
Proof.
  intros Hin Hempty. unfold someAddrEmpty.
  apply existsb_exists. exists a. split; [exact Hin|]. now rewrite Hempty.
Qed.

(** The two tests that [Valid] runs on an address list reject a list
    that is empty or holds an empty address. *)
Lemma BadAddrs_rejected (addrs : list RedisAddress.t) :
  spec.BadAddrs addrs ->
  (length addrs =? 0)%nat = true \/ someAddrEmpty addrs = true.
Proof.
  intros [->|(a & Hin & Hempty)]; [now left|right].
  eapply someAddrEmpty_In; eassumption.
Qed.

Lemma Valid_rejects_inconsistent (c : Conf.t) (r : RedisService.t) :
  Conf.Redis c = Some r -> spec.Inconsistent r -> Valid c = false.
Proof.
  intros Hredis Hinc. unfold Valid. pass_guards. rewrite Hredis.
  destruct Hinc as [(H1 & H2 & H3 & H4)|[(Hty & H)|[(Hty & H)|[(Hty & H)|(Hty & H)]]]].
  - apply String.eqb_neq in H1, H2, H3, H4. now rewrite H1, H2, H3, H4.
  - rewrite Hty. simpl.
    destruct (RedisService.Cluster r) as [cluster|]; [|reflexivity].
    destruct (BadAddrs_rejected _ H) as [E|E]; rewrite E; [reflexivity|].
    now destruct (length _ =? 0)%nat.
  - rewrite Hty. simpl.
    destruct (RedisService.SingleInstance r) as [single|]; [|reflexivity].
    now rewrite H.
  - rewrite Hty. simpl.
    destruct (RedisService.Sentinel r) as [sentinel|]; [|reflexivity].
    destruct (BadAddrs_rejected _ H) as [E|E]; rewrite E; [reflexivity|].
    now destruct (length _ =? 0)%nat.
  - rewrite Hty. simpl.
    destruct (RedisService.Replica r) as [replica|]; [|reflexivity].
    destruct H as [H|H]; destruct (BadAddrs_rejected _ H) as [E|E].
    all: pass_guards; congruence.
Qed.

(** What [Load] returns without an error has passed [Valid]. *)
Lemma Load_returns_valid
    (rd : string -> option error) (um : string -> error + Conf.t)
    (lc : Conf.t -> Conf.t * option error) (configFile : string) (cfg : Conf.t) :
  Load rd um lc configFile = inr cfg -> Valid cfg = true.
Proof.
  unfold Load.
  destruct (if String.eqb configFile "" then None else rd configFile);
    [discriminate|].
  destruct (um configFile) as [err|decoded]; [discriminate|].
  destruct (if String.eqb configFile "" then lc decoded else (decoded, None))
    as [cfg' [err|]]; [discriminate|].
  destruct (Valid cfg') eqn:Hvalid; simpl; [|discriminate].
  intros [= <-]. exact Hvalid.
Qed.

(** A sound configuration is accepted: [Valid] is not the constant false. *)
Example Valid_accepts_single : Valid (fixtures.confWith fixtures.singleOK) = true.
Proof. reflexivity. Qed.

(** C9.  A configuration whose key-value-store selection is missing or
    inconsistent (a type that is none of the four, no block for the
    selected type, an empty address list, an empty address in a list)
    fails validation; [Load] never returns it; when it is the
    configuration that was read, [Load] returns the error
    [invalid configuration], and [Start] returns an error whatever the
    command is, which therefore was not run. *)
Theorem inconsistent_redis_is_rejected
    (c : Conf.t) (r : RedisService.t) :
  Conf.Redis c = Some r ->
  spec.Inconsistent r ->
  Valid c = false
  /\ forall (rd : string -> option error) (um : string -> error + Conf.t)
            (lc : Conf.t -> Conf.t * option error) (configFile : string),
       Load rd um lc configFile <> inr c
       /\ forall (decoded : Conf.t),
            (if String.eqb configFile "" then None else rd configFile) = None ->
            um configFile = inr decoded ->
            (if String.eqb configFile "" then lc decoded else (decoded, None))
              = (c, None) ->
            Load rd um lc configFile = inl "invalid configuration"
            /\ forall (cmdMain : list string -> cli.Conf -> option error)
                      (args : list string) (flags : cli.Conf),
                 cli.ConfigFile flags = configFile ->
                 cli.Start (Load rd um lc) cmdMain args flags
                   = Some "failed to load config".
Proof.
  intros Hredis Hinc.
  pose proof (Valid_rejects_inconsistent c r Hredis Hinc) as Hvalid.
  split; [exact Hvalid|].
  intros rd um lc configFile. split.
  - intros Hload. apply Load_returns_valid in Hload. congruence.
  - intros decoded Hread Hdecode Henv.
    assert (Hload : Load rd um lc configFile = inl "invalid configuration").
    { unfold Load. rewrite Hread, Hdecode, Henv, Hvalid. reflexivity. }
    split; [exact Hload|].
    intros cmdMain args flags Hfile. unfold cli.Start.
    now rewrite Hfile, Hload.
Qed.

Lemma inconsistent_redis_is_rejected_witness :
  spec.Inconsistent fixtures.clusterNoAddrs
  /\ Valid (fixtures.confWith fixtures.clusterNoAddrs) = false
  /\ config.Load (fun _ => None)
       (fun _ => inr (fixtures.confWith fixtures.clusterNoAddrs))
       (fun cfg => (cfg, None)) "conf.yaml"
     = inl "invalid configuration".
Proof.
  assert (Hredis : Conf.Redis (fixtures.confWith fixtures.clusterNoAddrs)
                   = Some fixtures.clusterNoAddrs) by reflexivity.
  assert (Hinc : spec.Inconsistent fixtures.clusterNoAddrs).
  { right. left. split; [reflexivity|]. simpl. now left. }
  destruct (inconsistent_redis_is_rejected _ _ Hredis Hinc) as [Hvalid Hload].
  split; [exact Hinc|]. split; [exact Hvalid|].
  destruct (Hload (fun _ => None)
              (fun _ => inr (fixtures.confWith fixtures.clusterNoAddrs))
              (fun cfg => (cfg, None)) "conf.yaml") as [_ H].
  exact (proj1 (H (fixtures.confWith fixtures.clusterNoAddrs)
                  eq_refl eq_refl eq_refl)).
Defined.

End Configuration.

(* ------------------------------------------------------------------ *)
(** ** The caching interceptor and the TTL resolver *)

Section CachingInterceptor.

Context {R : Type} `{!cache.Rediser R} `{!json.Codec}.
Variable GetCacheKey : cache.KeyDeriver.

(** [getHeaderTTL] computes the override of the specification. *)
Lemma getHeaderTTL_override (request : http.Request.t) (w : World R) :
  match spec.override request with
  | spec.Absent =>
      route.getHeaderTTL request w = ((0, false, None), w)
  | spec.Invalid =>
      exists err, route.getHeaderTTL request w = ((0, true, Some err), w)
  | spec.Seconds n =>
      exists msg,
        route.getHeaderTTL request w
        = ((time.mul n time.Second, true, None), logged w log.InfoLevel msg)
  end.
Proof.
  unfold spec.override, route.getHeaderTTL, route.TTLHeader.
  destruct (http.Request.Header request !! _) as [[|v vs]|]; simpl.
  - eexists. reflexivity.
  - destruct (strconv.Atoi v) as [err|n].
    + eexists. reflexivity.
    + rewrite Z.leb_antisym. destruct (0 <? n); simpl.
      * eexists. reflexivity.
      * eexists. reflexivity.
  - reflexivity.
Qed.

(** Non-numeric, zero and negative values are invalid overrides; a
    positive count of seconds is a valid one. *)
Example override_values :
  let withTTL v :=
    {| http.Request.URL := http.Request.URL fixtures.reqGoodChannel;
       http.Request.RequestURI := http.Request.RequestURI fixtures.reqGoodChannel;
       http.Request.Header := {[ "Cache-Set-Ttl" := [v] ]} |} in
  spec.override (withTTL "abc") = spec.Invalid
  /\ spec.override (withTTL "0") = spec.Invalid
  /\ spec.override (withTTL "-3") = spec.Invalid
  /\ spec.override (withTTL "") = spec.Invalid
  /\ spec.override (withTTL "30") = spec.Seconds 30
  /\ spec.override fixtures.reqGoodChannel = spec.Absent.
Proof. repeat split; reflexivity. Qed.

(** What [getResponseCacheTTL] returns, in the terms of its own lookups:
    both tables are read at [RequestURI]. *)
Lemma getResponseCacheTTL_result (cacheConf : config.Cache.t)
    (request : http.Request.t) (w : World R) :
  let uri := http.Request.RequestURI request in
  let configured :=
    match config.Cache.OverwriteTTL cacheConf !! uri with
    | Some seconds => seconds
    | None => config.Cache.TTL cacheConf
    end in
  let ttl :=
    match spec.override request with
    | spec.Seconds n => time.mul n time.Second
    | _ => time.mul configured time.Second
    end in
  exists w1,
    route.getResponseCacheTTL cacheConf request w
    = ((ttl, lookupBool (config.Cache.DisabledAPIs cacheConf) uri), w1)
    /\ redis w1 = redis w
    /\ match spec.override request with
       | spec.Absent => w1 = w
       | spec.Invalid => exists err, w1 = logged w log.ErrorLevel err
       | spec.Seconds n => exists msg, w1 = logged w log.InfoLevel msg
       end.
Proof.
  intros uri configured ttl. subst uri configured ttl.
  unfold route.getResponseCacheTTL, bind.
  pose proof (getHeaderTTL_override request w) as Hh.
  destruct (spec.override request) as [| |n].
  - rewrite Hh. simpl. exists w. split; [|split; reflexivity].
    destruct (config.Cache.OverwriteTTL cacheConf !! _); reflexivity.
  - destruct Hh as [err ->]. simpl. exists (logged w log.ErrorLevel err).
    split; [|split; [reflexivity|eexists; reflexivity]].
    destruct (config.Cache.OverwriteTTL cacheConf !! _); reflexivity.
  - destruct Hh as [msg ->]. simpl. exists (logged w log.InfoLevel msg).
    split; [reflexivity|split; [reflexivity|eexists; reflexivity]].
Qed.


(** C4.  Fail open at the entry checkpoint.  When the path is not
    disabled, the key is derived and the store answers [Get] with an
    error, whichever it is (a transport error as well as the miss
    [redis.Nil]), the middleware calls [c.Next()]: it writes no response,
    leaves the store as it is and logs one line at info level; the routed
    request is then answered by the handler. *)
Theorem cache_get_error_fails_open
    (namespace : string) (cacheConf : config.Cache.t) (request : http.Request.t)
    (w : World R) (key : string) (err : error) :
  lookupBool (config.Cache.DisabledAPIs cacheConf)
             (http.URL.Path (http.Request.URL request)) = false ->
  GetCacheKey namespace (http.URL.String_ (http.Request.URL request)) = (key, None) ->
  cache.Get (redis w) key = inl err ->
  exists msg,
    middleware.Cache GetCacheKey namespace cacheConf request w
    = (gin.Next, logged w log.InfoLevel msg)
    /\ forall (parseQueries : http.Request.t -> ytrelay.Options * option error)
              (relayService_Search : ytrelay.Options -> error + string)
              (whitelist : whitelist.YouTubeAPI),
         config.Cache.IsEnabled cacheConf = true ->
         route.ytRouter_search GetCacheKey parseQueries relayService_Search
           namespace whitelist cacheConf request w
         = route.search GetCacheKey parseQueries relayService_Search
             namespace whitelist cacheConf request (logged w log.InfoLevel msg).
Proof.
  intros Hpath Hkey Hget.
  assert (Hmw : exists msg,
             middleware.Cache GetCacheKey namespace cacheConf request w
             = (gin.Next, logged w log.InfoLevel msg)).
  { unfold middleware.Cache. rewrite Hpath, Hkey.
    unfold bind, redis_Get. rewrite Hget. eexists. reflexivity. }
  destruct Hmw as [msg Hmw]. exists msg. split; [exact Hmw|].
  intros pq rs wl Hon. unfold route.ytRouter_search, bind.
  now rewrite Hon, Hmw.
Qed.

(** C10.  When the path is not disabled and the derivation of the cache
    key returns an error, the middleware answers with status 500 and the
    wrapped error and aborts: the store is neither read nor written, one
    line is logged at error level, and the routed request gets that
    answer whatever the handler and its collaborators would have done. *)
Theorem cache_key_error_aborts_with_500
    (namespace : string) (cacheConf : config.Cache.t) (request : http.Request.t)
    (w : World R) (key : string) (err : error) :
  lookupBool (config.Cache.DisabledAPIs cacheConf)
             (http.URL.Path (http.Request.URL request)) = false ->
  GetCacheKey namespace (http.URL.String_ (http.Request.URL request))
    = (key, Some err) ->
  let wrapped := errors_Wrap err "Fail to create cache key in cache middleware" in
  let answer :=
    {| gin.Status := http.StatusInternalServerError;
       gin.Payload := gin.JSON (ErrorResp wrapped) |} in
  middleware.Cache GetCacheKey namespace cacheConf request w
  = (gin.AbortWithStatusJSON answer, logged w log.ErrorLevel wrapped)
  /\ forall (parseQueries : http.Request.t -> ytrelay.Options * option error)
            (relayService_Search : ytrelay.Options -> error + string)
            (whitelist : whitelist.YouTubeAPI),
       config.Cache.IsEnabled cacheConf = true ->
       route.ytRouter_search GetCacheKey parseQueries relayService_Search
         namespace whitelist cacheConf request w
       = (answer, logged w log.ErrorLevel wrapped).
Proof.
  intros Hpath Hkey wrapped answer.
  assert (Hmw : middleware.Cache GetCacheKey namespace cacheConf request w
                = (gin.AbortWithStatusJSON answer, logged w log.ErrorLevel wrapped)).
  { unfold middleware.Cache. rewrite Hpath, Hkey. reflexivity. }
  split; [exact Hmw|].
  intros pq rs wl Hon. unfold route.ytRouter_search, bind.
  now rewrite Hon, Hmw.
Qed.

End CachingInterceptor.

(* ------------------------------------------------------------------ *)
(** ** The interceptor on the reference store *)

Section OnTheReferenceStore.
Import time.


(** The resolver on a table with one per-path entry: the entry applies to
    the request whose target is the path, the override header wins over
    it, and the request with a query string, whose target is not a key of
    the table, gets the default. *)
Example getResponseCacheTTL_values :
  fst (route.getResponseCacheTTL fixtures.cacheSearch30 fixtures.reqBare
         fixtures.world0) = (30 * Second, false)
  /\ fst (route.getResponseCacheTTL fixtures.cacheSearch30 fixtures.reqBareTTL5
            fixtures.world0) = (5 * Second, false)
  /\ fst (route.getResponseCacheTTL fixtures.cacheSearch30 fixtures.reqGoodChannel
            fixtures.world0) = (600 * Second, false)
  /\ fst (route.getResponseCacheTTL fixtures.cacheOn fixtures.reqGoodChannel
            fixtures.world0) = (600 * Second, false).
Proof. repeat split; vm_compute; reflexivity. Qed.


Lemma cache_get_error_fails_open_witness :
  cache.Get (redis fixtures.worldDown) fixtures.keyGoodChannel
    = inl memstore.transportError
  /\ exists msg,
       middleware.Cache plainKey "yt-relay" fixtures.cacheOn
         fixtures.reqGoodChannel fixtures.worldDown
       = (gin.Next, logged fixtures.worldDown log.InfoLevel msg)
       /\ forall (parseQueries : http.Request.t -> ytrelay.Options * option error)
                 (relayService_Search : ytrelay.Options -> error + string)
                 (whitelist : whitelist.YouTubeAPI),
            config.Cache.IsEnabled fixtures.cacheOn = true ->
            route.ytRouter_search plainKey parseQueries relayService_Search
              "yt-relay" whitelist fixtures.cacheOn fixtures.reqGoodChannel
              fixtures.worldDown
            = route.search plainKey parseQueries relayService_Search
                "yt-relay" whitelist fixtures.cacheOn fixtures.reqGoodChannel
                (logged fixtures.worldDown log.InfoLevel msg).
Proof.
  split; [reflexivity|].
  apply (cache_get_error_fails_open plainKey "yt-relay" fixtures.cacheOn
           fixtures.reqGoodChannel fixtures.worldDown fixtures.keyGoodChannel
           memstore.transportError).
  - reflexivity.
  - reflexivity.
  - reflexivity.
Defined.

Lemma cache_key_error_aborts_with_500_witness :
  fst (middleware.Cache failingKey "yt-relay" fixtures.cacheOn
         fixtures.reqGoodChannel fixtures.world0)
  = gin.AbortWithStatusJSON
      {| gin.Status := 500;
         gin.Payload :=
           gin.JSON (ErrorResp
             "Fail to create cache key in cache middleware: hash: short write") |}
  /\ fst (route.ytRouter_search failingKey fixtures.parseQueries fixtures.relayOK
            "yt-relay" fixtures.api0 fixtures.cacheOn fixtures.reqGoodChannel
            fixtures.world0)
     = {| gin.Status := 500;
          gin.Payload :=
            gin.JSON (ErrorResp
              "Fail to create cache key in cache middleware: hash: short write") |}.
Proof.
  pose proof (cache_key_error_aborts_with_500 failingKey "yt-relay"
                fixtures.cacheOn fixtures.reqGoodChannel fixtures.world0
                "" "hash: short write" eq_refl eq_refl) as [Hmw Hroute].
  split.
  - rewrite Hmw. reflexivity.
  - rewrite (Hroute fixtures.parseQueries fixtures.relayOK fixtures.api0 eq_refl).
    reflexivity.
Defined.

(** C1, on the code.  [saveErrCache] does not use the status code it is
    given: what it stores is what it would store for status 200.  On the
    request [GET /youtube/v3/search?part=snippet&channelId=bad] the
    handler answers 400 and the body is cached for the error TTL of ten
    seconds, with status code 200; the same request one second later is
    answered by the middleware, without the handler, with the cached body
    and status 200. *)
Theorem error_response_is_cached_with_status_ok :
  (forall (R : Type) (rediser : cache.Rediser R) (codec : json.Codec)
          (GetCacheKey : cache.KeyDeriver) (isEnabled : bool)
          (cacheConf : config.Cache.t) (appName : string)
          (request : http.Request.t) (code : Z) (resp : Resp) (w : World R),
      route.saveErrCache GetCacheKey isEnabled cacheConf appName request code resp w
      = route.saveErrCache GetCacheKey isEnabled cacheConf appName request
          http.StatusOK resp w)
  /\ let serve :=
       route.ytRouter_search plainKey fixtures.parseQueries fixtures.relayOK
         "yt-relay" fixtures.api0 fixtures.cacheOn fixtures.reqBadChannel in
     let first := serve fixtures.world0 in
     let second := serve (fixtures.later (snd first)) in
     fst first
     = {| gin.Status := 400;
          gin.Payload := gin.JSON (ErrorResp "channelId(bad) is invalid") |}
     /\ json.Marshal (ErrorResp "channelId(bad) is invalid")
        = inr fixtures.badChannelBody
     /\ memstore.writtenTTL (redis (snd first)) fixtures.keyBadChannel
        = Some (10 * Second)
     /\ fixtures.stored (snd first) fixtures.keyBadChannel
        = Some {| cache.StatusCode := 200;
                  cache.Response := fixtures.badChannelBody |}
     /\ fst (middleware.Cache plainKey "yt-relay" fixtures.cacheOn
               fixtures.reqBadChannel (fixtures.later (snd first)))
        = gin.AbortWithStatusJSON
            {| gin.Status := 200;
               gin.Payload := gin.RawMessage fixtures.badChannelBody |}
     /\ fst second
        = {| gin.Status := 200;
             gin.Payload := gin.RawMessage fixtures.badChannelBody |}.
Proof.
  split; [reflexivity|].
  cbv zeta. repeat split; vm_compute; reflexivity.
Qed.

(** C2, on the code.  [/youtube/v3/search] is a disabled path and the
    request carries a query string.  The entry checkpoint skips the cache:
    it calls [c.Next()] and does not touch the store.  The exit checkpoint
    does not: [getResponseCacheTTL] reads the table of disabled paths at
    [RequestURI], which holds the query string, finds nothing, and the
    response is written to the store with the default TTL. *)
Theorem disabled_path_with_query_is_written :
  (forall (R : Type) (rediser : cache.Rediser R) (codec : json.Codec)
          (cacheConf : config.Cache.t) (request : http.Request.t) (w : World R),
      snd (fst (route.getResponseCacheTTL cacheConf request w))
      = lookupBool (config.Cache.DisabledAPIs cacheConf)
                   (http.Request.RequestURI request))
  /\ let after :=
       route.ytRouter_search plainKey fixtures.parseQueries fixtures.relayOK
         "yt-relay" fixtures.api0 fixtures.cacheSearchDisabled
         fixtures.reqGoodChannel fixtures.world0 in
     spec.disabled fixtures.cacheSearchDisabled fixtures.reqGoodChannel = true
     /\ middleware.Cache plainKey "yt-relay" fixtures.cacheSearchDisabled
          fixtures.reqGoodChannel fixtures.world0
        = (gin.Next,
           logged fixtures.world0 log.InfoLevel
             "cache is disabled for /youtube/v3/search")
     /\ fst after
        = {| gin.Status := 200; gin.Payload := gin.JSON (Relayed "{}") |}
     /\ memstore.entries (redis fixtures.world0) !! fixtures.keyGoodChannel = None
     /\ fixtures.stored (snd after) fixtures.keyGoodChannel
        = Some {| cache.StatusCode := 200; cache.Response := "{}" |}
     /\ memstore.writtenTTL (redis (snd after)) fixtures.keyGoodChannel
        = Some (600 * Second).
Proof.
  split.
  - intros R rediser codec cacheConf request w.
    destruct (getResponseCacheTTL_result cacheConf request w) as (w1 & Hr & _).
    now rewrite Hr.
  - cbv zeta. repeat split; vm_compute; reflexivity.
Qed.

End OnTheReferenceStore.

(* ================================================================== *)
(** * Further properties of the sources *)

(* ------------------------------------------------------------------ *)
(** ** [Conf.Valid] *)

Section Validation.
Import config.

Lemma matchAppName_true (s : string) :
  matchAppName s = true
  <-> s <> "" /\ Forall (fun a => appNameByte a = true) (list_ascii_of_string s).
Proof.
  assert (Hall : forall t, allAppNameBytes t = true
                 <-> Forall (fun a => appNameByte a = true) (list_ascii_of_string t)).
  { induction t as [|a t IH]; simpl.
    - split; [constructor|reflexivity].
    - rewrite andb_true_iff, IH, Forall_cons. reflexivity. }
  destruct s as [|a s].
  - simpl. split; [discriminate|]. intros [H _]. now contradict H.
  - unfold matchAppName. rewrite Hall. split.
    + intros H. split; [discriminate|exact H].
    + intros [_ H]. exact H.
Qed.

Lemma someTTLNotPositive_false (m : gmap string Z) :
  someTTLNotPositive m = false <-> map_Forall (fun _ ttl => 0 < ttl) m.
Proof.
  unfold someTTLNotPositive. rewrite map_Forall_to_list.
  induction (map_to_list m) as [|[api ttl] l IH]; simpl.
  - split; [constructor|reflexivity].
  - rewrite orb_false_iff, IH, Forall_cons, Z.leb_gt. reflexivity.
Qed.

Lemma someAddrEmpty_false (addrs : list RedisAddress.t) :
  someAddrEmpty addrs = false
  <-> forall a, In a addrs -> RedisAddress.Addr a <> "".
Proof.
  unfold someAddrEmpty. induction addrs as [|a l IH]; simpl.
  - split; [intros _ a []|reflexivity].
  - rewrite orb_false_iff, IH. split.
    + intros [Ha Hl] b [<-|Hb]; [|now apply Hl].
      intros Hempty. rewrite Hempty in Ha. discriminate.
    + intros Hall. split.
      * destruct (RedisAddress.Addr a) eqn:E; [|reflexivity].
        exfalso. apply (Hall a); [now left|exact E].
      * intros b Hb. apply Hall. now right.
Qed.

Lemma BadAddrs_accepted (addrs : list RedisAddress.t) :
  ~ spec.BadAddrs addrs ->
  (length addrs =? 0)%nat = false /\ someAddrEmpty addrs = false.
Proof.
  intros Hgood. split.
  - destruct addrs; [|reflexivity]. exfalso. apply Hgood. now left.
  - apply someAddrEmpty_false. intros a Hin Hempty.
    apply Hgood. right. exists a. now split.
Qed.

(** The part of [Valid] that reads the Redis block accepts what is not
    inconsistent. *)
Lemma Valid_accepts_consistent (c : Conf.t) :
  matchAppName (Conf.AppName c) = true ->
  Conf.ApiKey c <> "" ->
  Whitelists.ChannelIDs (Conf.Whitelists c) <> ∅ ->
  Conf.CmsURL c <> "" ->
  (Cache.IsEnabled (Conf.Cache c) = true ->
   0 < Cache.TTL (Conf.Cache c) /\ 0 < Cache.ErrorTTL (Conf.Cache c)
   /\ map_Forall (fun _ ttl => 0 < ttl) (Cache.OverwriteTTL (Conf.Cache c))) ->
  (forall r, Conf.Redis c = Some r -> ~ spec.Inconsistent r) ->
  Valid c = true.
Proof.
  intros Hname Hkey Hch Hcms Hcache Hredis. unfold Valid.
  rewrite Hname. simpl.
  apply String.eqb_neq in Hkey, Hcms. rewrite Hkey, Hcms.
  assert (Hsize : (size (Whitelists.ChannelIDs (Conf.Whitelists c)) =? 0)%nat = false).
  { apply Nat.eqb_neq. intros Hz. apply Hch. now apply map_size_empty_iff. }
  rewrite Hsize.
  assert (Hguards :
    Cache.IsEnabled (Conf.Cache c) && (Cache.TTL (Conf.Cache c) <=? 0) = false
    /\ Cache.IsEnabled (Conf.Cache c) && (Cache.ErrorTTL (Conf.Cache c) <=? 0) = false
    /\ Cache.IsEnabled (Conf.Cache c)
       && someTTLNotPositive (Cache.OverwriteTTL (Conf.Cache c)) = false).
  { destruct (Cache.IsEnabled (Conf.Cache c)); [|now repeat split].
    destruct (Hcache eq_refl) as (H1 & H2 & H3). simpl.
    repeat split; [now apply Z.leb_gt | now apply Z.leb_gt
                   | now apply someTTLNotPositive_false]. }
  destruct Hguards as (-> & -> & ->).
  destruct (Conf.Redis c) as [r|]; [|reflexivity].
  specialize (Hredis r eq_refl). unfold spec.Inconsistent in Hredis. simpl in Hredis.
  destruct (String.eqb (RedisService.Type_ r) Cluster) eqn:E1.
  { apply String.eqb_eq in E1.
    destruct (RedisService.Cluster r) as [cluster|].
    - destruct (BadAddrs_accepted (RedisCluster.Addrs cluster)) as [-> ->];
        [|reflexivity]. intros Hbad. apply Hredis. right. left. now split.
    - exfalso. apply Hredis. right. left. now split. }
  destruct (String.eqb (RedisService.Type_ r) Single) eqn:E2.
  { apply String.eqb_eq in E2.
    destruct (RedisService.SingleInstance r) as [single|].
    - destruct (String.eqb
                  (RedisAddress.Addr (RedisSingleInstance.Instance single)) "")
        eqn:E; [|reflexivity].
      apply String.eqb_eq in E. exfalso. apply Hredis.
      right. right. left. now split.
    - exfalso. apply Hredis. right. right. left. now split. }
  destruct (String.eqb (RedisService.Type_ r) Sentinel) eqn:E3.
  { apply String.eqb_eq in E3.
    destruct (RedisService.Sentinel r) as [sentinel|].
    - destruct (BadAddrs_accepted (RedisSentinel.Addrs sentinel)) as [-> ->];
        [|reflexivity]. intros Hbad. apply Hredis. do 3 right. left. now split.
    - exfalso. apply Hredis. do 3 right. left. now split. }
  destruct (String.eqb (RedisService.Type_ r) Replica) eqn:E4.
  { apply String.eqb_eq in E4.
    destruct (RedisService.Replica r) as [replica|].
    - destruct (BadAddrs_accepted (RedisReplicaInstances.MasterAddrs replica))
        as [-> ->].
      { intros Hbad. apply Hredis. do 4 right. split; [exact E4|now left]. }
      destruct (BadAddrs_accepted (RedisReplicaInstances.SlaveAddrs replica))
        as [-> ->]; [|reflexivity].
      intros Hbad. apply Hredis. do 4 right. split; [exact E4|now right].
    - exfalso. apply Hredis. do 4 right. now split. }
  exfalso. apply Hredis. left.
  apply String.eqb_neq in E1, E2, E3, E4. now repeat split.
Qed.

(** The TTLs of an enabled cache that [Valid] accepts are positive. *)
Lemma Valid_cache_positive (c : Conf.t) :
  Valid c = true ->
  Cache.IsEnabled (Conf.Cache c) = true ->
  0 < Cache.TTL (Conf.Cache c) /\ 0 < Cache.ErrorTTL (Conf.Cache c)
  /\ map_Forall (fun _ ttl => 0 < ttl) (Cache.OverwriteTTL (Conf.Cache c)).
Proof.
  intros Hvalid Hon. unfold Valid in Hvalid.
  destruct (negb (matchAppName (Conf.AppName c))); [discriminate|].
  destruct (String.eqb (Conf.ApiKey c) ""); [discriminate|].
  destruct (size _ =? 0)%nat; [discriminate|].
  destruct (String.eqb (Conf.CmsURL c) ""); [discriminate|].
  rewrite Hon in Hvalid. simpl in Hvalid.
  destruct (Cache.TTL (Conf.Cache c) <=? 0) eqn:H1; [discriminate|].
  destruct (Cache.ErrorTTL (Conf.Cache c) <=? 0) eqn:H2; [discriminate|].
  destruct (someTTLNotPositive _) eqn:H3; [discriminate|].
  repeat split; [now apply Z.leb_gt | now apply Z.leb_gt
                 | now apply someTTLNotPositive_false].
Qed.

(** X1.  [Valid] accepts a configuration exactly when the application
    name is a non-empty run of letters, digits, dots and hyphens, the API
    key and the CMS URL are not empty, there is a channel on the
    allow-list, an enabled cache has positive default, error and per-path
    TTLs, and the Redis block, when there is one, is not inconsistent. *)
Theorem Valid_characterised (c : Conf.t) :
  Valid c = true <->
  (Conf.AppName c <> ""
   /\ Forall (fun a => appNameByte a = true)
        (list_ascii_of_string (Conf.AppName c)))
  /\ Conf.ApiKey c <> ""
  /\ Whitelists.ChannelIDs (Conf.Whitelists c) <> ∅
  /\ Conf.CmsURL c <> ""
  /\ (Cache.IsEnabled (Conf.Cache c) = true ->
      0 < Cache.TTL (Conf.Cache c) /\ 0 < Cache.ErrorTTL (Conf.Cache c)
      /\ map_Forall (fun _ ttl => 0 < ttl) (Cache.OverwriteTTL (Conf.Cache c)))
  /\ (forall r, Conf.Redis c = Some r -> ~ spec.Inconsistent r).
Proof.
  split.
  - intros Hvalid.
    assert (Hredis : forall r, Conf.Redis c = Some r -> ~ spec.Inconsistent r).
    { intros r Hr Hinc. pose proof (Valid_rejects_inconsistent c r Hr Hinc).
      congruence. }
    unfold Valid in Hvalid.
    destruct (matchAppName (Conf.AppName c)) eqn:Hname; [|discriminate].
    destruct (String.eqb (Conf.ApiKey c) "") eqn:Hkey; [discriminate|].
    destruct (size _ =? 0)%nat eqn:Hsize; [discriminate|].
    destruct (String.eqb (Conf.CmsURL c) "") eqn:Hcms; [discriminate|].
    simpl in Hvalid.
    split; [now apply matchAppName_true|].
    split; [now apply String.eqb_neq|].
    split. { intros He. rewrite He in Hsize. discriminate. }
    split; [now apply String.eqb_neq|].
    split; [|exact Hredis].
    intros Hon. rewrite Hon in Hvalid. simpl in Hvalid.
    destruct (Cache.TTL (Conf.Cache c) <=? 0) eqn:H1; [discriminate|].
    destruct (Cache.ErrorTTL (Conf.Cache c) <=? 0) eqn:H2; [discriminate|].
    destruct (someTTLNotPositive _) eqn:H3; [discriminate|].
    repeat split; [now apply Z.leb_gt | now apply Z.leb_gt
                   | now apply someTTLNotPositive_false].
  - intros (Hname & Hkey & Hch & Hcms & Hcache & Hredis).
    apply Valid_accepts_consistent; try assumption.
    now apply matchAppName_true.
Qed.

End Validation.

(* ------------------------------------------------------------------ *)
(** ** The TTL that a validated configuration gives *)

Section ValidatedTTL.
Import config.

Context {R : Type} `{!cache.Rediser R} `{!json.Codec}.

(** X2.  With a configuration that [Valid] accepts and an enabled cache,
    the TTL that [getResponseCacheTTL] resolves is a whole, positive
    number of seconds, and so is the error TTL, as long as the counts of
    seconds involved (configured or carried by the override header) do
    not exceed [9223372036], the largest that fits in a [Duration]. *)
Theorem validated_ttl_is_positive
    (c : Conf.t) (request : http.Request.t) (w : World R) :
  Valid c = true ->
  Cache.IsEnabled (Conf.Cache c) = true ->
  Cache.TTL (Conf.Cache c) <= 9223372036 ->
  Cache.ErrorTTL (Conf.Cache c) <= 9223372036 ->
  map_Forall (fun _ ttl => ttl <= 9223372036) (Cache.OverwriteTTL (Conf.Cache c)) ->
  (forall n, spec.override request = spec.Seconds n -> n <= 9223372036) ->
  (exists n, 0 < n <= 9223372036
     /\ fst (fst (route.getResponseCacheTTL (Conf.Cache c) request w))
        = n * time.Second)
  /\ time.mul (Cache.ErrorTTL (Conf.Cache c)) time.Second
     = Cache.ErrorTTL (Conf.Cache c) * time.Second
  /\ 0 < Cache.ErrorTTL (Conf.Cache c).
Proof.
  intros Hvalid Hon Httl Herr Hover Hheader.
  destruct (Valid_cache_positive c Hvalid Hon) as (Hpos & Hepos & Hopos).
  split; [|split; [apply mul_Second_of_seconds; lia|exact Hepos]].
  destruct (getResponseCacheTTL_result (Conf.Cache c) request w) as (w1 & -> & _).
  simpl.
  destruct (spec.override request) as [| |n] eqn:Ho.
  - destruct (Cache.OverwriteTTL (Conf.Cache c) !! _) as [seconds|] eqn:Hl.
    + exists seconds. apply Hopos in Hl as Hp. apply Hover in Hl as Hb. simpl in Hp, Hb.
      split; [lia|apply mul_Second_of_seconds; lia].
    + exists (Cache.TTL (Conf.Cache c)).
      split; [lia|apply mul_Second_of_seconds; lia].
  - destruct (Cache.OverwriteTTL (Conf.Cache c) !! _) as [seconds|] eqn:Hl.
    + exists seconds. apply Hopos in Hl as Hp. apply Hover in Hl as Hb. simpl in Hp, Hb.
      split; [lia|apply mul_Second_of_seconds; lia].
    + exists (Cache.TTL (Conf.Cache c)).
      split; [lia|apply mul_Second_of_seconds; lia].
  - exists n. specialize (Hheader n eq_refl).
    assert (0 < n).
    { unfold spec.override in Ho.
      destruct (http.Request.Header request !! _) as [[|v vs]|]; try discriminate.
      destruct (strconv.Atoi v); try discriminate.
      destruct (0 <? _) eqn:E; [|discriminate].
      injection Ho as <-. now apply Z.ltb_lt. }
    split; [lia|apply mul_Second_of_seconds; lia].
Qed.

(** X3.  The bound is sharp: an override header that carries between
    [9223372037] and [18446744073] seconds is accepted as valid, and the
    TTL resolved from it is negative, the product having wrapped. *)
Theorem oversized_override_wraps
    (cacheConf : Cache.t) (request : http.Request.t) (w : World R) (n : Z) :
  spec.override request = spec.Seconds n ->
  9223372036 < n <= 18446744073 ->
  fst (fst (route.getResponseCacheTTL cacheConf request w))
    = n * time.Second - 2 ^ 64
  /\ fst (fst (route.getResponseCacheTTL cacheConf request w)) < 0.
Proof.
  intros Ho Hn.
  destruct (getResponseCacheTTL_result cacheConf request w) as (w1 & -> & _).
  simpl. rewrite Ho.
  assert (Hmul : time.mul n time.Second = n * time.Second - 2 ^ 64).
  { unfold time.mul, time.wrap64, time.Second.
    rewrite <- (Z.mod_unique_pos (n * 1000000000 + 2 ^ 63) (2 ^ 64) 1
                  (n * 1000000000 + 2 ^ 63 - 2 ^ 64)); lia. }
  rewrite Hmul. unfold time.Second. lia.
Qed.

End ValidatedTTL.

(* ------------------------------------------------------------------ *)
(** ** Strings: splitting, trimming, printing and reading numbers *)

Section StringFacts.

Lemma bytes_app (s t : string) :
  list_ascii_of_string (s +:+ t)
  = (list_ascii_of_string s ++ list_ascii_of_string t)%list.
Proof. induction s as [|a s IH]; simpl; [reflexivity|now rewrite IH]. Qed.

Lemma bytes_inj (s t : string) :
  list_ascii_of_string s = list_ascii_of_string t -> s = t.
Proof.
  intros H. rewrite <- (string_of_list_ascii_of_string s),
    <- (string_of_list_ascii_of_string t). now rewrite H.
Qed.

Lemma bytes_rev_app (s t : string) :
  list_ascii_of_string (String.rev_app s t)
  = (rev (list_ascii_of_string s) ++ list_ascii_of_string t)%list.
Proof.
  revert t. induction s as [|a s IH]; intros t; simpl; [reflexivity|].
  rewrite IH. simpl. now rewrite <- app_assoc.
Qed.

Lemma bytes_rev (s : string) :
  list_ascii_of_string (String.rev s) = rev (list_ascii_of_string s).
Proof. unfold String.rev. rewrite bytes_rev_app. simpl. apply app_nil_r. Qed.

Lemma rev_rev (s : string) : String.rev (String.rev s) = s.
Proof. apply bytes_inj. rewrite !bytes_rev. apply rev_involutive. Qed.

(** *** [Split] and [cut] on texts without the separator *)

Lemma Split_free (sep : ascii) (s : string) :
  format.free sep s -> gostrings.Split sep s = [s].
Proof.
  unfold format.free. induction s as [|a s IH]; simpl; intros H; [reflexivity|].
  apply Forall_cons in H as [Ha Hs].
  apply Ascii.eqb_neq in Ha. rewrite Ha, (IH Hs). reflexivity.
Qed.

Lemma Split_app (sep : ascii) (s t : string) :
  format.free sep s ->
  gostrings.Split sep (s +:+ String sep t) = s :: gostrings.Split sep t.
Proof.
  unfold format.free. induction s as [|a s IH]; simpl; intros H.
  - now rewrite Ascii.eqb_refl.
  - apply Forall_cons in H as [Ha Hs].
    apply Ascii.eqb_neq in Ha. rewrite Ha, (IH Hs). reflexivity.
Qed.

Lemma cut_app (sep : ascii) (s t : string) :
  format.free sep s -> gostrings.cut sep (s +:+ String sep t) = Some (s, t).
Proof.
  unfold format.free. induction s as [|a s IH]; simpl; intros H.
  - now rewrite Ascii.eqb_refl.
  - apply Forall_cons in H as [Ha Hs].
    apply Ascii.eqb_neq in Ha. rewrite Ha, (IH Hs). reflexivity.
Qed.

Lemma Split_join (sep : ascii) (pieces : list string) :
  pieces <> [] ->
  Forall (format.free sep) pieces ->
  gostrings.Split sep (format.join (String sep "") pieces) = pieces.
Proof.
  induction pieces as [|p [|q rest] IH]; intros Hne Hfree.
  - contradiction.
  - simpl. apply Split_free. now inversion Hfree.
  - apply Forall_cons in Hfree as [Hp Hrest].
    change (format.join (String sep "") (p :: q :: rest))
      with (p +:+ String sep (format.join (String sep "") (q :: rest))).
    rewrite Split_app by exact Hp. f_equal. apply IH; [discriminate|exact Hrest].
Qed.

(** *** Trimming a text that has no white space at its ends *)

Lemma graphic_range (a : ascii) :
  format.graphic a = true <-> (33 <= nat_of_ascii a <= 126)%nat.
Proof.
  unfold format.graphic. rewrite andb_true_iff, !Nat.leb_le. reflexivity.
Qed.

Lemma graphic_not_space (a : ascii) :
  format.graphic a = true ->
  gostrings.asciiSpace a = false
  /\ (forall b, gostrings.space2 a b = false)
  /\ (forall b, gostrings.space2 b a = false)
  /\ (forall b c, gostrings.space3 a b c = false)
  /\ (forall b c, gostrings.space3 c b a = false).
Proof.
  intros H. apply graphic_range in H.
  unfold gostrings.asciiSpace, gostrings.space2, gostrings.space3.
  repeat split; intros; decide_bytes; simpl;
    rewrite ?andb_false_r, ?orb_false_r; reflexivity.
Qed.

Lemma TrimLeft_graphic (a : ascii) (s : string) :
  format.graphic a = true ->
  gostrings.TrimLeft (String a s) = String a s.
Proof.
  intros H. destruct (graphic_not_space a H) as (H1 & H2 & _ & H3 & _).
  simpl. rewrite H1. destruct s as [|b [|c s]]; [reflexivity| |].
  - now rewrite H2.
  - now rewrite H2, H3.
Qed.

Lemma trimReversed_graphic (a : ascii) (s : string) :
  format.graphic a = true ->
  gostrings.trimReversed (String a s) = String a s.
Proof.
  intros H. destruct (graphic_not_space a H) as (H1 & _ & H2 & _ & H3).
  simpl. rewrite H1. destruct s as [|b [|c s]]; [reflexivity| |].
  - now rewrite H2.
  - now rewrite H2, H3.
Qed.

(** A text of bytes that print is its own trimming. *)
Lemma TrimSpace_graphic (s : string) :
  Forall (fun a => format.graphic a = true) (list_ascii_of_string s) ->
  gostrings.TrimSpace s = s.
Proof.
  intros H. unfold gostrings.TrimSpace, gostrings.TrimRight.
  assert (Hl : gostrings.TrimLeft s = s).
  { destruct s as [|a s]; [reflexivity|]. apply TrimLeft_graphic.
    now inversion H. }
  rewrite Hl.
  assert (Hr : gostrings.trimReversed (String.rev s) = String.rev s).
  { assert (Hrev : Forall (fun a => format.graphic a = true)
                     (list_ascii_of_string (String.rev s))).
    { rewrite bytes_rev. now apply Forall_rev. }
    destruct (String.rev s) as [|a r]; [reflexivity|].
    apply trimReversed_graphic. now inversion Hrev. }
  rewrite Hr. apply rev_rev.
Qed.

(** *** [Atoi] reads what [%d] prints *)

Lemma digit_pretty_N_char (d : N) :
  (d < 10)%N -> strconv.digit (pretty_N_char d) = Some (Z.of_N d).
Proof.
  intros H.
  assert (d = 0 \/ d = 1 \/ d = 2 \/ d = 3 \/ d = 4 \/ d = 5 \/ d = 6
          \/ d = 7 \/ d = 8 \/ d = 9)%N as Hd by lia.
  repeat (destruct Hd as [->|Hd]; [reflexivity|]). now subst.
Qed.

Lemma digits_pretty_N_go (x : N) :
  forall s, strconv.digits (pretty_N_go x s) 0 = strconv.digits s (Z.of_N x).
Proof.
  induction (N.lt_wf_0 x) as [x _ IH]. intros s.
  destruct (N.eq_dec x 0%N) as [->|Hx]; [reflexivity|].
  rewrite pretty_N_go_step by lia.
  rewrite IH by (apply N.div_lt; lia).
  simpl. rewrite digit_pretty_N_char by (apply N.mod_lt; lia).
  f_equal. rewrite N2Z.inj_div, N2Z.inj_mod. simpl.
  pose proof (Z.div_mod (Z.of_N x) 10). lia.
Qed.

Lemma pretty_N_go_bytes (P : ascii -> Prop) (x : N) :
  (forall d, (d < 10)%N -> P (pretty_N_char d)) ->
  forall s, Forall P (list_ascii_of_string s) ->
            Forall P (list_ascii_of_string (pretty_N_go x s)).
Proof.
  intros Hchar. induction (N.lt_wf_0 x) as [x _ IH]. intros s Hs.
  destruct (N.eq_dec x 0%N) as [->|Hx]; [exact Hs|].
  rewrite pretty_N_go_step by lia.
  apply IH; [apply N.div_lt; lia|].
  simpl. constructor; [apply Hchar, N.mod_lt; lia|exact Hs].
Qed.

Lemma pretty_N_go_nonempty (x : N) :
  forall s, s <> "" -> pretty_N_go x s <> "".
Proof.
  induction (N.lt_wf_0 x) as [x _ IH]. intros s Hs.
  destruct (N.eq_dec x 0%N) as [->|Hx]; [exact Hs|].
  rewrite pretty_N_go_step by lia.
  apply IH; [apply N.div_lt; lia|discriminate].
Qed.

Lemma pretty_positive_digits (x : positive) :
  exists a r,
    pretty (Npos x) = String a r
    /\ Forall format.digitByte (list_ascii_of_string (String a r))
    /\ strconv.digits (String a r) 0 = Some (Zpos x).
Proof.
  unfold pretty, pretty_N. destruct (decide (Npos x = 0%N)) as [|_]; [discriminate|].
  assert (Hne : pretty_N_go (Npos x) "" <> "").
  { rewrite pretty_N_go_step by lia. apply pretty_N_go_nonempty. discriminate. }
  assert (Hd : Forall format.digitByte (list_ascii_of_string (pretty_N_go (Npos x) ""))).
  { apply pretty_N_go_bytes; [|constructor].
    intros d Hlt. unfold format.digitByte. now rewrite digit_pretty_N_char. }
  pose proof (digits_pretty_N_go (Npos x) "") as Hv. simpl in Hv.
  destruct (pretty_N_go (Npos x) "") as [|a r]; [contradiction|].
  exists a, r. repeat split; assumption.
Qed.

Lemma Atoi_digits (a : ascii) (r : string) (n : Z) :
  format.digitByte a ->
  strconv.digits (String a r) 0 = Some n ->
  0 <= n <= time.maxDuration ->
  strconv.Atoi (String a r) = inr n.
Proof.
  intros Ha Hd Hn. unfold format.digitByte in Ha.
  assert (Hrange : (n <? time.minDuration) || (time.maxDuration <? n) = false).
  { apply orb_false_iff. rewrite Z.ltb_ge, Z.ltb_ge.
    unfold time.minDuration in *. lia. }
  destruct a as [[] [] [] [] [] [] [] []];
    try (exfalso; apply Ha; reflexivity);
    unfold strconv.Atoi; rewrite Hd, Hrange; reflexivity.
Qed.

Lemma Atoi_pretty (n : Z) :
  time.minDuration <= n <= time.maxDuration ->
  strconv.Atoi (pretty n) = inr n.
Proof.
  intros Hn. destruct n as [|x|x].
  - reflexivity.
  - change (pretty (Zpos x)) with (pretty (Npos x)).
    destruct (pretty_positive_digits x) as (a & r & -> & Hd & Hv).
    apply Atoi_digits; [now inversion Hd|exact Hv|lia].
  - change (pretty (Zneg x)) with ("-" +:+ pretty (Npos x)).
    destruct (pretty_positive_digits x) as (a & r & -> & Hd & Hv).
    unfold strconv.Atoi.
    change ("-" +:+ String a r) with (String "-"%char (String a r)).
    cbv iota beta. rewrite Hv.
    assert (Hrange : (- Zpos x <? time.minDuration)
                     || (time.maxDuration <? - Zpos x) = false).
    { apply orb_false_iff. rewrite Z.ltb_ge, Z.ltb_ge.
      unfold time.maxDuration in *. lia. }
    rewrite Hrange. reflexivity.
Qed.

Lemma pretty_Z_bytes (n : Z) :
  Forall (fun a => format.digitByte a \/ a = "-"%char) (list_ascii_of_string (pretty n)).
Proof.
  destruct n as [|x|x].
  - constructor; [left; discriminate|constructor].
  - change (pretty (Zpos x)) with (pretty (Npos x)).
    destruct (pretty_positive_digits x) as (a & r & -> & Hd & _).
    eapply Forall_impl; [exact Hd|]. intros b Hb. now left.
  - change (pretty (Zneg x)) with ("-" +:+ pretty (Npos x)).
    destruct (pretty_positive_digits x) as (a & r & -> & Hd & _).
    constructor; [now right|].
    eapply Forall_impl; [exact Hd|]. intros b Hb. now left.
Qed.

End StringFacts.

(* ------------------------------------------------------------------ *)
(** ** The parsers of the environment *)

Section EnvironmentParsers.
Import config.

Lemma wordByte_facts (a : ascii) :
  format.wordByte a = true ->
  format.graphic a = true /\ a <> ","%char /\ a <> ":"%char.
Proof.
  unfold format.wordByte. rewrite !andb_true_iff, !negb_true_iff.
  intros [[Hg Hc] Hk]. apply Ascii.eqb_neq in Hc, Hk. now repeat split.
Qed.

Lemma digitByte_facts (a : ascii) :
  format.digitByte a \/ a = "-"%char ->
  format.graphic a = true /\ a <> ","%char /\ a <> ":"%char.
Proof.
  intros [Hd| ->]; [|repeat split; discriminate].
  unfold format.digitByte, strconv.digit in Hd.
  destruct ((48 <=? Z.of_nat (nat_of_ascii a)) && (Z.of_nat (nat_of_ascii a) <=? 57))
    eqn:E; [|contradiction].
  apply andb_true_iff in E as [E1 E2]. apply Z.leb_le in E1, E2.
  repeat split.
  - apply graphic_range. lia.
  - intros ->. compute in E1. now apply E1.
  - intros ->. compute in E2. now apply E2.
Qed.

(** A word, a colon and a printed number: what the text is made of. *)
Lemma word_colon_number (k : string) (n : Z) :
  format.word k ->
  let e := k +:+ ":" +:+ pretty n in
  gostrings.TrimSpace e = e
  /\ String.eqb e "" = false
  /\ gostrings.SplitN2 ":" e = [k; pretty n]
  /\ format.free "," e
  /\ gostrings.TrimSpace k = k
  /\ gostrings.TrimSpace (pretty n) = pretty n.
Proof.
  intros Hk e. subst e.
  assert (Hkb : Forall (fun a => format.graphic a = true /\ a <> ","%char /\ a <> ":"%char)
                  (list_ascii_of_string k)).
  { eapply Forall_impl; [exact Hk|]. intros a. apply wordByte_facts. }
  assert (Hnb : Forall (fun a => format.graphic a = true /\ a <> ","%char /\ a <> ":"%char)
                  (list_ascii_of_string (pretty n))).
  { eapply Forall_impl; [apply pretty_Z_bytes|]. intros a. apply digitByte_facts. }
  assert (Hall : Forall (fun a => format.graphic a = true /\ a <> ","%char)
                   (list_ascii_of_string (k +:+ ":" +:+ pretty n))).
  { rewrite bytes_app. apply Forall_app. split.
    - eapply Forall_impl; [exact Hkb|]. intros a (? & ? & _). now split.
    - simpl. constructor; [split; [reflexivity|discriminate]|].
      eapply Forall_impl; [exact Hnb|]. intros a (? & ? & _). now split. }
  repeat split.
  - apply TrimSpace_graphic. eapply Forall_impl; [exact Hall|]. now intros a [? _].
  - apply String.eqb_neq. intros He.
    apply (f_equal list_ascii_of_string) in He. rewrite bytes_app in He.
    simpl in He. now destruct (list_ascii_of_string k).
  - unfold gostrings.SplitN2.
    change (k +:+ ":" +:+ pretty n) with (k +:+ String ":"%char (pretty n)).
    rewrite cut_app; [reflexivity|].
    eapply Forall_impl; [exact Hkb|]. now intros a (_ & _ & ?).
  - eapply Forall_impl; [exact Hall|]. now intros a [_ ?].
  - apply TrimSpace_graphic. eapply Forall_impl; [exact Hkb|]. now intros a [? _].
  - apply TrimSpace_graphic. eapply Forall_impl; [exact Hnb|]. now intros a [? _].
Qed.

Lemma parseAddressEntries_formatted (addrs : list RedisAddress.t) :
  forall acc,
    Forall (fun a => format.word (RedisAddress.Addr a)
                     /\ time.minDuration <= RedisAddress.Port a <= time.maxDuration)
           addrs ->
    parseAddressEntries (map format.address addrs) acc = ((acc ++ addrs)%list, None).
Proof.
  induction addrs as [|[host port] rest IH]; intros acc Hok; simpl.
  - now rewrite app_nil_r.
  - apply Forall_cons in Hok as [[Hhost Hport] Hrest]. simpl in Hhost, Hport.
    destruct (word_colon_number host port Hhost) as (Ht & He & Hs & _).
    unfold format.address at 1 2 3. simpl RedisAddress.Addr. simpl RedisAddress.Port.
    rewrite Ht, He, Hs, (Atoi_pretty port Hport).
    rewrite (IH _ Hrest). now rewrite <- app_assoc.
Qed.

(** X4.  [parseAddresses] reads back a list written as [host:port]
    entries joined by commas: every host made of printing bytes other
    than the comma and the colon (the empty host too), every port in the
    range of [int], in the order given and without an error. *)
Theorem parseAddresses_reads_formatted (addrs : list RedisAddress.t) :
  Forall (fun a => format.word (RedisAddress.Addr a)
                   /\ time.minDuration <= RedisAddress.Port a <= time.maxDuration)
         addrs ->
  parseAddresses (format.join "," (map format.address addrs)) = (addrs, None).
Proof.
  intros Hok. unfold parseAddresses.
  destruct addrs as [|a rest]; [reflexivity|].
  rewrite (Split_join ","%char).
  - now rewrite parseAddressEntries_formatted.
  - discriminate.
  - apply Forall_map. eapply Forall_impl; [exact Hok|].
    intros [host port] [Hhost _]. simpl in Hhost.
    now destruct (word_colon_number host port Hhost) as (_ & _ & _ & Hf & _).
Qed.

Lemma parseCSVMapEntries_formatted (kvs : list (string * Z)) :
  forall m,
    Forall (fun kv => format.word (fst kv)
                      /\ time.minDuration <= snd kv <= time.maxDuration) kvs ->
    parseCSVMapEntries (map format.binding kvs) m
    = (fold_left (fun m kv => <[fst kv := snd kv]> m) kvs m, None).
Proof.
  induction kvs as [|[k v] rest IH]; intros m Hok; simpl.
  - reflexivity.
  - apply Forall_cons in Hok as [[Hk Hv] Hrest]. simpl in Hk, Hv.
    destruct (word_colon_number k v Hk) as (Ht & He & Hs & _ & Htk & Htv).
    unfold format.binding at 1 2 3. simpl fst. simpl snd.
    rewrite Ht, He, Hs, Htv, (Atoi_pretty v Hv), Htk.
    now rewrite (IH _ Hrest).
Qed.

(** X5.  [parseCSVMap] reads a list written as [key:value] entries joined
    by commas, for keys made of printing bytes other than the comma and
    the colon and values in the range of [int]: the map binds every key to
    its value, and a key written twice to the value written last. *)
Theorem parseCSVMap_reads_formatted (kvs : list (string * Z)) :
  Forall (fun kv => format.word (fst kv)
                    /\ time.minDuration <= snd kv <= time.maxDuration) kvs ->
  parseCSVMap (format.join "," (map format.binding kvs))
  = (fold_left (fun m kv => <[fst kv := snd kv]> m) kvs ∅, None).
Proof.
  intros Hok. unfold parseCSVMap.
  destruct kvs as [|kv rest]; [reflexivity|].
  rewrite (Split_join ","%char).
  - now rewrite parseCSVMapEntries_formatted.
  - discriminate.
  - apply Forall_map. eapply Forall_impl; [exact Hok|].
    intros [k v] [Hk _]. simpl in Hk.
    now destruct (word_colon_number k v Hk) as (_ & _ & _ & Hf & _).
Qed.

Lemma parseCSVBoolMapEntries_lookup (entries : list string) (k : string) :
  forall m,
    parseCSVBoolMapEntries entries m !! k
    = if decide (k <> "" /\ k ∈ map gostrings.TrimSpace entries)
      then Some true else m !! k.
Proof.
  induction entries as [|e rest IH]; intros m; simpl.
  - destruct (decide _) as [[_ Hin]|_]; [|reflexivity].
    now apply elem_of_nil in Hin.
  - destruct (String.eqb (gostrings.TrimSpace e) "") eqn:He.
    + apply String.eqb_eq in He. rewrite IH.
      destruct (decide _) as [[Hk Hin]|Hn]; destruct (decide _) as [[Hk' Hin']|Hn'];
        try reflexivity.
      * exfalso. apply Hn'. split; [exact Hk|]. apply elem_of_cons. now right.
      * exfalso. apply elem_of_cons in Hin' as [Heq|Hin']; [congruence|].
        apply Hn. now split.
    + apply String.eqb_neq in He. rewrite IH.
      destruct (decide _) as [[Hk Hin]|Hn]; destruct (decide _) as [[Hk' Hin']|Hn'];
        try reflexivity.
      * exfalso. apply Hn'. split; [exact Hk|]. apply elem_of_cons. now right.
      * apply elem_of_cons in Hin' as [Heq|Hin']; [|exfalso; apply Hn; now split].
        rewrite Heq. apply lookup_insert_eq.
      * rewrite lookup_insert_ne; [reflexivity|].
        intros Heq. apply Hn'. split; [congruence|]. apply elem_of_cons. now left.
Qed.

(** X6.  The map that [parseCSVBoolMap] builds holds exactly the
    non-empty trimmed entries of the comma-separated text, each bound to
    [true]: no entry is ever marked ineffective, and an empty or blank
    entry is not a key. *)
Theorem parseCSVBoolMap_lookup (s k : string) :
  parseCSVBoolMap s !! k
  = if decide (k <> "" /\ k ∈ map gostrings.TrimSpace (gostrings.Split "," s))
    then Some true else None.
Proof.
  unfold parseCSVBoolMap. rewrite parseCSVBoolMapEntries_lookup.
  destruct (decide _); [reflexivity|apply lookup_empty].
Qed.

End EnvironmentParsers.

(* ------------------------------------------------------------------ *)
(** ** Loading from the environment *)

Section LoadFromEnvironment.
Import config.

Lemma redisFromEnv_without_address (getenv : string -> string)
    (redisType : string) (redis : RedisService.t) :
  parseAddresses (getenv "REDIS_ADDRESSES") = ([], None) ->
  redisFromEnv getenv redisType = (redis, None) ->
  spec.Inconsistent redis.
Proof.
  intros Hparse. unfold redisFromEnv. rewrite Hparse.
  destruct (String.eqb redisType Single) eqn:E1; [discriminate|].
  destruct (String.eqb redisType Cluster) eqn:E2.
  { intros [= <-]. apply String.eqb_eq in E2.
    right. left. split; [exact E2|]. now left. }
  destruct (String.eqb redisType Sentinel) eqn:E3.
  { intros [= <-]. apply String.eqb_eq in E3.
    do 3 right. left. split; [exact E3|]. now left. }
  destruct (String.eqb redisType Replica) eqn:E4.
  { destruct (parseAddresses (getenv "REDIS_READER_ADDRESSES")) as [readers [err|]];
      [discriminate|].
    intros [= <-]. apply String.eqb_eq in E4.
    do 4 right. split; [exact E4|]. left. now left. }
  intros [= <-]. left. simpl.
  apply String.eqb_neq in E1, E2, E3, E4. now repeat split.
Qed.

Lemma loadComplexEnvVars_redis (getenv : string -> string) (cfg cfg' : Conf.t) :
  getenv "REDIS_TYPE" <> "" ->
  loadComplexEnvVars getenv cfg = (cfg', None) ->
  exists redis,
    Conf.Redis cfg' = Some redis
    /\ redisFromEnv getenv (getenv "REDIS_TYPE") = (redis, None).
Proof.
  intros Hty. apply String.eqb_neq in Hty. unfold loadComplexEnvVars.
  set (cfg1 := if String.eqb (getenv "WHITELIST_CHANNEL_IDS") "" then cfg else _).
  set (cfg2 := if String.eqb (getenv "CACHE_DISABLED_APIS") "" then cfg1 else _).
  destruct (if String.eqb (getenv "CACHE_OVERWRITE_TTL") "" then (cfg2, None) else _)
    as [cfg3 [err|]]; [discriminate|].
  rewrite Hty.
  destruct (redisFromEnv getenv (getenv "REDIS_TYPE")) as [redis err].
  intros [= <- ->]. exists redis. now split.
Qed.

(** X7.  Read from the environment alone, a configuration that names a
    Redis type and gives no address in [REDIS_ADDRESSES] is never
    returned by [Load], whichever type is named: a single instance fails
    in [loadComplexEnvVars], the other types and the unknown ones fail
    validation. *)
Theorem Load_env_redis_without_address
    (rd : string -> option error) (um : string -> error + Conf.t)
    (getenv : string -> string) :
  getenv "REDIS_TYPE" <> "" ->
  parseAddresses (getenv "REDIS_ADDRESSES") = ([], None) ->
  exists err, Load rd um (loadComplexEnvVars getenv) "" = inl err.
Proof.
  intros Hty Hparse. unfold Load. simpl.
  destruct (um "") as [err|decoded]; [eexists; reflexivity|].
  destruct (loadComplexEnvVars getenv decoded) as [cfg [err|]] eqn:Henv;
    [eexists; reflexivity|].
  destruct (loadComplexEnvVars_redis getenv decoded cfg Hty Henv)
    as (redis & Hredis & Hfrom).
  rewrite (Valid_rejects_inconsistent cfg redis Hredis).
  - eexists. reflexivity.
  - eapply redisFromEnv_without_address; eassumption.
Qed.

End LoadFromEnvironment.

(* ------------------------------------------------------------------ *)
(** ** Playlist identifiers from the CMS *)

Section PlaylistIDs.
Import cms.

Lemma takeID_bytes (s : string) :
  Forall (fun a => idByte a = true) (list_ascii_of_string (takeID s)).
Proof.
  induction s as [|a s IH]; simpl; [constructor|].
  destruct (idByte a) eqn:E; simpl; [now constructor|constructor].
Qed.

Lemma findPlaylistID_bytes (s id : string) :
  findPlaylistID s = Some id ->
  id <> "" /\ Forall (fun a => idByte a = true) (list_ascii_of_string id).
Proof.
  induction s as [|a s IH]; simpl; [discriminate|].
  destruct (isMark a && String.prefix "list=" s); [|exact IH].
  pose proof (takeID_bytes (String.substring 5 (String.length s - 5) s)) as Hb.
  destruct (takeID _) as [|b t]; [exact IH|].
  intros [= <-]. split; [discriminate|exact Hb].
Qed.

(** X8.  Whatever the field holds, [extractPlaylistID] returns the empty
    string or a non-empty run of letters, digits, underscores and
    hyphens; and it returns the empty string for a nil field and for a
    field that trims to nothing. *)
Theorem extractPlaylistID_shape (field : option string) :
  Forall (fun a => idByte a = true)
         (list_ascii_of_string (extractPlaylistID field))
  /\ extractPlaylistID None = ""
  /\ (forall s, gostrings.TrimSpace s = "" -> extractPlaylistID (Some s) = "").
Proof.
  split; [|split; [reflexivity|]].
  - destruct field as [s|]; simpl; [|constructor].
    destruct (String.eqb _ ""); [constructor|].
    destruct (findPlaylistID _) as [id|] eqn:E; [|constructor].
    now apply findPlaylistID_bytes in E.
  - intros s Hs. simpl. now rewrite Hs.
Qed.

(** *** Trimming does not change what the expression finds *)

Lemma blank_not_mark (a : ascii) :
  format.blank a -> isMark a = false /\ idByte a = false.
Proof.
  unfold format.blank, gostrings.asciiSpace, isMark, idByte.
  intros H.
  assert (Hn : (9 <= nat_of_ascii a <= 13 \/ nat_of_ascii a = 32
                \/ 128 <= nat_of_ascii a)%nat).
  { destruct H as [H|H]; [|lia].
    apply orb_true_iff in H as [H|H].
    - apply andb_true_iff in H as [H1 H2]. apply Nat.leb_le in H1, H2. lia.
    - apply Nat.eqb_eq in H. lia. }
  split.
  - apply orb_false_iff. split; apply Ascii.eqb_neq; intros ->; compute in Hn; lia.
  - destruct Hn as [Hn|[Hn|Hn]]; decide_bytes; reflexivity.
Qed.

Lemma find_skip (a : ascii) (s : string) :
  isMark a = false -> findPlaylistID (String a s) = findPlaylistID s.
Proof. intros H. simpl. now rewrite H. Qed.

Lemma space2_blank (a b : ascii) :
  gostrings.space2 a b = true -> format.blank a /\ format.blank b.
Proof.
  unfold gostrings.space2, format.blank.
  rewrite andb_true_iff, orb_true_iff, !Nat.eqb_eq.
  intros [Ha Hb]. split; right; lia.
Qed.

Lemma space3_blank (a b c : ascii) :
  gostrings.space3 a b c = true ->
  format.blank a /\ format.blank b /\ format.blank c.
Proof.
  unfold gostrings.space3, format.blank.
  rewrite !orb_true_iff, !andb_true_iff, !orb_true_iff, !andb_true_iff,
    !Nat.eqb_eq, !Nat.leb_le.
  intros H. repeat split; right; lia.
Qed.

Lemma find_TrimLeft (s : string) :
  findPlaylistID (gostrings.TrimLeft s) = findPlaylistID s.
Proof.
  remember (String.length s) as n eqn:Hn. revert s Hn.
  induction n as [n IH] using lt_wf_ind. intros s Hn.
  destruct s as [|a s]; [reflexivity|]. simpl gostrings.TrimLeft.
  destruct (gostrings.asciiSpace a) eqn:Ea.
  { rewrite (IH (String.length s)); [|subst; simpl; lia|reflexivity].
    symmetry. apply find_skip. apply blank_not_mark. now left. }
  destruct s as [|b s]; [reflexivity|].
  destruct (gostrings.space2 a b) eqn:E2.
  { apply space2_blank in E2 as [Ha Hb].
    rewrite (IH (String.length s)); [|subst; simpl; lia|reflexivity].
    rewrite !find_skip; [reflexivity| |]; now apply blank_not_mark. }
  destruct s as [|c s]; [reflexivity|].
  destruct (gostrings.space3 a b c) eqn:E3; [|reflexivity].
  apply space3_blank in E3 as (Ha & Hb & Hc).
  rewrite (IH (String.length s)); [|subst; simpl; lia|reflexivity].
  rewrite !find_skip; [reflexivity| | |]; now apply blank_not_mark.
Qed.

(** What [trimReversed] removes is blank. *)
Lemma trimReversed_split (s : string) :
  exists w,
    s = w +:+ gostrings.trimReversed s
    /\ Forall format.blank (list_ascii_of_string w).
Proof.
  remember (String.length s) as n eqn:Hn. revert s Hn.
  induction n as [n IH] using lt_wf_ind. intros s Hn.
  destruct s as [|a s]; [exists ""; split; [reflexivity|constructor]|].
  simpl gostrings.trimReversed.
  destruct (gostrings.asciiSpace a) eqn:Ea.
  { destruct (IH (String.length s)) with (s := s) as (w & Hw & Hb);
      [subst; simpl; lia|reflexivity|].
    exists (String a w). split; [rewrite Hw at 1; reflexivity|].
    simpl. constructor; [now left|exact Hb]. }
  destruct s as [|b s]; [exists ""; split; [reflexivity|constructor]|].
  destruct (gostrings.space2 b a) eqn:E2.
  { apply space2_blank in E2 as [Hb' Ha'].
    destruct (IH (String.length s)) with (s := s) as (w & Hw & Hb);
      [subst; simpl; lia|reflexivity|].
    exists (String a (String b w)).
    split; [rewrite Hw at 1; reflexivity|].
    simpl. constructor; [exact Ha'|constructor; [exact Hb'|exact Hb]]. }
  destruct s as [|c s]; [exists ""; split; [reflexivity|constructor]|].
  destruct (gostrings.space3 c b a) eqn:E3;
    [|exists ""; split; [reflexivity|constructor]].
  apply space3_blank in E3 as (Hc' & Hb' & Ha').
  destruct (IH (String.length s)) with (s := s) as (w & Hw & Hb);
    [subst; simpl; lia|reflexivity|].
  exists (String a (String b (String c w))).
  split; [rewrite Hw at 1; reflexivity|].
  simpl. constructor; [exact Ha'|constructor; [exact Hb'|constructor; [exact Hc'|exact Hb]]].
Qed.

Lemma TrimRight_split (s : string) :
  exists w,
    s = gostrings.TrimRight s +:+ w
    /\ Forall format.blank (list_ascii_of_string w).
Proof.
  destruct (trimReversed_split (String.rev s)) as (w & Hw & Hb).
  exists (String.rev w). split.
  - apply bytes_inj. unfold gostrings.TrimRight.
    rewrite bytes_app, !bytes_rev, <- rev_app_distr, <- bytes_app, <- Hw.
    rewrite bytes_rev. symmetry. apply rev_involutive.
  - rewrite bytes_rev. now apply Forall_rev.
Qed.

Lemma prefix_app_blank (p : string) :
  Forall (fun a => ~ format.blank a) (list_ascii_of_string p) ->
  forall s w,
    Forall format.blank (list_ascii_of_string w) ->
    String.prefix p (s +:+ w) = String.prefix p s.
Proof.
  induction p as [|a p IH]; intros Hp s w Hw.
  { destruct s, w; reflexivity. }
  apply Forall_cons in Hp as [Ha Hp].
  destruct s as [|c s]; simpl.
  - destruct w as [|b w]; [reflexivity|]. simpl.
    destruct (ascii_dec a b) as [->|_]; [|reflexivity].
    exfalso. apply Ha. now inversion Hw.
  - destruct (ascii_dec a c); [|reflexivity]. now apply IH.
Qed.

Lemma takeID_app_blank (s w : string) :
  Forall format.blank (list_ascii_of_string w) ->
  takeID (s +:+ w) = takeID s.
Proof.
  intros Hw. induction s as [|a s IH]; simpl.
  - destruct w as [|b w]; [reflexivity|]. simpl.
    apply Forall_cons in Hw as [Hb _].
    now rewrite (proj2 (blank_not_mark b Hb)).
  - now rewrite IH.
Qed.

Lemma substring_all (s : string) : String.substring 0 (String.length s) s = s.
Proof. induction s as [|a s IH]; simpl; [reflexivity|now rewrite IH]. Qed.

Lemma length_app (s t : string) :
  String.length (s +:+ t) = (String.length s + String.length t)%nat.
Proof. induction s as [|a s IH]; simpl; [reflexivity|now rewrite IH]. Qed.

(** After the five bytes of [list=], the rest. *)
Lemma after_list (s : string) :
  String.prefix "list=" s = true ->
  exists r, s = "list=" +:+ r
            /\ String.substring 5 (String.length s - 5) s = r.
Proof.
  intros H.
  destruct s as [|a1 [|a2 [|a3 [|a4 [|a5 r]]]]]; simpl in H;
    repeat match type of H with
           | (if ?d then _ else _) = true => destruct d; [subst|discriminate]
           end; try discriminate.
  exists r. split; [reflexivity|].
  simpl. rewrite Nat.sub_0_r. apply substring_all.
Qed.

Lemma list_not_blank :
  Forall (fun a => ~ format.blank a) (list_ascii_of_string "list=").
Proof.
  cbn.
  repeat (constructor; [intros [H|H]; [discriminate H|compute in H; lia]|]).
  constructor.
Qed.

Lemma find_app_blank (s w : string) :
  Forall format.blank (list_ascii_of_string w) ->
  findPlaylistID (s +:+ w) = findPlaylistID s.
Proof.
  intros Hw. induction s as [|a s IH].
  - change ("" +:+ w) with w. change (findPlaylistID "") with (@None string).
    clear -Hw. induction w as [|b w IH]; [reflexivity|].
    change (list_ascii_of_string (String b w))
      with (b :: list_ascii_of_string w) in Hw.
    apply Forall_cons in Hw as [Hb Hw].
    rewrite find_skip; [now apply IH|now apply blank_not_mark].
  - simpl.
    rewrite (prefix_app_blank "list="); [|exact list_not_blank|exact Hw].
    destruct (isMark a && String.prefix "list=" s) eqn:E; [|exact IH].
    apply andb_true_iff in E as [_ E].
    destruct (after_list s E) as (r & -> & Hr). rewrite Hr.
    assert (Hr' : String.substring 5
                    (String.length (("list=" +:+ r) +:+ w) - 5)
                    (("list=" +:+ r) +:+ w) = r +:+ w).
    { simpl. rewrite Nat.sub_0_r. apply substring_all. }
    rewrite Hr', takeID_app_blank by exact Hw.
    destruct (takeID r); [exact IH|reflexivity].
Qed.

Lemma find_TrimSpace (s : string) :
  findPlaylistID (gostrings.TrimSpace s) = findPlaylistID s.
Proof.
  unfold gostrings.TrimSpace.
  destruct (TrimRight_split (gostrings.TrimLeft s)) as (w & Hw & Hb).
  rewrite <- (find_TrimLeft s). rewrite Hw at 2.
  symmetry. now apply find_app_blank.
Qed.

(** What [extractPlaylistID] returns is what the expression finds in the
    field as it is. *)
Lemma extract_by_find (field : string) :
  extractPlaylistID (Some field)
  = match findPlaylistID field with
    | Some id => id
    | None => ""
    end.
Proof.
  simpl. rewrite find_TrimSpace.
  destruct (String.eqb (gostrings.TrimSpace field) "") eqn:E; [|reflexivity].
  apply String.eqb_eq in E.
  rewrite <- (find_TrimSpace field), E. reflexivity.
Qed.

Lemma find_blank_app (l s : string) :
  Forall format.blank (list_ascii_of_string l) ->
  findPlaylistID (l +:+ s) = findPlaylistID s.
Proof.
  induction l as [|a l IH]; intros Hl; [reflexivity|].
  change (list_ascii_of_string (String a l))
    with (a :: list_ascii_of_string l) in Hl.
  apply Forall_cons in Hl as [Ha Hl].
  change (String a l +:+ s) with (String a (l +:+ s)).
  rewrite find_skip; [now apply IH|now apply blank_not_mark].
Qed.

(** X9.  White space around a field plays no part: putting any runs of
    white-space bytes (or of bytes beyond ASCII) before and after a field
    does not change the identifier that [extractPlaylistID] returns. *)
Theorem extractPlaylistID_ignores_surroundings (l field r : string) :
  Forall format.blank (list_ascii_of_string l) ->
  Forall format.blank (list_ascii_of_string r) ->
  extractPlaylistID (Some (l +:+ field +:+ r)) = extractPlaylistID (Some field).
Proof.
  intros Hl Hr. rewrite !extract_by_find.
  now rewrite find_blank_app, find_app_blank.
Qed.

Lemma takeID_app (id post : string) :
  Forall (fun a => idByte a = true) (list_ascii_of_string id) ->
  match post with
  | String b _ => idByte b = false
  | EmptyString => True
  end ->
  takeID (id +:+ post) = id.
Proof.
  intros Hid Hpost. induction id as [|a id IH]; simpl.
  - destruct post as [|b post]; [reflexivity|]. simpl. now rewrite Hpost.
  - apply Forall_cons in Hid as [Ha Hid]. now rewrite Ha, IH.
Qed.

(** X10.  In a field that reads [pre], then [?] or [&], then [list=], an
    identifier and [post], where [pre] holds neither [?] nor [&] and
    [post] is empty or starts with a byte that no identifier holds,
    [extractPlaylistID] returns the identifier, whatever white space
    surrounds the field. *)
Theorem extractPlaylistID_finds (pre id post : string) (mark : ascii) :
  Forall (fun a => isMark a = false) (list_ascii_of_string pre) ->
  isMark mark = true ->
  id <> "" ->
  Forall (fun a => idByte a = true) (list_ascii_of_string id) ->
  match post with
  | String b _ => idByte b = false
  | EmptyString => True
  end ->
  extractPlaylistID (Some (pre +:+ String mark ("list=" +:+ id +:+ post))) = id.
Proof.
  intros Hpre Hmark Hne Hid Hpost.
  rewrite extract_by_find.
  assert (Hfind : findPlaylistID (String mark ("list=" +:+ id +:+ post)) = Some id).
  { assert (Hp : String.prefix "list=" ("list=" +:+ id +:+ post) = true).
    { destruct id as [|c id]; [contradiction|]. simpl.
      repeat (destruct (ascii_dec _ _) as [_|Hc]; [|now contradict Hc]).
      reflexivity. }
    destruct (after_list _ Hp) as (r & Hr & Hsub).
    apply (inj (String.append "list=")) in Hr. subst r.
    cbn [findPlaylistID]. rewrite Hmark, Hp. cbn [andb]. rewrite Hsub.
    rewrite (takeID_app id post Hid Hpost).
    destruct id; [contradiction|reflexivity]. }
  induction pre as [|a pre IH].
  - change ("" +:+ String mark ("list=" +:+ id +:+ post))
      with (String mark ("list=" +:+ id +:+ post)).
    now rewrite Hfind.
  - change (list_ascii_of_string (String a pre))
      with (a :: list_ascii_of_string pre) in Hpre.
    apply Forall_cons in Hpre as [Ha Hpre].
    change (String a pre +:+ String mark ("list=" +:+ id +:+ post))
      with (String a (pre +:+ String mark ("list=" +:+ id +:+ post))).
    rewrite find_skip by exact Ha. now apply IH.
Qed.

(** *** The set that a fetch returns *)

Lemma addField_lookup (ids : gmap string bool) (field : option string) (k : string) :
  addField ids field !! k
  = if decide (k <> "" /\ extractPlaylistID field = k) then Some true
    else ids !! k.
Proof.
  unfold addField. destruct (String.eqb (extractPlaylistID field) "") eqn:E.
  - apply String.eqb_eq in E.
    destruct (decide _) as [[Hk He]|_]; [congruence|reflexivity].
  - apply String.eqb_neq in E.
    destruct (decide _) as [[Hk He]|Hn].
    + rewrite He. apply lookup_insert_eq.
    + apply lookup_insert_ne. intros He. apply Hn. split; congruence.
Qed.

Lemma fold_addField_lookup (fs : list (option string)) (k : string) :
  forall ids,
    fold_left addField fs ids !! k
    = if decide (k <> "" /\ k ∈ map extractPlaylistID fs) then Some true
      else ids !! k.
Proof.
  induction fs as [|f fs IH]; intros ids; simpl.
  - destruct (decide _) as [[_ Hin]|_]; [|reflexivity].
    now apply elem_of_nil in Hin.
  - rewrite IH, addField_lookup.
    destruct (decide (k <> "" /\ k ∈ map extractPlaylistID fs)) as [[Hk Hin]|Hn];
      destruct (decide (k <> "" /\ k ∈ extractPlaylistID f :: map extractPlaylistID fs))
        as [[Hk' Hin']|Hn']; try reflexivity.
    + exfalso. apply Hn'. split; [exact Hk|]. apply elem_of_cons. now right.
    + apply elem_of_cons in Hin' as [Heq|Hin']; [|exfalso; apply Hn; now split].
      destruct (decide _) as [_|Hd]; [reflexivity|].
      exfalso. apply Hd. now split.
    + destruct (decide _) as [[Hk0 He]|_]; [|reflexivity].
      exfalso. apply Hn'. split; [exact Hk0|]. apply elem_of_cons. now left.
Qed.

Lemma collect_lookup (shows : list showFields) (k : string) :
  forall ids,
    fold_left addShow shows ids !! k
    = if decide (k <> "" /\ k ∈ map extractPlaylistID (concat (map fields shows)))
      then Some true else ids !! k.
Proof.
  induction shows as [|show shows IH]; intros ids.
  - simpl. destruct (decide _) as [[_ Hin]|_]; [|reflexivity].
    now apply elem_of_nil in Hin.
  - cbn [fold_left].
    change (concat (map fields (show :: shows)))
      with (fields show ++ concat (map fields shows))%list.
    rewrite IH. unfold addShow. rewrite fold_addField_lookup, map_app.
    destruct (decide (k <> "" /\ k ∈ map extractPlaylistID (concat (map fields shows))))
      as [[Hk Hin]|Hn];
      destruct (decide (k <> "" /\ k ∈ (map extractPlaylistID (fields show)
                                        ++ map extractPlaylistID
                                             (concat (map fields shows)))%list))
        as [[Hk' Hin']|Hn']; try reflexivity.
    + exfalso. apply Hn'. split; [exact Hk|]. apply elem_of_app. now right.
    + apply elem_of_app in Hin' as [Hin'|Hin']; [|exfalso; apply Hn; now split].
      destruct (decide _) as [_|Hd]; [reflexivity|].
      exfalso. apply Hd. now split.
    + destruct (decide _) as [[Hk0 Hin]|_]; [|reflexivity].
      exfalso. apply Hn'. split; [exact Hk0|]. apply elem_of_app. now left.
Qed.

(** X11.  [FetchPlaylistIDs] returns a set only for a response with
    status 200 whose body decodes and reports no GraphQL error; the set
    then holds exactly the non-empty identifiers extracted from the three
    playlist fields of the shows, every one of them marked effective. *)
Theorem FetchPlaylistIDs_lookup
    (reqBody : error + string) (post : error + Response) (m : gmap string bool) :
  FetchPlaylistIDs reqBody post = inr m ->
  exists body resp result,
    reqBody = inr body /\ post = inr resp
    /\ StatusCode resp = 200 /\ Decoded resp = inr result /\ Errors result = []
    /\ forall k,
         m !! k
         = if decide (k <> ""
                      /\ k ∈ map extractPlaylistID (concat (map fields (Shows result))))
           then Some true else None.
Proof.
  unfold FetchPlaylistIDs.
  destruct reqBody as [err|body]; [discriminate|].
  destruct post as [err|resp]; [discriminate|].
  destruct (StatusCode resp =? http.StatusOK) eqn:Hs; [|discriminate].
  apply Z.eqb_eq in Hs. simpl.
  destruct (Decoded resp) as [err|result] eqn:Hd; [discriminate|].
  destruct (Errors result) as [|msg msgs] eqn:He; [|discriminate].
  intros [= <-]. exists body, resp, result. repeat split; try assumption.
  intros k. unfold collect. rewrite collect_lookup.
  destruct (decide _); [reflexivity|apply lookup_empty].
Qed.

(** X12.  A refresh fed by [FetchPlaylistIDs]: when the lookup misses,
    the cooldown has elapsed and the CMS answers with status 200, a body
    that decodes and no GraphQL error, the pending playlist is accepted
    exactly when it is not empty and is the identifier extracted from one
    of the playlist fields of the shows. *)
Theorem refresh_from_cms
    (env : whitelist.Env) (api : whitelist.YouTubeAPI) (id body : string)
    (shows : list showFields) :
  config.Whitelists.PlaylistIDs (whitelist.Whitelist api) !! id <> Some true ->
  whitelist.refreshCooldown <= whitelist.tSince env - whitelist.lastFetch api ->
  whitelist.fetch env
    = FetchPlaylistIDs (inr body)
        (inr {| StatusCode := 200;
                Decoded := inr {| Shows := shows; Errors := [] |} |}) ->
  fst (fst (whitelist.ValidatePlaylistIDs env api id)) = true
  <-> id <> "" /\ id ∈ map extractPlaylistID (concat (map fields shows)).
Proof.
  intros Hmiss Hcool Hfetch.
  apply presentAndEffective_false in Hmiss.
  apply Since_not_below_cooldown in Hcool.
  unfold whitelist.ValidatePlaylistIDs, whitelist.refreshAndValidatePlaylist.
  rewrite Hmiss, Hcool, Hfetch. simpl.
  rewrite presentAndEffective_true. unfold collect. rewrite collect_lookup.
  destruct (decide _) as [H|H]; split; try congruence; try tauto.
  rewrite lookup_empty. discriminate.
Qed.

End PlaylistIDs.

(* ------------------------------------------------------------------ *)
(** ** The allow-list along a schedule *)

Section AllowListSchedules.
Import time whitelist.

Lemma refresh_keeps (env : Env) (api : YouTubeAPI) (id : string) :
  let '(_, api', calls) := refreshAndValidatePlaylist env api id in
  config.Whitelists.ChannelIDs (Whitelist api')
    = config.Whitelists.ChannelIDs (Whitelist api)
  /\ CmsURL api' = CmsURL api
  /\ Forall (fun e => calledURL e = CmsURL api) calls.
Proof.
  unfold refreshAndValidatePlaylist.
  destruct (presentAndEffective _ id); [repeat split; constructor|].
  destruct (Since _ _ <? refreshCooldown); [repeat split; constructor|].
  destruct (fetch env); simpl; repeat split; repeat constructor.
Qed.

(** X13.  Whatever the schedule of lookups and refreshes, the channel
    allow-list and the CMS address stay what they were at the start, and
    every external call goes to that address. *)
Theorem run_keeps_channels (api : YouTubeAPI) (schedule : list Step) :
  config.Whitelists.ChannelIDs (Whitelist (fst (run api schedule)))
    = config.Whitelists.ChannelIDs (Whitelist api)
  /\ CmsURL (fst (run api schedule)) = CmsURL api
  /\ Forall (fun e => calledURL e = CmsURL api) (snd (run api schedule)).
Proof.
  revert api. induction schedule as [|[id|env id] rest IH]; intros api; simpl.
  - repeat split. constructor.
  - apply IH.
  - pose proof (refresh_keeps env api id) as Hk.
    destruct (refreshAndValidatePlaylist env api id) as [[b api1] calls].
    destruct Hk as (Hch & Hurl & Hcalls).
    specialize (IH api1). destruct (run api1 rest) as [api2 later]. simpl in *.
    destruct IH as (Hch2 & Hurl2 & Hlater).
    repeat split; [congruence|congruence|].
    apply Forall_app. split; [exact Hcalls|].
    eapply Forall_impl; [exact Hlater|]. intros e He. congruence.
Qed.

Lemma run_calls_after (schedule : list Step) :
  forall (api : YouTubeAPI) (t0 : Time),
    clockMonotone t0 schedule ->
    Forall (fun e => t0 <= startedAt e) (snd (run api schedule)).
Proof.
  induction schedule as [|[id|env id] rest IH]; intros api t0 Hclock; simpl.
  - constructor.
  - now apply IH.
  - destruct Hclock as (H0 & Hle & Hrest).
    assert (Hlater : forall api1,
               Forall (fun e => t0 <= startedAt e) (snd (run api1 rest))).
    { intros api1. eapply Forall_impl; [apply (IH api1 _ Hrest)|].
      intros e He. simpl in He. lia. }
    unfold refreshAndValidatePlaylist.
    destruct (presentAndEffective _ id).
    { specialize (Hlater api). now destruct (run api rest). }
    destruct (Since _ _ <? refreshCooldown).
    { specialize (Hlater api). now destruct (run api rest). }
    destruct (fetch env) as [err|newIDs].
    + specialize (Hlater (setLastFetch api (tNow env))).
      destruct (run _ rest). simpl in *. now constructor.
    + specialize (Hlater (setLastFetch (setPlaylistIDs api newIDs) (tNow env))).
      destruct (run _ rest). simpl in *. now constructor.
Qed.

Lemma spaced_count (calls : list Event) :
  forall (l t1 : Time),
    spaced l calls -> calls <> [] ->
    Forall (fun e => startedAt e <= t1) calls ->
    l + Z.of_nat (length calls) * refreshCooldown <= t1.
Proof.
  pose proof refreshCooldown_pos as Hpos.
  induction calls as [|[url s f] rest IH]; intros l t1 Hsp Hne Hend;
    [contradiction|].
  destruct Hsp as (Hs & Hsf & Hrest).
  apply Forall_cons in Hend as [Hs1 Hend]. simpl in Hs1.
  destruct rest as [|e rest'].
  - simpl. lia.
  - specialize (IH f t1 Hrest ltac:(discriminate) Hend).
    change (length (FetchPlaylistIDs url s f :: e :: rest'))
      with (S (length (e :: rest'))).
    rewrite Nat2Z.inj_succ. lia.
Qed.

(** X14.  The rate of external calls is bounded: along a schedule with a
    clock that does not run backwards, [n] calls to the CMS started
    between the instants [t0] and [t1] take at least [n - 1] cooldowns,
    whatever the number of lookups that miss. *)
Theorem fetch_rate_bound
    (api : YouTubeAPI) (schedule : list Step) (t0 t1 : Time) :
  clockMonotone t0 schedule ->
  t0 <= t1 ->
  Forall (fun e => startedAt e <= t1) (snd (run api schedule)) ->
  (Z.of_nat (length (snd (run api schedule))) - 1) * refreshCooldown <= t1 - t0.
Proof.
  intros Hclock Hle Hend.
  pose proof refreshCooldown_pos as Hpos.
  pose proof (run_spaced schedule api t0 Hclock) as Hsp.
  pose proof (run_calls_after schedule api t0 Hclock) as Hafter.
  destruct (snd (run api schedule)) as [|[url s f] rest]; [simpl; lia|].
  destruct Hsp as (_ & Hsf & Hrest).
  apply Forall_cons in Hafter as [Hs0 _]. simpl in Hs0.
  apply Forall_cons in Hend as [_ Hend].
  destruct rest as [|e rest']; [simpl; lia|].
  pose proof (spaced_count (e :: rest') f t1 Hrest ltac:(discriminate) Hend) as Hc.
  change (length (FetchPlaylistIDs url s f :: e :: rest'))
    with (S (length (e :: rest'))).
  rewrite Nat2Z.inj_succ. lia.
Qed.

(** X15.  A failed refresh is a throttle: for one cooldown after it, a
    lookup of any playlist that the set does not hold is refused without
    a call, even when the CMS would by then answer and list it. *)
Theorem failed_refresh_suppresses_retries
    (env env' : Env) (api : YouTubeAPI) (id id' : string) (err : error) :
  config.Whitelists.PlaylistIDs (Whitelist api) !! id <> Some true ->
  refreshCooldown <= tSince env - lastFetch api ->
  fetch env = inl err ->
  config.Whitelists.PlaylistIDs (Whitelist api) !! id' <> Some true ->
  tSince env' - tNow env < refreshCooldown ->
  let api' := snd (fst (ValidatePlaylistIDs env api id)) in
  ValidatePlaylistIDs env' api' id' = (false, api', []).
Proof.
  intros Hmiss Hcool Hfetch Hmiss' Hin.
  apply presentAndEffective_false in Hmiss, Hmiss'.
  apply Since_not_below_cooldown in Hcool.
  apply Since_below_cooldown in Hin.
  unfold ValidatePlaylistIDs, refreshAndValidatePlaylist.
  rewrite Hmiss, Hcool, Hfetch. simpl. now rewrite Hmiss', Hin.
Qed.

End AllowListSchedules.

(* ------------------------------------------------------------------ *)
(** ** Building and starting the server *)

Section ServerStart.
Import config.

Context {R : Type}.

Lemma New_whitelist (cache_NewRedis : Conf.t -> error + R) (c : Conf.t)
    (s : server.Server R) :
  server.New cache_NewRedis c = inr s ->
  server.APIWhitelist s
  = {| whitelist.Whitelist := Conf.Whitelists c;
       whitelist.CmsURL := Conf.CmsURL c;
       whitelist.lastFetch := 0 |}.
Proof.
  unfold server.New.
  destruct (Conf.Redis c); [destruct (cache_NewRedis c); [discriminate|]|];
    destruct (Cache.IsEnabled (Conf.Cache c)); simpl;
    try discriminate; now intros [= <-].
Qed.

(** X16.  [server.New]: the server it returns holds the allow-lists and
    the CMS address of the configuration, with a last-fetch timestamp of
    zero; it has a cache provider exactly when the cache is enabled, and
    then the one that [cache.NewRedis] built.  It fails when the cache is
    enabled without a Redis block, and when [cache.NewRedis] fails on a
    Redis block, be the cache enabled or not. *)
Theorem New_characterised
    (cache_NewRedis : Conf.t -> error + R) (c : Conf.t) :
  match server.New cache_NewRedis c with
  | inr s =>
      server.APIWhitelist s
      = {| whitelist.Whitelist := Conf.Whitelists c;
           whitelist.CmsURL := Conf.CmsURL c;
           whitelist.lastFetch := 0 |}
      /\ server.conf s = c
      /\ (forall r, Conf.Redis c = Some r -> exists redis, cache_NewRedis c = inr redis)
      /\ if Cache.IsEnabled (Conf.Cache c)
         then exists redis,
                server.Cache s = Some redis /\ cache_NewRedis c = inr redis
                /\ Conf.Redis c <> None
         else server.Cache s = None
  | inl err =>
      (Conf.Redis c <> None /\ cache_NewRedis c = inl err)
      \/ (Conf.Redis c = None /\ Cache.IsEnabled (Conf.Cache c) = true
          /\ err = "there is no cache provider")
  end.
Proof.
  unfold server.New.
  destruct (Conf.Redis c) as [r|] eqn:Hr.
  - destruct (cache_NewRedis c) as [err|redis] eqn:Hn.
    + left. now split.
    + destruct (Cache.IsEnabled (Conf.Cache c)); simpl.
      * repeat split; [intros; eexists; reflexivity|].
        exists redis. now repeat split.
      * repeat split. intros; eexists; reflexivity.
  - destruct (Cache.IsEnabled (Conf.Cache c)); simpl.
    + right. now repeat split.
    + repeat split. intros r' Hr'. discriminate.
Qed.

(** X17.  The first miss of a new server reaches the CMS: the allow-list
    of a server that [server.New] returns has never fetched, so a lookup
    of a playlist that the configured set does not hold, made when the
    clock reads at least one cooldown, calls the CMS of the
    configuration once. *)
Theorem first_miss_fetches
    (cache_NewRedis : Conf.t -> error + R) (c : Conf.t) (s : server.Server R)
    (env : whitelist.Env) (id : string) :
  server.New cache_NewRedis c = inr s ->
  Whitelists.PlaylistIDs (Conf.Whitelists c) !! id <> Some true ->
  whitelist.refreshCooldown <= whitelist.tSince env ->
  snd (whitelist.ValidatePlaylistIDs env (server.APIWhitelist s) id)
  = [whitelist.FetchPlaylistIDs (Conf.CmsURL c)
       (whitelist.tSince env) (whitelist.tNow env)].
Proof.
  intros Hnew Hmiss Hclock.
  rewrite (New_whitelist cache_NewRedis c s Hnew).
  apply presentAndEffective_false in Hmiss.
  assert (Hcool : (time.Since (whitelist.tSince env) 0 <? whitelist.refreshCooldown)
                  = false).
  { apply Since_not_below_cooldown. lia. }
  unfold whitelist.ValidatePlaylistIDs, whitelist.refreshAndValidatePlaylist.
  simpl. rewrite Hmiss, Hcool. now destruct (whitelist.fetch env).
Qed.

(** X18.  [serveMain] runs a server only after the seed fetch returned a
    set that is not empty: the server that runs holds that set as its
    playlist allow-list and the channel allow-list of the configuration,
    and the error returned is the one with which the run ended. *)
Theorem serveMain_runs_seeded
    (cms_FetchPlaylistIDs : string -> error + gmap string bool)
    (cache_NewRedis : Conf.t -> error + R)
    (relay_New : string -> option error)
    (run : server.Server R -> option error)
    (args : list string) (c : cli.Conf)
    (err : option error) (s : server.Server R) :
  serve.serveMain cms_FetchPlaylistIDs cache_NewRedis relay_New run args c
    = (err, Some s) ->
  exists cfg playlistIDs,
    cli.CFG c = Some cfg
    /\ cms_FetchPlaylistIDs (Conf.CmsURL cfg) = inr playlistIDs
    /\ playlistIDs <> ∅
    /\ Whitelists.PlaylistIDs (whitelist.Whitelist (server.APIWhitelist s))
       = playlistIDs
    /\ Whitelists.ChannelIDs (whitelist.Whitelist (server.APIWhitelist s))
       = Whitelists.ChannelIDs (Conf.Whitelists cfg)
    /\ relay_New (Conf.ApiKey cfg) = None
    /\ err = run s.
Proof.
  unfold serve.serveMain.
  destruct (cli.CFG c) as [cfg|]; [|discriminate].
  destruct (cms_FetchPlaylistIDs (Conf.CmsURL cfg)) as [e|ids] eqn:Hf; [discriminate|].
  destruct (size ids =? 0)%nat eqn:Hsize; [discriminate|].
  destruct (server.New cache_NewRedis (setPlaylistIDs cfg ids)) as [e|s'] eqn:Hnew;
    [discriminate|].
  apply New_whitelist in Hnew as Hw.
  simpl Conf.ApiKey.
  destruct (relay_New (Conf.ApiKey cfg)) as [e|] eqn:Hrelay; [discriminate|].
  intros [= <- <-].
  exists cfg, ids. rewrite Hw. simpl. repeat split; try assumption.
  intros ->. discriminate.
Qed.

(** X19.  What ends [serveMain] before a server runs: a missing
    configuration, a seed fetch that fails or returns no playlist, and a
    relay service that cannot be built are reported as errors; a failure
    of [server.New] is not: [serveMain] then returns no error, and no
    server has run. *)
Theorem serveMain_stops_early
    (cms_FetchPlaylistIDs : string -> error + gmap string bool)
    (cache_NewRedis : Conf.t -> error + R)
    (relay_New : string -> option error)
    (run : server.Server R -> option error)
    (args : list string) (c : cli.Conf) (err : option error) :
  serve.serveMain cms_FetchPlaylistIDs cache_NewRedis relay_New run args c
    = (err, None) ->
  (cli.CFG c = None /\ err = Some "config file is nil")
  \/ exists cfg,
       cli.CFG c = Some cfg
       /\ ((exists e, cms_FetchPlaylistIDs (Conf.CmsURL cfg) = inl e /\ err <> None)
           \/ (cms_FetchPlaylistIDs (Conf.CmsURL cfg) = inr ∅
               /\ err = Some "no playlist IDs fetched from CMS")
           \/ exists playlistIDs,
                cms_FetchPlaylistIDs (Conf.CmsURL cfg) = inr playlistIDs
                /\ ((exists e, server.New cache_NewRedis (setPlaylistIDs cfg playlistIDs)
                               = inl e /\ err = None)
                    \/ (exists e, relay_New (Conf.ApiKey cfg) = Some e
                                  /\ err = Some e))).
Proof.
  unfold serve.serveMain.
  destruct (cli.CFG c) as [cfg|]; [|intros [= <-]; now left].
  intros Hrun. right. exists cfg. split; [reflexivity|]. revert Hrun.
  destruct (cms_FetchPlaylistIDs (Conf.CmsURL cfg)) as [e|ids] eqn:Hf.
  { intros [= <-]. left. exists e. split; [reflexivity|discriminate]. }
  destruct (size ids =? 0)%nat eqn:Hsize.
  { intros [= <-]. right. left. split; [|reflexivity].
    apply Nat.eqb_eq, map_size_empty_iff in Hsize. now subst. }
  intros Hrun. right. right. exists ids. split; [reflexivity|]. revert Hrun.
  destruct (server.New cache_NewRedis (setPlaylistIDs cfg ids)) as [e|s'].
  { intros [= <-]. left. exists e. now split. }
  simpl Conf.ApiKey.
  destruct (relay_New (Conf.ApiKey cfg)) as [e|]; [|discriminate].
  intros [= <-]. right. exists e. now split.
Qed.

End ServerStart.

(* ------------------------------------------------------------------ *)
(** ** The handlers *)

Section Handlers.

Context {R : Type} `{!cache.Rediser R} `{!json.Codec}.
Variable GetCacheKey : cache.KeyDeriver.
Variable parseQueries : http.Request.t -> ytrelay.Options * option error.

Lemma answers_ret {A} (a : A) : answers (R := R) (ret a) a.
Proof. intros w. reflexivity. Qed.

Lemma answers_do {A B} (m : M R A) (k : M R B) (b : B) :
  answers k b -> answers (do m then k) b.
Proof. intros Hk w. unfold bind. destruct (m w) as [a w1]. apply Hk. Qed.

Lemma readsOnly_ret {A} (a : A) : readsOnly (R := R) (ret a).
Proof. intros w. reflexivity. Qed.

Lemma readsOnly_emit (l : log.Level) (msg : string) : readsOnly (R := R) (emit l msg).
Proof. intros w. reflexivity. Qed.

Lemma readsOnly_bind {A B} (m : M R A) (k : A -> M R B) :
  readsOnly m -> (forall a, readsOnly (k a)) -> readsOnly (bind m k).
Proof.
  intros Hm Hk w. unfold bind. specialize (Hm w).
  destruct (m w) as [a w1]. simpl in Hm. rewrite Hk. exact Hm.
Qed.

Lemma readsOnly_Get (key : string) : readsOnly (R := R) (redis_Get key).
Proof. intros w. reflexivity. Qed.

(** X20.  [validateYouTubeVideoListResponse] returns without an error
    exactly when every item carries a snippet whose channel the
    allow-list marks effective; the error it returns names the first
    channel that is not, the items before it being accepted; and it
    panics exactly on an item without a snippet that only accepted items
    precede. *)
Theorem validate_video_list
    (whitelist : whitelist.YouTubeAPI) (items : list youtube.Video) :
  let channels := config.Whitelists.ChannelIDs (whitelist.Whitelist whitelist) in
  let accepted item :=
    exists channelId,
      youtube.Snippet_ChannelId item = Some channelId
      /\ channels !! channelId = Some true in
  match route.validateYouTubeVideoListResponse whitelist items with
  | Returned None => Forall accepted items
  | Returned (Some err) =>
      exists before channelId after,
        items = (before ++ youtube.mkVideo (Some channelId) :: after)%list
        /\ Forall accepted before
        /\ channels !! channelId <> Some true
        /\ err = "channelId(" +:+ channelId +:+ ") is invalid"
  | Panicked =>
      exists before after,
        items = (before ++ youtube.mkVideo None :: after)%list
        /\ Forall accepted before
  end.
Proof.
  intros channels accepted.
  induction items as [|[snippet] rest IH]; simpl; [constructor|].
  destruct snippet as [channelId|]; [|exists [], rest; split; [reflexivity|constructor]].
  destruct (whitelist.ValidateChannelID whitelist channelId) eqn:Hv; simpl.
  - assert (Hacc : accepted (youtube.mkVideo (Some channelId))).
    { exists channelId. split; [reflexivity|].
      now apply presentAndEffective_true in Hv. }
    destruct (route.validateYouTubeVideoListResponse whitelist rest) as [[err|]|].
    + destruct IH as (before & ch & after & -> & Hb & Hch & ->).
      exists (youtube.mkVideo (Some channelId) :: before), ch, after.
      repeat split; [now constructor|exact Hch].
    + now constructor.
    + destruct IH as (before & after & -> & Hb).
      exists (youtube.mkVideo (Some channelId) :: before), after.
      split; [reflexivity|now constructor].
  - exists [], channelId, rest. repeat split; [constructor|].
    now apply presentAndEffective_false in Hv.
Qed.

Lemma saveOKCache_off (isEnabled : bool) (cacheConf : config.Cache.t)
    (appName : string) (request : http.Request.t) (resp : Resp) :
  config.Cache.IsEnabled cacheConf = false ->
  route.saveOKCache GetCacheKey isEnabled cacheConf appName request resp = ret tt.
Proof. intros Hoff. unfold route.saveOKCache. now rewrite Hoff. Qed.

Lemma saveErrCache_off (isEnabled : bool) (cacheConf : config.Cache.t)
    (appName : string) (request : http.Request.t) (code : Z) (resp : Resp) :
  config.Cache.IsEnabled cacheConf = false ->
  route.saveErrCache GetCacheKey isEnabled cacheConf appName request code resp = ret tt.
Proof. intros Hoff. unfold route.saveErrCache. now rewrite Hoff. Qed.

Lemma search_answers
    (relayService_Search : ytrelay.Options -> error + string)
    (appName : string) (whitelist : whitelist.YouTubeAPI)
    (cacheConf : config.Cache.t) (request : http.Request.t) :
  exists a, answers (route.search GetCacheKey parseQueries relayService_Search
                       appName whitelist cacheConf request) a.
Proof.
  unfold route.search. destruct (parseQueries request) as [q [err|]].
  { eexists. repeat first [apply answers_ret|apply answers_do]. }
  destruct (String.eqb (ytrelay.Part q) "");
    [eexists; repeat first [apply answers_ret|apply answers_do]|].
  destruct (negb _); [eexists; repeat first [apply answers_ret|apply answers_do]|].
  destruct (relayService_Search q); eexists;
    repeat first [apply answers_ret|apply answers_do].
Qed.

Lemma videos_answers
    (relayService_ListByVideoIDs : ytrelay.Options -> error + youtube.VideoListResponse)
    (isYouTube : bool) (appName : string) (whitelist : whitelist.YouTubeAPI)
    (cacheConf : config.Cache.t) (request : http.Request.t) :
  exists a, answers (route.videos GetCacheKey parseQueries
                       relayService_ListByVideoIDs isYouTube
                       appName whitelist cacheConf request) a.
Proof.
  unfold route.videos. destruct (parseQueries request) as [q [err|]].
  { eexists. repeat first [apply answers_ret|apply answers_do]. }
  destruct (String.eqb (ytrelay.Part q) "");
    [eexists; repeat first [apply answers_ret|apply answers_do]|].
  destruct (String.eqb (ytrelay.IDs q) "");
    [eexists; repeat first [apply answers_ret|apply answers_do]|].
  destruct (relayService_ListByVideoIDs q) as [err|listed];
    [eexists; repeat first [apply answers_ret|apply answers_do]|].
  destruct (if isYouTube then _ else _) as [[err|]|]; eexists;
    repeat first [apply answers_ret|apply answers_do].
Qed.

Lemma playlistItems_answers
    (relayService_ListPlaylistVideos : ytrelay.Options -> error + string)
    (appName : string) (whitelist : whitelist.YouTubeAPI) (env : whitelist.Env)
    (cacheConf : config.Cache.t) (request : http.Request.t) :
  exists a, answers (route.playlistItems GetCacheKey parseQueries
                       relayService_ListPlaylistVideos
                       appName env whitelist cacheConf request) a.
Proof.
  unfold route.playlistItems. destruct (parseQueries request) as [q [err|]].
  { eexists. repeat first [apply answers_ret|apply answers_do]. }
  destruct (String.eqb (ytrelay.Part q) "");
    [eexists; repeat first [apply answers_ret|apply answers_do]|].
  destruct (whitelist.ValidatePlaylistIDs env whitelist (ytrelay.PlaylistID q))
    as [[valid wl] calls].
  destruct (negb valid); [eexists; repeat first [apply answers_ret|apply answers_do]|].
  destruct (relayService_ListPlaylistVideos q); eexists;
    repeat first [apply answers_ret|apply answers_do].
Qed.

(** X21.  Caching is best effort in the three handlers: the answer of a
    handler (and the allow-list and the calls that [/playlistItems]
    leaves) is the same in any two worlds, whatever the store holds and
    whether it can be reached or written. *)
Theorem handlers_answer_whatever_the_store
    (relayService_Search : ytrelay.Options -> error + string)
    (relayService_ListByVideoIDs : ytrelay.Options -> error + youtube.VideoListResponse)
    (isYouTube : bool)
    (relayService_ListPlaylistVideos : ytrelay.Options -> error + string)
    (appName : string) (whitelist : whitelist.YouTubeAPI) (env : whitelist.Env)
    (cacheConf : config.Cache.t) (request : http.Request.t) (w1 w2 : World R) :
  fst (route.search GetCacheKey parseQueries relayService_Search
         appName whitelist cacheConf request w1)
  = fst (route.search GetCacheKey parseQueries relayService_Search
           appName whitelist cacheConf request w2)
  /\ fst (route.videos GetCacheKey parseQueries relayService_ListByVideoIDs
            isYouTube appName whitelist cacheConf request w1)
     = fst (route.videos GetCacheKey parseQueries relayService_ListByVideoIDs
              isYouTube appName whitelist cacheConf request w2)
  /\ fst (route.playlistItems GetCacheKey parseQueries
            relayService_ListPlaylistVideos appName env whitelist cacheConf
            request w1)
     = fst (route.playlistItems GetCacheKey parseQueries
              relayService_ListPlaylistVideos appName env whitelist cacheConf
              request w2).
Proof.
  destruct (search_answers relayService_Search appName whitelist cacheConf request)
    as [a Ha].
  destruct (videos_answers relayService_ListByVideoIDs isYouTube appName whitelist
              cacheConf request) as [b Hb].
  destruct (playlistItems_answers relayService_ListPlaylistVideos appName whitelist
              env cacheConf request) as [c Hc].
  repeat split; [now rewrite !Ha|now rewrite !Hb|now rewrite !Hc].
Qed.

(** The answer of a computation that ends in [ret]. *)
Lemma fst_do {A B} (m : M R A) (k : M R B) (w : World R) :
  fst ((do m then k) w) = fst (k (snd (m w))).
Proof. unfold bind. now destruct (m w). Qed.

(** X22.  [/search] answers 200 only for a channel that the allow-list
    marks effective: the query was bound, it names a part, its channel is
    mapped to true, the relay service returned, and the body is what it
    returned. *)
Theorem search_ok_only_for_effective_channel
    (relayService_Search : ytrelay.Options -> error + string)
    (appName : string) (whitelist : whitelist.YouTubeAPI)
    (cacheConf : config.Cache.t) (request : http.Request.t) (w : World R)
    (r : gin.Response) :
  fst (route.search GetCacheKey parseQueries relayService_Search
         appName whitelist cacheConf request w) = r ->
  gin.Status r = http.StatusOK ->
  exists queries payload,
    parseQueries request = (queries, None)
    /\ ytrelay.Part queries <> ""
    /\ config.Whitelists.ChannelIDs (whitelist.Whitelist whitelist)
         !! ytrelay.ChannelID queries = Some true
    /\ relayService_Search queries = inr payload
    /\ gin.Payload r = gin.JSON (Relayed payload).
Proof.
  unfold route.search. destruct (parseQueries request) as [q [err|]].
  { rewrite !fst_do. intros <-. discriminate. }
  destruct (String.eqb (ytrelay.Part q) "") eqn:Hpart.
  { rewrite !fst_do. intros <-. discriminate. }
  destruct (whitelist.ValidateChannelID whitelist (ytrelay.ChannelID q)) eqn:Hch; simpl.
  2:{ rewrite !fst_do. intros <-. discriminate. }
  destruct (relayService_Search q) as [err|payload] eqn:Hrelay.
  { rewrite !fst_do. intros <-. discriminate. }
  rewrite !fst_do. intros <- _. exists q, payload.
  split; [reflexivity|]. split; [now apply String.eqb_neq|].
  split; [now apply presentAndEffective_true in Hch|].
  split; [exact Hrelay|reflexivity].
Qed.

Lemma validate_accepts (whitelist : whitelist.YouTubeAPI) (items : list youtube.Video) :
  route.validateYouTubeVideoListResponse whitelist items = Returned None ->
  Forall (fun item =>
            exists channelId,
              youtube.Snippet_ChannelId item = Some channelId
              /\ config.Whitelists.ChannelIDs (whitelist.Whitelist whitelist)
                   !! channelId = Some true) items.
Proof.
  induction items as [|[[channelId|]] rest IH]; simpl; [constructor| |discriminate].
  destruct (whitelist.ValidateChannelID whitelist channelId) eqn:Hv; simpl;
    [|discriminate].
  intros Hrest. constructor; [|now apply IH].
  exists channelId. split; [reflexivity|now apply presentAndEffective_true in Hv].
Qed.

(** X23.  [/videos] answers 200 only when the relay service returned a
    list and, the service being YouTube, every video listed carries a
    snippet whose channel the allow-list marks effective; the body is
    then what the relay returned. *)
Theorem videos_ok_only_if_validated
    (relayService_ListByVideoIDs : ytrelay.Options -> error + youtube.VideoListResponse)
    (isYouTube : bool) (appName : string) (whitelist : whitelist.YouTubeAPI)
    (cacheConf : config.Cache.t) (request : http.Request.t) (w : World R)
    (r : gin.Response) :
  fst (route.videos GetCacheKey parseQueries relayService_ListByVideoIDs isYouTube
         appName whitelist cacheConf request w) = Returned r ->
  gin.Status r = http.StatusOK ->
  exists queries listed,
    parseQueries request = (queries, None)
    /\ ytrelay.Part queries <> "" /\ ytrelay.IDs queries <> ""
    /\ relayService_ListByVideoIDs queries = inr listed
    /\ (isYouTube = true ->
        Forall (fun item =>
                  exists channelId,
                    youtube.Snippet_ChannelId item = Some channelId
                    /\ config.Whitelists.ChannelIDs (whitelist.Whitelist whitelist)
                         !! channelId = Some true)
               (youtube.Items listed))
    /\ gin.Payload r = gin.JSON (Relayed (youtube.payload listed)).
Proof.
  unfold route.videos. destruct (parseQueries request) as [q [err|]].
  { rewrite !fst_do. intros [= <-]. discriminate. }
  destruct (String.eqb (ytrelay.Part q) "") eqn:Hpart.
  { rewrite !fst_do. intros [= <-]. discriminate. }
  destruct (String.eqb (ytrelay.IDs q) "") eqn:Hids.
  { rewrite !fst_do. intros [= <-]. discriminate. }
  destruct (relayService_ListByVideoIDs q) as [err|listed] eqn:Hrelay.
  { rewrite !fst_do. intros [= <-]. discriminate. }
  destruct (if isYouTube then _ else _) as [[err|]|] eqn:Hcheck.
  { rewrite !fst_do. intros [= <-]. discriminate. }
  2:{ discriminate. }
  rewrite !fst_do. intros [= <-] _. exists q, listed.
  split; [reflexivity|]. split; [now apply String.eqb_neq|].
  split; [now apply String.eqb_neq|]. split; [exact Hrelay|].
  split; [|reflexivity].
  intros ->. now apply validate_accepts.
Qed.

(** X24.  [/playlistItems] turns away a playlist that the allow-list
    does not hold while the cooldown runs: the answer is 400 with the
    message that names the playlist, the allow-list is left as it was, the
    CMS is not called, and the relay service plays no part in the
    outcome. *)
Theorem playlistItems_rejected_within_cooldown
    (relayService_ListPlaylistVideos : ytrelay.Options -> error + string)
    (appName : string) (whitelist : whitelist.YouTubeAPI) (env : whitelist.Env)
    (cacheConf : config.Cache.t) (request : http.Request.t) (w : World R)
    (queries : ytrelay.Options) :
  parseQueries request = (queries, None) ->
  ytrelay.Part queries <> "" ->
  config.Whitelists.PlaylistIDs (whitelist.Whitelist whitelist)
    !! ytrelay.PlaylistID queries <> Some true ->
  whitelist.tSince env - whitelist.lastFetch whitelist < whitelist.refreshCooldown ->
  fst (route.playlistItems GetCacheKey parseQueries relayService_ListPlaylistVideos
         appName env whitelist cacheConf request w)
  = ({| gin.Status := http.StatusBadRequest;
        gin.Payload :=
          gin.JSON (ErrorResp ("playlistId(" +:+ ytrelay.PlaylistID queries
                               +:+ ") is invalid")) |},
     whitelist, [])
  /\ forall other : ytrelay.Options -> error + string,
       route.playlistItems GetCacheKey parseQueries other
         appName env whitelist cacheConf request w
       = route.playlistItems GetCacheKey parseQueries relayService_ListPlaylistVideos
           appName env whitelist cacheConf request w.
Proof.
  intros Hparse Hpart Hmiss Hcool.
  apply String.eqb_neq in Hpart.
  assert (Hv : whitelist.ValidatePlaylistIDs env whitelist (ytrelay.PlaylistID queries)
               = (false, whitelist, [])).
  { unfold whitelist.ValidatePlaylistIDs.
    rewrite (refresh_within_cooldown env whitelist _ Hmiss Hcool).
    apply presentAndEffective_false in Hmiss. now rewrite Hmiss. }
  unfold route.playlistItems. rewrite Hparse, Hpart, Hv. simpl.
  split; [|reflexivity]. now rewrite !fst_do.
Qed.

Lemma logsOnly_ret {A} (a : A) : logsOnly (R := R) (ret a) a [].
Proof. intros [r l]. unfold ret. simpl. now rewrite app_nil_r. Qed.

Lemma logsOnly_emit (l : log.Level) (msg : string) :
  logsOnly (R := R) (emit l msg) tt [log.mkEntry l msg].
Proof. intros w. reflexivity. Qed.

Lemma logsOnly_bind {A B} (m : M R A) (k : A -> M R B) (a : A) (b : B)
    (lines lines' : list log.Entry) :
  logsOnly m a lines -> logsOnly (k a) b lines' ->
  logsOnly (bind m k) b (lines ++ lines').
Proof.
  intros Hm Hk w. unfold bind. rewrite Hm, Hk. simpl. now rewrite app_assoc.
Qed.

(** X25.  With the cache switched off the three routes have nothing to
    do with the store: the middleware is not installed and the handlers
    neither read nor write it; the answer and the lines logged are the
    same in every world and the store is left as it is. *)
Theorem cache_off_leaves_the_store_alone
    (relayService_Search : ytrelay.Options -> error + string)
    (relayService_ListByVideoIDs : ytrelay.Options -> error + youtube.VideoListResponse)
    (isYouTube : bool)
    (relayService_ListPlaylistVideos : ytrelay.Options -> error + string)
    (appName : string) (whitelist : whitelist.YouTubeAPI) (env : whitelist.Env)
    (cacheConf : config.Cache.t) (request : http.Request.t) :
  config.Cache.IsEnabled cacheConf = false ->
  (exists a lines,
     logsOnly (route.ytRouter_search GetCacheKey parseQueries relayService_Search
                 appName whitelist cacheConf request) a lines)
  /\ (exists a lines,
        logsOnly (route.videos GetCacheKey parseQueries relayService_ListByVideoIDs
                    isYouTube appName whitelist cacheConf request) a lines)
  /\ (exists a lines,
        logsOnly (route.playlistItems GetCacheKey parseQueries
                    relayService_ListPlaylistVideos appName env whitelist cacheConf
                    request) a lines).
Proof.
  intros Hoff. split; [|split].
  - unfold route.ytRouter_search, route.search. rewrite Hoff.
    destruct (parseQueries request) as [q [err|]];
      [|destruct (String.eqb (ytrelay.Part q) "");
        [|destruct (negb _); [|destruct (relayService_Search q)]]].
    all: eexists; eexists.
    all: repeat first [ apply logsOnly_ret | apply logsOnly_emit
                      | rewrite saveErrCache_off by exact Hoff
                      | rewrite saveOKCache_off by exact Hoff
                      | eapply logsOnly_bind ].
  - unfold route.videos.
    destruct (parseQueries request) as [q [err|]];
      [|destruct (String.eqb (ytrelay.Part q) "");
        [|destruct (String.eqb (ytrelay.IDs q) "");
          [|destruct (relayService_ListByVideoIDs q) as [err|listed];
            [|destruct (if isYouTube then _ else _) as [[err|]|]]]]].
    all: eexists; eexists.
    all: repeat first [ apply logsOnly_ret | apply logsOnly_emit
                      | rewrite saveErrCache_off by exact Hoff
                      | rewrite saveOKCache_off by exact Hoff
                      | eapply logsOnly_bind ].
  - unfold route.playlistItems.
    destruct (parseQueries request) as [q [err|]];
      [|destruct (String.eqb (ytrelay.Part q) "");
        [|destruct (whitelist.ValidatePlaylistIDs env whitelist (ytrelay.PlaylistID q))
            as [[valid wl] calls];
          destruct (negb valid);
          [|destruct (relayService_ListPlaylistVideos q)]]].
    all: eexists; eexists.
    all: repeat first [ apply logsOnly_ret | apply logsOnly_emit
                      | rewrite saveErrCache_off by exact Hoff
                      | rewrite saveOKCache_off by exact Hoff
                      | eapply logsOnly_bind ].
Qed.

(** X26.  The middleware never writes: whatever the configuration, the
    request, the key deriver, the codec and the store, the store after
    the middleware is the store before it. *)
Theorem middleware_never_writes
    (namespace : string) (cacheConf : config.Cache.t) (request : http.Request.t) :
  readsOnly (middleware.Cache GetCacheKey namespace cacheConf request).
Proof.
  unfold middleware.Cache.
  destruct (lookupBool _ _).
  { apply readsOnly_bind; [apply readsOnly_emit|intros _; apply readsOnly_ret]. }
  destruct (GetCacheKey _ _) as [key [err|]].
  { apply readsOnly_bind; [apply readsOnly_emit|intros _; apply readsOnly_ret]. }
  apply readsOnly_bind; [apply readsOnly_Get|].
  intros [err|result].
  { apply readsOnly_bind; [apply readsOnly_emit|intros _; apply readsOnly_ret]. }
  destruct (json.UnmarshalHTTP result);
    (apply readsOnly_bind; [apply readsOnly_emit|intros _; apply readsOnly_ret]).
Qed.

(** X27.  A hit short-circuits the request: when the path is not
    disabled, the key is derived, the store returns a value and the value
    decodes, the middleware aborts with the status stored and the bytes
    stored as the body, logs one line at info level and leaves the store
    as it is; the routed request gets that answer, and neither the query
    binding, the allow-list nor the relay service plays a part. *)
Theorem cache_hit_short_circuits
    (namespace : string) (cacheConf : config.Cache.t) (request : http.Request.t)
    (w : World R) (key result : string) (cacheResp : cache.HTTP) :
  lookupBool (config.Cache.DisabledAPIs cacheConf)
             (http.URL.Path (http.Request.URL request)) = false ->
  GetCacheKey namespace (http.URL.String_ (http.Request.URL request)) = (key, None) ->
  cache.Get (redis w) key = inr result ->
  json.UnmarshalHTTP result = inr cacheResp ->
  let answer :=
    {| gin.Status := cache.StatusCode cacheResp;
       gin.Payload := gin.RawMessage (cache.Response cacheResp) |} in
  let w' :=
    logged w log.InfoLevel
      ("respond with cache for " +:+ http.URL.String_ (http.Request.URL request)) in
  middleware.Cache GetCacheKey namespace cacheConf request w
  = (gin.AbortWithStatusJSON answer, w')
  /\ forall (relayService_Search : ytrelay.Options -> error + string)
            (whitelist : whitelist.YouTubeAPI),
       config.Cache.IsEnabled cacheConf = true ->
       route.ytRouter_search GetCacheKey parseQueries relayService_Search
         namespace whitelist cacheConf request w
       = (answer, w').
Proof.
  intros Hpath Hkey Hget Hdecode answer w'.
  assert (Hmw : middleware.Cache GetCacheKey namespace cacheConf request w
                = (gin.AbortWithStatusJSON answer, w')).
  { unfold middleware.Cache. rewrite Hpath, Hkey.
    unfold bind, redis_Get. now rewrite Hget, Hdecode. }
  split; [exact Hmw|].
  intros rs wl Hon. unfold route.ytRouter_search, bind. now rewrite Hon, Hmw.
Qed.

(** X28.  An entry that does not decode is a miss, not an error: the
    middleware logs one line at error level, writes no response and
    leaves the entry in the store; the routed request is answered by the
    handler. *)
Theorem corrupt_entry_is_a_miss
    (namespace : string) (cacheConf : config.Cache.t) (request : http.Request.t)
    (w : World R) (key result : string) (err : error) :
  lookupBool (config.Cache.DisabledAPIs cacheConf)
             (http.URL.Path (http.Request.URL request)) = false ->
  GetCacheKey namespace (http.URL.String_ (http.Request.URL request)) = (key, None) ->
  cache.Get (redis w) key = inr result ->
  json.UnmarshalHTTP result = inl err ->
  let w' :=
    logged w log.ErrorLevel
      (errors_Wrap err "Fail to unmarshal cache in cache middleware") in
  middleware.Cache GetCacheKey namespace cacheConf request w = (gin.Next, w')
  /\ forall (relayService_Search : ytrelay.Options -> error + string)
            (whitelist : whitelist.YouTubeAPI),
       config.Cache.IsEnabled cacheConf = true ->
       route.ytRouter_search GetCacheKey parseQueries relayService_Search
         namespace whitelist cacheConf request w
       = route.search GetCacheKey parseQueries relayService_Search
           namespace whitelist cacheConf request w'.
Proof.
  intros Hpath Hkey Hget Hdecode w'.
  assert (Hmw : middleware.Cache GetCacheKey namespace cacheConf request w
                = (gin.Next, w')).
  { unfold middleware.Cache. rewrite Hpath, Hkey.
    unfold bind, redis_Get. now rewrite Hget, Hdecode. }
  split; [exact Hmw|].
  intros rs wl Hon. unfold route.ytRouter_search, bind. now rewrite Hon, Hmw.
Qed.

(** X29.  What [saveCache] writes, the middleware serves: when the key
    is derived, the answer and the entry are encoded, the store takes the
    entry and returns it under that key, and the entry decodes to what
    was encoded, the middleware run on the same request afterwards aborts
    with the status code given to [saveCache] and the encoded answer as
    the body. *)
Theorem saved_answer_is_served
    (cacheConf : config.Cache.t) (appName : string) (request : http.Request.t)
    (respCode : Z) (resp : Resp) (ttl : time.Duration) (w : World R)
    (key body entry : string) (r1 : R) :
  lookupBool (config.Cache.DisabledAPIs cacheConf)
             (http.URL.Path (http.Request.URL request)) = false ->
  GetCacheKey appName (http.URL.String_ (http.Request.URL request)) = (key, None) ->
  json.Marshal resp = inr body ->
  json.MarshalHTTP {| cache.StatusCode := respCode; cache.Response := body |}
    = inr entry ->
  json.UnmarshalHTTP entry
    = inr {| cache.StatusCode := respCode; cache.Response := body |} ->
  cache.SetNX (redis w) key entry ttl = (r1, None) ->
  cache.Get r1 key = inr entry ->
  let w1 := snd (route.saveCache GetCacheKey cacheConf appName request respCode
                   resp ttl w) in
  redis w1 = r1
  /\ fst (middleware.Cache GetCacheKey appName cacheConf request w1)
     = gin.AbortWithStatusJSON
         {| gin.Status := respCode; gin.Payload := gin.RawMessage body |}.
Proof.
  intros Hpath Hkey Hbody Hentry Hdecode Hset Hget w1.
  assert (Hw1 : redis w1 = r1).
  { unfold w1, route.saveCache. rewrite Hbody, Hentry, Hkey.
    unfold bind, redis_SetNX, ret. simpl. now rewrite Hset. }
  split; [exact Hw1|].
  unfold middleware.Cache. rewrite Hpath, Hkey.
  unfold bind, redis_Get. rewrite Hw1, Hget, Hdecode. reflexivity.
Qed.

End Handlers.

(* ------------------------------------------------------------------ *)
(** ** The command line *)

Section CommandLine.

(** [Valid] reads neither the address nor the port. *)
Lemma Valid_ignores_address (cfg : config.Conf.t) (address : string) (port : Z) :
  config.Valid
    {| config.Conf.AppName := config.Conf.AppName cfg;
       config.Conf.Address := address;
       config.Conf.ApiKey := config.Conf.ApiKey cfg;
       config.Conf.Cache := config.Conf.Cache cfg;
       config.Conf.CmsURL := config.Conf.CmsURL cfg;
       config.Conf.Port := port;
       config.Conf.Redis := config.Conf.Redis cfg;
       config.Conf.Whitelists := config.Conf.Whitelists cfg |}
  = config.Valid cfg.
Proof. reflexivity. Qed.

(** X30.  [Start] runs a command on a validated configuration only: when
    [config.Load] fails the command is not run and the error is
    [failed to load config]; otherwise the command is run once, on the
    configuration loaded with the address and the port of the flags put in
    its place, which still passes [Valid], and [Start] returns what the
    command returns. *)
Theorem Start_runs_validated
    (rd : string -> option error) (um : string -> error + config.Conf.t)
    (lc : config.Conf.t -> config.Conf.t * option error)
    (cmdMain : list string -> cli.Conf -> option error)
    (args : list string) (flags : cli.Conf) :
  match config.Load rd um lc (cli.ConfigFile flags) with
  | inl _ =>
      cli.Start (config.Load rd um lc) cmdMain args flags
      = Some "failed to load config"
  | inr loaded =>
      exists cfg,
        cli.Start (config.Load rd um lc) cmdMain args flags
        = cmdMain args {| cli.ConfigFile := cli.ConfigFile flags;
                          cli.Address := cli.Address flags;
                          cli.Port := cli.Port flags;
                          cli.CFG := Some cfg |}
        /\ config.Valid cfg = true
        /\ config.Conf.Address cfg = cli.Address flags
        /\ config.Conf.Port cfg = cli.Port flags
        /\ config.Conf.AppName cfg = config.Conf.AppName loaded
        /\ config.Conf.ApiKey cfg = config.Conf.ApiKey loaded
        /\ config.Conf.Cache cfg = config.Conf.Cache loaded
        /\ config.Conf.CmsURL cfg = config.Conf.CmsURL loaded
        /\ config.Conf.Redis cfg = config.Conf.Redis loaded
        /\ config.Conf.Whitelists cfg = config.Conf.Whitelists loaded
  end.
Proof.
  destruct (config.Load rd um lc (cli.ConfigFile flags)) as [err|loaded] eqn:Hload.
  - unfold cli.Start. now rewrite Hload.
  - exists {| config.Conf.AppName := config.Conf.AppName loaded;
              config.Conf.Address := cli.Address flags;
              config.Conf.ApiKey := config.Conf.ApiKey loaded;
              config.Conf.Cache := config.Conf.Cache loaded;
              config.Conf.CmsURL := config.Conf.CmsURL loaded;
              config.Conf.Port := cli.Port flags;
              config.Conf.Redis := config.Conf.Redis loaded;
              config.Conf.Whitelists := config.Conf.Whitelists loaded |}.
    split.
    + unfold cli.Start. rewrite Hload.
      destruct (cmdMain args _); reflexivity.
    + split; [|now repeat split].
      rewrite Valid_ignores_address. exact (Load_returns_valid _ _ _ _ _ Hload).
Qed.

End CommandLine.

(* ------------------------------------------------------------------ *)
(** ** The further properties on the reference store and the fixtures *)

Section FurtherInstances.

Lemma validated_ttl_is_positive_witness :
  config.Valid (fixtures.confWith fixtures.singleOK) = true
  /\ exists n, 0 < n <= 9223372036
       /\ fst (fst (route.getResponseCacheTTL
                      (config.Conf.Cache (fixtures.confWith fixtures.singleOK))
                      fixtures.reqBareTTL5 fixtures.world0))
          = n * time.Second.
Proof.
  assert (Hvalid : config.Valid (fixtures.confWith fixtures.singleOK) = true)
    by reflexivity.
  split; [exact Hvalid|].
  refine (proj1 (validated_ttl_is_positive (fixtures.confWith fixtures.singleOK)
                   fixtures.reqBareTTL5 fixtures.world0 Hvalid eq_refl _ _ _ _)).
  - simpl. lia.
  - simpl. lia.
  - apply map_Forall_empty.
  - intros n Hn. vm_compute in Hn. injection Hn as <-. lia.
Defined.

Lemma oversized_override_wraps_witness :
  spec.override fixtures.reqBareHuge = spec.Seconds 9223372037
  /\ fst (fst (route.getResponseCacheTTL fixtures.cacheOn fixtures.reqBareHuge
                 fixtures.world0)) < 0.
Proof.
  assert (Ho : spec.override fixtures.reqBareHuge = spec.Seconds 9223372037)
    by (vm_compute; reflexivity).
  split; [exact Ho|].
  refine (proj2 (oversized_override_wraps fixtures.cacheOn fixtures.reqBareHuge
                   fixtures.world0 9223372037 Ho _)).
  lia.
Defined.

Lemma parseAddresses_reads_formatted_witness :
  config.parseAddresses (format.join "," (map format.address fixtures.twoNodes))
  = (fixtures.twoNodes, None).
Proof.
  apply (parseAddresses_reads_formatted fixtures.twoNodes).
  unfold fixtures.twoNodes, format.word.
  repeat (constructor;
    [split; [cbn; repeat constructor
           |unfold time.minDuration, time.maxDuration; simpl; lia]|]).
  constructor.
Defined.

Lemma parseCSVMap_reads_formatted_witness :
  config.parseCSVMap (format.join "," (map format.binding fixtures.twoTTLs))
  = (fold_left (fun m kv => <[fst kv := snd kv]> m) fixtures.twoTTLs ∅, None).
Proof.
  apply (parseCSVMap_reads_formatted fixtures.twoTTLs).
  unfold fixtures.twoTTLs, format.word.
  repeat (constructor;
    [split; [cbn; repeat constructor
           |unfold time.minDuration, time.maxDuration; simpl; lia]|]).
  constructor.
Defined.

Lemma Load_env_redis_without_address_witness :
  fixtures.getenvCluster "REDIS_TYPE" <> ""
  /\ exists err,
       config.Load (fun _ => None) (fun _ => inr (fixtures.confWith fixtures.singleOK))
         (config.loadComplexEnvVars fixtures.getenvCluster) ""
       = inl err.
Proof.
  assert (Hty : fixtures.getenvCluster "REDIS_TYPE" <> "") by discriminate.
  split; [exact Hty|].
  apply (Load_env_redis_without_address (fun _ => None)
           (fun _ => inr (fixtures.confWith fixtures.singleOK))
           fixtures.getenvCluster Hty).
  reflexivity.
Defined.

Lemma extractPlaylistID_ignores_surroundings_witness :
  cms.extractPlaylistID (Some ("  " +:+ "a?list=PL123" +:+ " "))
  = cms.extractPlaylistID (Some "a?list=PL123").
Proof.
  apply (extractPlaylistID_ignores_surroundings "  " "a?list=PL123" " ").
  - cbn. repeat (constructor; [left; reflexivity|]). constructor.
  - cbn. repeat (constructor; [left; reflexivity|]). constructor.
Defined.

Lemma extractPlaylistID_finds_witness :
  cms.extractPlaylistID
    (Some ("https://www.youtube.com/watch"
           +:+ String "?" ("list=" +:+ "PL_a-1" +:+ "&index=2")))
  = "PL_a-1".
Proof.
  apply (extractPlaylistID_finds "https://www.youtube.com/watch" "PL_a-1"
           "&index=2" "?").
  - cbn. repeat constructor.
  - reflexivity.
  - discriminate.
  - cbn. repeat constructor.
  - reflexivity.
Defined.

Lemma FetchPlaylistIDs_lookup_witness :
  cms.FetchPlaylistIDs (inr "{}") fixtures.cmsAnswer
  = inr (cms.collect fixtures.twoShows)
  /\ forall k,
       cms.collect fixtures.twoShows !! k
       = if decide (k <> ""
                    /\ k ∈ map cms.extractPlaylistID
                             (concat (map cms.fields fixtures.twoShows)))
         then Some true else None.
Proof.
  assert (H : cms.FetchPlaylistIDs (inr "{}") fixtures.cmsAnswer
              = inr (cms.collect fixtures.twoShows)) by reflexivity.
  split; [exact H|].
  destruct (FetchPlaylistIDs_lookup _ _ _ H)
    as (body & resp & result & _ & Hp & _ & Hd & _ & Hk).
  unfold fixtures.cmsAnswer in Hp. injection Hp as <-.
  simpl in Hd. injection Hd as <-. exact Hk.
Defined.

Lemma refresh_from_cms_witness :
  fst (fst (whitelist.ValidatePlaylistIDs fixtures.envCms fixtures.api0 "PL123"))
  = true
  <-> "PL123" <> ""
      /\ "PL123" ∈ map cms.extractPlaylistID
                     (concat (map cms.fields fixtures.twoShows)).
Proof.
  apply (refresh_from_cms fixtures.envCms fixtures.api0 "PL123" "{}"
           fixtures.twoShows).
  - intros H. vm_compute in H. discriminate.
  - vm_compute. discriminate.
  - reflexivity.
Defined.

Lemma fetch_rate_bound_witness :
  (Z.of_nat (length (snd (whitelist.run fixtures.api0 fixtures.burst))) - 1)
  * whitelist.refreshCooldown
  <= 130 * time.Second - 100 * time.Second.
Proof.
  apply (fetch_rate_bound fixtures.api0 fixtures.burst
           (100 * time.Second) (130 * time.Second)).
  - unfold fixtures.burst, fixtures.envDown, fixtures.envLater, fixtures.envLast.
    simpl. unfold time.Second. lia.
  - vm_compute. discriminate.
  - assert (H : snd (whitelist.run fixtures.api0 fixtures.burst)
                 = [whitelist.FetchPlaylistIDs "https://cms.example/api/graphql"
                      (100 * time.Second) (101 * time.Second)]) by reflexivity.
    rewrite H. constructor; [|constructor].
    simpl. unfold time.Second. lia.
Defined.

Lemma failed_refresh_suppresses_retries_witness :
  whitelist.ValidatePlaylistIDs fixtures.envLater
    (snd (fst (whitelist.ValidatePlaylistIDs fixtures.envDown fixtures.api0 "P1")))
    "P3"
  = (false,
     snd (fst (whitelist.ValidatePlaylistIDs fixtures.envDown fixtures.api0 "P1")),
     []).
Proof.
  apply (failed_refresh_suppresses_retries fixtures.envDown fixtures.envLater
           fixtures.api0 "P1" "P3" "failed to fetch shows from CMS: EOF").
  - intros H. vm_compute in H. discriminate.
  - vm_compute. discriminate.
  - reflexivity.
  - intros H. vm_compute in H. discriminate.
  - vm_compute. reflexivity.
Defined.

Lemma first_miss_fetches_witness :
  exists s,
    server.New fixtures.newRedis (fixtures.confWith fixtures.singleOK) = inr s
    /\ snd (whitelist.ValidatePlaylistIDs fixtures.envUp (server.APIWhitelist s) "P1")
       = [whitelist.FetchPlaylistIDs "https://cms.example/api/graphql"
            (100 * time.Second) (101 * time.Second)].
Proof.
  assert (H : exists s, server.New fixtures.newRedis
                          (fixtures.confWith fixtures.singleOK) = inr s)
    by (eexists; reflexivity).
  destruct H as [s H]. exists s. split; [exact H|].
  apply (first_miss_fetches fixtures.newRedis (fixtures.confWith fixtures.singleOK)
           s fixtures.envUp "P1" H).
  - intros H'. vm_compute in H'. discriminate.
  - vm_compute. discriminate.
Defined.

Lemma serveMain_runs_seeded_witness :
  exists s,
    serve.serveMain fixtures.seedFetch fixtures.newRedis (fun _ => None)
      (fun _ => None) [] fixtures.cliLoaded
    = (None, Some s)
    /\ config.Whitelists.PlaylistIDs (whitelist.Whitelist (server.APIWhitelist s))
       = {[ "P1" := true ]}.
Proof.
  assert (H : exists s,
             serve.serveMain fixtures.seedFetch fixtures.newRedis (fun _ => None)
               (fun _ => None) [] fixtures.cliLoaded
             = (None, Some s))
    by (eexists; reflexivity).
  destruct H as [s H]. exists s. split; [exact H|].
  destruct (serveMain_runs_seeded _ _ _ _ _ _ _ _ H)
    as (cfg & ids & _ & Hf & _ & Hp & _).
  unfold fixtures.seedFetch in Hf. injection Hf as <-. exact Hp.
Defined.

Lemma serveMain_stops_early_witness :
  serve.serveMain fixtures.seedFetch fixtures.newRedis (fun _ => None)
    (fun _ => None) [] fixtures.cliConf
  = (Some "config file is nil", None)
  /\ (cli.CFG fixtures.cliConf = None
      \/ exists cfg, cli.CFG fixtures.cliConf = Some cfg).
Proof.
  assert (H : serve.serveMain fixtures.seedFetch fixtures.newRedis (fun _ => None)
                (fun _ => None) [] fixtures.cliConf
              = (Some "config file is nil", None)) by reflexivity.
  split; [exact H|].
  destruct (serveMain_stops_early _ _ _ _ _ _ _ H) as [[Hnil _]|(cfg & Hcfg & _)];
    [left; exact Hnil|right; exists cfg; exact Hcfg].
Defined.

Lemma search_ok_only_for_effective_channel_witness :
  gin.Status (fst (route.search plainKey fixtures.parseQueries fixtures.relayOK
                     "yt-relay" fixtures.api0 fixtures.cacheOn
                     fixtures.reqGoodChannel fixtures.world0))
  = http.StatusOK
  /\ exists queries payload,
       fixtures.parseQueries fixtures.reqGoodChannel = (queries, None)
       /\ ytrelay.Part queries <> ""
       /\ config.Whitelists.ChannelIDs (whitelist.Whitelist fixtures.api0)
            !! ytrelay.ChannelID queries = Some true
       /\ fixtures.relayOK queries = inr payload
       /\ gin.Payload (fst (route.search plainKey fixtures.parseQueries
                              fixtures.relayOK "yt-relay" fixtures.api0
                              fixtures.cacheOn fixtures.reqGoodChannel
                              fixtures.world0))
          = gin.JSON (Relayed payload).
Proof.
  assert (Hok : gin.Status
                  (fst (route.search plainKey fixtures.parseQueries fixtures.relayOK
                          "yt-relay" fixtures.api0 fixtures.cacheOn
                          fixtures.reqGoodChannel fixtures.world0))
                = http.StatusOK) by (vm_compute; reflexivity).
  split; [exact Hok|].
  exact (search_ok_only_for_effective_channel plainKey fixtures.parseQueries
           fixtures.relayOK "yt-relay" fixtures.api0 fixtures.cacheOn
           fixtures.reqGoodChannel fixtures.world0 _ eq_refl Hok).
Defined.

Lemma videos_ok_only_if_validated_witness :
  fst (route.videos plainKey fixtures.parseVideoQueries fixtures.listOK true
         "yt-relay" fixtures.api0 fixtures.cacheOn fixtures.reqGoodChannel
         fixtures.world0)
  = Returned {| gin.Status := http.StatusOK; gin.Payload := gin.JSON (Relayed "{}") |}
  /\ exists queries listed,
       fixtures.parseVideoQueries fixtures.reqGoodChannel = (queries, None)
       /\ fixtures.listOK queries = inr listed
       /\ Forall (fun item =>
                    exists channelId,
                      youtube.Snippet_ChannelId item = Some channelId
                      /\ config.Whitelists.ChannelIDs
                           (whitelist.Whitelist fixtures.api0)
                           !! channelId = Some true)
                 (youtube.Items listed).
Proof.
  assert (Hok : fst (route.videos plainKey fixtures.parseVideoQueries fixtures.listOK
                       true "yt-relay" fixtures.api0 fixtures.cacheOn
                       fixtures.reqGoodChannel fixtures.world0)
                = Returned {| gin.Status := http.StatusOK;
                              gin.Payload := gin.JSON (Relayed "{}") |})
    by (vm_compute; reflexivity).
  split; [exact Hok|].
  destruct (videos_ok_only_if_validated plainKey fixtures.parseVideoQueries
              fixtures.listOK true "yt-relay" fixtures.api0 fixtures.cacheOn
              fixtures.reqGoodChannel fixtures.world0 _ Hok eq_refl)
    as (queries & listed & Hq & _ & _ & Hl & Hall & _).
  exists queries, listed. split; [exact Hq|]. split; [exact Hl|exact (Hall eq_refl)].
Defined.

Lemma playlistItems_rejected_within_cooldown_witness :
  fst (route.playlistItems plainKey fixtures.parseVideoQueries fixtures.relayOK
         "yt-relay" fixtures.envEarly fixtures.api0 fixtures.cacheOn
         fixtures.reqGoodChannel fixtures.world0)
  = ({| gin.Status := http.StatusBadRequest;
        gin.Payload := gin.JSON (ErrorResp "playlistId(P9) is invalid") |},
     fixtures.api0, []).
Proof.
  refine (proj1 (playlistItems_rejected_within_cooldown plainKey
                   fixtures.parseVideoQueries fixtures.relayOK "yt-relay"
                   fixtures.api0 fixtures.envEarly fixtures.cacheOn
                   fixtures.reqGoodChannel fixtures.world0
                   (fst (fixtures.parseVideoQueries fixtures.reqGoodChannel))
                   eq_refl _ _ _)).
  - discriminate.
  - intros H. vm_compute in H. discriminate.
  - vm_compute. reflexivity.
Defined.

Lemma cache_off_leaves_the_store_alone_witness :
  exists a lines,
    logsOnly (R := memstore.t)
      (route.ytRouter_search plainKey fixtures.parseQueries fixtures.relayOK
         "yt-relay" fixtures.api0 fixtures.cacheOff fixtures.reqGoodChannel)
      a lines.
Proof.
  exact (proj1 (cache_off_leaves_the_store_alone plainKey fixtures.parseQueries
                  fixtures.relayOK fixtures.listOK true fixtures.relayOK "yt-relay"
                  fixtures.api0 fixtures.envEarly fixtures.cacheOff
                  fixtures.reqGoodChannel eq_refl)).
Defined.

Lemma cache_hit_short_circuits_witness :
  route.ytRouter_search plainKey fixtures.parseQueries fixtures.relayOK "yt-relay"
    fixtures.api0 fixtures.cacheOn fixtures.reqGoodChannel
    (fixtures.worldWith fixtures.keyGoodChannel fixtures.entryOK)
  = ({| gin.Status := http.StatusOK; gin.Payload := gin.RawMessage "{}" |},
     logged (fixtures.worldWith fixtures.keyGoodChannel fixtures.entryOK)
       log.InfoLevel
       ("respond with cache for "
        +:+ http.URL.String_ (http.Request.URL fixtures.reqGoodChannel))).
Proof.
  assert (Hget : cache.Get (redis (fixtures.worldWith fixtures.keyGoodChannel
                                     fixtures.entryOK))
                   fixtures.keyGoodChannel
                 = inr fixtures.entryOK) by (vm_compute; reflexivity).
  assert (Hdecode : json.UnmarshalHTTP fixtures.entryOK
                    = inr {| cache.StatusCode := 200; cache.Response := "{}" |})
    by (vm_compute; reflexivity).
  exact (proj2 (cache_hit_short_circuits plainKey fixtures.parseQueries "yt-relay"
                  fixtures.cacheOn fixtures.reqGoodChannel _ fixtures.keyGoodChannel
                  fixtures.entryOK _ eq_refl eq_refl Hget Hdecode)
           fixtures.relayOK fixtures.api0 eq_refl).
Defined.

Lemma corrupt_entry_is_a_miss_witness :
  fst (middleware.Cache plainKey "yt-relay" fixtures.cacheOn fixtures.reqGoodChannel
         (fixtures.worldWith fixtures.keyGoodChannel "not json"))
  = gin.Next.
Proof.
  assert (Hget : cache.Get (redis (fixtures.worldWith fixtures.keyGoodChannel
                                     "not json"))
                   fixtures.keyGoodChannel
                 = inr "not json") by (vm_compute; reflexivity).
  assert (Hdecode : json.UnmarshalHTTP "not json" = inl wire.syntaxError)
    by (vm_compute; reflexivity).
  rewrite (proj1 (corrupt_entry_is_a_miss plainKey fixtures.parseQueries "yt-relay"
                    fixtures.cacheOn fixtures.reqGoodChannel _
                    fixtures.keyGoodChannel "not json" wire.syntaxError
                    eq_refl eq_refl Hget Hdecode)).
  reflexivity.
Defined.

Lemma saved_answer_is_served_witness :
  fst (middleware.Cache plainKey "yt-relay" fixtures.cacheOn fixtures.reqGoodChannel
         (snd (route.saveCache plainKey fixtures.cacheOn "yt-relay"
                 fixtures.reqGoodChannel http.StatusOK (Relayed "{}")
                 (600 * time.Second) fixtures.world0)))
  = gin.AbortWithStatusJSON
      {| gin.Status := http.StatusOK; gin.Payload := gin.RawMessage "{}" |}.
Proof.
  assert (Hentry : json.MarshalHTTP
                     {| cache.StatusCode := http.StatusOK; cache.Response := "{}" |}
                   = inr fixtures.entryOK) by (vm_compute; reflexivity).
  assert (Hdecode : json.UnmarshalHTTP fixtures.entryOK
                    = inr {| cache.StatusCode := http.StatusOK;
                             cache.Response := "{}" |})
    by (vm_compute; reflexivity).
  assert (Hget : cache.Get (redis (fixtures.worldWith fixtures.keyGoodChannel
                                     fixtures.entryOK))
                   fixtures.keyGoodChannel
                 = inr fixtures.entryOK) by (vm_compute; reflexivity).
  exact (proj2 (saved_answer_is_served plainKey fixtures.cacheOn "yt-relay"
                  fixtures.reqGoodChannel http.StatusOK (Relayed "{}")
                  (600 * time.Second) fixtures.world0 fixtures.keyGoodChannel
                  "{}" fixtures.entryOK
                  (redis (fixtures.worldWith fixtures.keyGoodChannel fixtures.entryOK))
                  eq_refl eq_refl eq_refl Hentry Hdecode eq_refl Hget)).
Defined.

End FurtherInstances.
